(** * Interior layout optimizer: geometry, constraints, fitness and the
      genetic search loop

    A shallow embedding of
      backend/app/modules/interior/geometry.py
      backend/app/modules/interior/constraints.py
      backend/app/modules/interior/fitness.py
      backend/app/modules/interior/optimizer.py
    Python floats are read as exact rationals ([Q]); Python ints that can be
    negative are [Z]; lengths and loop counters are [nat].  Code that can
    raise returns a [Result]; code that draws random numbers threads the
    generator explicitly.  Where rounding decides what the code returns
    (the percentage of a tiny negative fitness), the function is embedded a
    second time on IEEE 754 binary64 floats (module [Binary64]). *)

From Stdlib Require Import QArith ZArith List Bool Lia Lqa Arith.
From Stdlib Require Import Qminmax Qround Permutation.
From Stdlib Require String Uint63.
From Stdlib Require Import Floats.
Import ListNotations.

Set Implicit Arguments.
Open Scope Q_scope.

(* ===================================================================== *)
(** ** Exceptions and the two monads of the development *)

Inductive Exn : Type :=
| ValueError          (* random.randint on an empty range, max([]) *)
| IndexError          (* list index out of range, random.choice([]) *)
| ZeroDivisionError   (* division by a zero length *)
| GEOSException       (* raised by a shapely query *)
| LoadError           (* raised by torch.load / load_state_dict *)
| OutOfFuel.          (* not a Python exception: a [while] loop of the model
                         used up its iteration budget (shown unreachable) *)

Inductive Result (A : Type) : Type :=
| Ok (a : A)
| Raise (e : Exn).

Arguments Ok {A} a.
Arguments Raise {A} e.

Definition result_bind {A B} (r : Result A) (k : A -> Result B) : Result B :=
  match r with
  | Ok a => k a
  | Raise e => Raise e
  end.

Declare Scope result_scope.
Delimit Scope result_scope with result.
Notation "x <- c ;; k" := (result_bind c (fun x => k))
  (at level 61, c at next level, right associativity) : result_scope.
Notation "' pat <- c ;; k" :=
  (result_bind c (fun x => match x with pat => k end))
  (at level 61, pat pattern, c at next level, right associativity)
  : result_scope.
Notation "'ret' a" := (Ok a) (at level 10, a at level 9, only parsing)
  : result_scope.

(** [succeeds r]: the call returned normally. *)
Definition succeeds {A} (r : Result A) : Prop := exists a, r = Ok a.

(** The value of a call that returned, [d] when it raised. *)
Definition value {A} (d : A) (r : Result A) : A :=
  match r with Ok a => a | Raise _ => d end.

(* --------------------------------------------------------------------- *)
(** *** Comparisons on floats read as rationals *)

Definition Qltb (a b : Q) : bool := negb (Qle_bool b a).

(** Python's two-argument [max(a, b)]: [b] when [b > a], else [a]. *)
Definition py_max (a b : Q) : Q := if Qltb a b then b else a.
(** Python's two-argument [min(a, b)]: [b] when [b < a], else [a]. *)
Definition py_min (a b : Q) : Q := if Qltb b a then b else a.

(* ===================================================================== *)
(** ** The [random] module

    The generator is a tape of draws read left to right.  One draw serves
    one primitive call: [random()] reads its [unit] field (a float of
    [0, 1)), [_randbelow(n)] reads its [bits] field modulo [n]. *)

Module random.

Record Draw : Type := { unit : Q; bits : nat }.

Record Rng : Type := { tape : nat -> Draw; cursor : nat }.

Definition next (g : Rng) : Draw * Rng :=
  (tape g (cursor g), {| tape := tape g; cursor := S (cursor g) |}).

(** Random computations: read the generator, return or raise. *)
Definition M (A : Type) : Type := Rng -> Result (A * Rng).

Definition m_ret {A} (a : A) : M A := fun g => Ok (a, g).

Definition m_bind {A B} (c : M A) (k : A -> M B) : M B :=
  fun g => match c g with
           | Ok (a, g') => k a g'
           | Raise e => Raise e
           end.

Definition lift {A} (r : Result A) : M A :=
  fun g => match r with Ok a => Ok (a, g) | Raise e => Raise e end.

Definition raise {A} (e : Exn) : M A := fun _ => Raise e.

(** [random.random()] *)
Definition random : M Q :=
  fun g => let (d, g') := next g in Ok (unit d, g').

(** [random.uniform(a, b)]: [a + (b - a) * random()] *)
Definition uniform (a b : Q) : M Q :=
  m_bind random (fun u => m_ret (a + (b - a) * u)).

(** [Random._randbelow(n)] for [n > 0]. *)
Definition randbelow (n : nat) : M nat :=
  fun g => let (d, g') := next g in Ok (Nat.modulo (bits d) n, g').

(** [random.randint(a, b)] is [randrange(a, b + 1)]: ValueError on an
    empty range. *)
Definition randint (a b : Z) : M Z :=
  let width := (b + 1 - a)%Z in
  if (0 <? width)%Z
  then m_bind (randbelow (Z.to_nat width))
              (fun k => m_ret (a + Z.of_nat k)%Z)
  else raise ValueError.

(** [random.choice(seq)]: IndexError on an empty sequence. *)
Definition choice {A} (seq : list A) : M A :=
  match seq with
  | [] => raise IndexError
  | _ => m_bind (randbelow (length seq))
                (fun i => match nth_error seq i with
                          | Some a => m_ret a
                          | None => raise IndexError
                          end)
  end.

End random.

Declare Scope rand_scope.
Delimit Scope rand_scope with rand.
Notation "x <- c ;; k" := (random.m_bind c (fun x => k))
  (at level 61, c at next level, right associativity) : rand_scope.
Notation "' pat <- c ;; k" :=
  (random.m_bind c (fun x => match x with pat => k end))
  (at level 61, pat pattern, c at next level, right associativity)
  : rand_scope.
Notation "'ret' a" := (random.m_ret a) (at level 10, a at level 9, only parsing)
  : rand_scope.

(* ===================================================================== *)
(** ** The geometry library (shapely)

    shapely is an external library; the code is verified against this
    interface.  Constructors and affine maps are pure; the queries that go
    through GEOS (predicates, overlay, distance) can raise. *)

Definition Point : Type := (Q * Q)%type.

Record Shapely : Type := {
  Geom : Type;
  (** [Polygon(coords)] *)
  Polygon : list Point -> Geom;
  (** [shapely.affinity.rotate(g, angle, origin=(0, 0))], angle in degrees *)
  rotate : Geom -> Z -> Geom;
  (** [shapely.affinity.translate(g, xoff, yoff)] *)
  translate : Geom -> Q -> Q -> Geom;
  (** [a.contains(b)] *)
  contains : Geom -> Geom -> Result bool;
  (** [a.intersects(b)] *)
  intersects : Geom -> Geom -> Result bool;
  (** [a.intersection(b).area] *)
  intersection_area : Geom -> Geom -> Result Q;
  (** [g.area] *)
  area : Geom -> Q;
  (** [g.bounds]: (minx, miny, maxx, maxy) *)
  bounds : Geom -> Q * Q * Q * Q;
  (** [g.centroid] *)
  centroid : Geom -> Point;
  (** [g.boundary.distance(Point(p))] *)
  boundary_distance : Geom -> Point -> Result Q
}.

(** A furniture dict.  [rotatable] is [None] when the key is absent
    (read with [item.get("rotatable", True)]). *)
Record FurnitureItem : Type := {
  width : Q;
  depth : Q;
  rotatable : option bool
}.

(** One gene: [(x, y, rot)]. *)
Definition Placement : Type := (Q * Q * Z)%type.
(** A layout / individual: one placement per furniture item. *)
Definition Layout : Type := list Placement.

(** [l[i]] for a non-negative index. *)
Definition index {A} (l : list A) (i : nat) : Result A :=
  match nth_error l i with
  | Some a => Ok a
  | None => Raise IndexError
  end.

(** [range(a, b)] *)
Definition range (a b : nat) : list nat := seq a (b - a).

(** [enumerate(l)] *)
Definition enumerate {A} (l : list A) : list (nat * A) :=
  combine (seq 0 (length l)) l.

(** A [for] loop over [xs] that updates a state and may raise. *)
Fixpoint for_each {S A} (body : S -> A -> Result S) (s : S) (xs : list A)
  : Result S :=
  match xs with
  | [] => Ok s
  | x :: rest => (s' <- body s x ;; for_each body s' rest)%result
  end.

Section Core.

Variable G : Shapely.

Local Open Scope result_scope.

(* ------------------------------------------------------------------- *)
(** *** geometry.py *)

Definition create_furniture_polygon (x y width depth : Q) (angle : Z)
  : Geom G :=
  let half_w := width / 2 in
  let half_d := depth / 2 in
  let coords := [ (- half_w, - half_d);
                  (half_w, - half_d);
                  (half_w, half_d);
                  (- half_w, half_d) ] in
  let poly := Polygon G coords in
  let poly := if (angle =? 0)%Z then poly else rotate G poly angle in
  translate G poly x y.

Definition check_intersection (poly1 poly2 : Geom G) : Result bool :=
  intersects G poly1 poly2.

Definition check_containment (container item : Geom G) : Result bool :=
  contains G container item.

Definition calculate_overlap_area (poly1 poly2 : Geom G) : Result Q :=
  hit <- intersects G poly1 poly2 ;;
  if negb hit then ret 0
  else intersection_area G poly1 poly2.

Definition distance_to_wall (point : Point) (room_poly : Geom G)
  : Result Q :=
  boundary_distance G room_poly point.

(* ------------------------------------------------------------------- *)
(** *** constraints.py *)

Record ConstraintChecker : Type := {
  cc_room_poly : Geom G;
  doors : list Point;
  windows : list Point
}.

Definition create_furniture_polygon_wrapper (item : FurnitureItem)
           (x y : Q) (rot : Z) : Geom G :=
  create_furniture_polygon x y (width item) (depth item) rot.

Definition check_boundary (self : ConstraintChecker)
           (furniture_poly : Geom G) : Result bool :=
  check_containment (cc_room_poly self) furniture_poly.

Fixpoint check_overlap (furniture_poly : Geom G)
         (other_polys : list (Geom G)) : Result bool :=
  match other_polys with
  | [] => ret false
  | other :: rest =>
      hit <- check_intersection furniture_poly other ;;
      if hit then
        a <- calculate_overlap_area furniture_poly other ;;
        if Qltb 0.01 a then ret true
        else check_overlap furniture_poly rest
      else check_overlap furniture_poly rest
  end.

Definition check_hard_constraints (self : ConstraintChecker)
           (furniture_poly : Geom G) (other_polys : list (Geom G))
  : Result bool :=
  inside <- check_boundary self furniture_poly ;;
  if negb inside then ret false
  else
    clash <- check_overlap furniture_poly other_polys ;;
    if clash then ret false else ret true.

Definition get_nearest_wall_distance (self : ConstraintChecker)
           (furniture_poly : Geom G) : Result Q :=
  distance_to_wall (centroid G furniture_poly) (cc_room_poly self).

(* ------------------------------------------------------------------- *)
(** *** fitness.py *)

Record FitnessEvaluator : Type := {
  fe_room_poly : Geom G;
  fe_furniture_items : list FurnitureItem;
  constraints : ConstraintChecker;
  room_area : Q
}.

(** First loop of [calculate_fitness]: build the footprints and charge
    1000 for each one outside the room. *)
Definition boundary_pass (self : FitnessEvaluator) (layout : Layout)
  : Result (Q * list (Geom G)) :=
  for_each
    (fun (st : Q * list (Geom G)) (ix : nat * FurnitureItem) =>
       let (penalty, furniture_polys) := st in
       let (i, item) := ix in
       '(x, y, rot) <- index layout i ;;
       let poly := create_furniture_polygon_wrapper item x y rot in
       let furniture_polys := furniture_polys ++ [poly] in
       inside <- check_boundary (constraints self) poly ;;
       ret (if negb inside then penalty + 1000 else penalty,
            furniture_polys))
    (0, [])
    (enumerate (fe_furniture_items self)).

(** Second loop: every pair [i < j] with a positive overlap adds
    [overlap * 500]. *)
Definition overlap_pass (furniture_polys : list (Geom G)) (penalty : Q)
  : Result Q :=
  for_each
    (fun penalty i =>
       for_each
         (fun penalty j =>
            pi <- index furniture_polys i ;;
            pj <- index furniture_polys j ;;
            overlap <- calculate_overlap_area pi pj ;;
            ret (if Qltb 0 overlap then penalty + overlap * 500
                 else penalty))
         penalty
         (range (i + 1) (length furniture_polys)))
    penalty
    (range 0 (length furniture_polys)).

(** Third loop: 10 points for each footprint closer than 0.1 to a wall. *)
Definition alignment_pass (self : FitnessEvaluator)
           (furniture_polys : list (Geom G)) : Result Q :=
  for_each
    (fun alignment_score poly =>
       dist <- get_nearest_wall_distance (constraints self) poly ;;
       ret (if Qltb dist 0.1 then alignment_score + 10
            else alignment_score))
    0
    furniture_polys.

Definition calculate_fitness (self : FitnessEvaluator) (layout : Layout)
  : Result Q :=
  let score := 0 in
  '(penalty, furniture_polys) <- boundary_pass self layout ;;
  penalty <- overlap_pass furniture_polys penalty ;;
  if Qltb 0 penalty then ret (- penalty)
  else
    alignment_score <- alignment_pass self furniture_polys ;;
    ret (score + alignment_score).

(** [calculate_normalized_score] over the rationals.  The sum
    [50 + raw_fitness * 0.1] is exact here; rounded to binary64 it can be
    50.0 for a negative [raw_fitness] (see [Binary64] below). *)
Definition calculate_normalized_score (self : FitnessEvaluator)
           (raw_fitness : Q) : Q :=
  if Qltb raw_fitness 0 then
    py_max 0 (50 + raw_fitness * 0.1)
  else
    let max_score := (Z.of_nat (length (fe_furniture_items self)) * 10)%Z in
    if (max_score =? 0)%Z then 50
    else
      let percentage := 50 + (raw_fitness / inject_Z max_score) * 50 in
      py_min 100 percentage.

End Core.

(* ===================================================================== *)
(** ** fitness.py in binary64 arithmetic

    [calculate_normalized_score] as CPython computes it, on IEEE 754
    binary64 floats.  The definition above reads the same lines over the
    rationals; the two differ where an operation rounds. *)

Module Binary64.

#[local] Set Warnings "-inexact-float".
Local Open Scope float_scope.

(** [max(a, b)]: the first argument unless the second is greater. *)
Definition py_max (a b : float) : float := if a <? b then b else a.

(** [min(a, b)]: the first argument unless the second is smaller. *)
Definition py_min (a b : float) : float := if b <? a then b else a.

(** An int operand of a float operation (exact below 2^53). *)
Definition of_int (z : Z) : float := of_uint63 (Uint63.of_Z z).

Definition calculate_normalized_score (G : Shapely)
           (self : FitnessEvaluator G) (raw_fitness : float) : float :=
  if raw_fitness <? 0 then
    py_max 0 (50 + raw_fitness * 0.1)
  else
    let max_score := (Z.of_nat (length (fe_furniture_items self)) * 10)%Z in
    if (max_score =? 0)%Z then 50
    else
      let percentage := 50 + (raw_fitness / of_int max_score) * 50 in
      py_min 100 percentage.

(** The float nearest to -1e-20, a negative fitness. *)
Definition tiny_penalty : float := -1e-20.

End Binary64.

(* ===================================================================== *)
(** ** optimizer.py *)

(** [lst[i] = v]: IndexError when [i] is out of range. *)
Fixpoint list_set {A} (l : list A) (i : nat) (v : A) : Result (list A) :=
  match l, i with
  | [], _ => Raise IndexError
  | _ :: rest, O => Ok (v :: rest)
  | a :: rest, S i' => (rest' <- list_set rest i' v ;; ret (a :: rest'))%result
  end.

(** [sum(l)] *)
Definition py_sum (l : list Q) : Q := fold_left Qplus l 0.

(** [a / n] for a length [n]: ZeroDivisionError when [n = 0]. *)
Definition div_len (a : Q) (n : nat) : Result Q :=
  match n with
  | O => Raise ZeroDivisionError
  | _ => Ok (a / inject_Z (Z.of_nat n))
  end.

(** [max(l)]: ValueError on an empty list, the first maximal element
    otherwise. *)
Definition max_list (l : list Q) : Result Q :=
  match l with
  | [] => Raise ValueError
  | x :: rest => Ok (fold_left py_max rest x)
  end.

(** [l.index(v)]: position of the first element equal to [v]. *)
Fixpoint list_index (l : list Q) (v : Q) : Result nat :=
  match l with
  | [] => Raise ValueError
  | x :: rest =>
      if Qeq_bool x v then Ok O
      else (i <- list_index rest v ;; ret (S i))%result
  end.

(** A [for] loop in the random monad. *)
Fixpoint rand_for_each {S A} (body : S -> A -> random.M S) (s : S)
         (xs : list A) : random.M S :=
  match xs with
  | [] => random.m_ret s
  | x :: rest => (s' <- body s x ;; rand_for_each body s' rest)%rand
  end.

(** [float('-inf')] or a finite float. *)
Inductive Fitness : Type :=
| NegInf
| Fin (q : Q).

(** [a > best] *)
Definition exceeds (a : Q) (best : Fitness) : bool :=
  match best with
  | NegInf => true
  | Fin b => Qltb b a
  end.

(** The rotations a gene can take. *)
Definition ROTATIONS : list Z := [0; 90; 180; 270]%Z.

Section Optimizer.

Variable G : Shapely.

(** torch: the parameters of the network and its forward pass are a
    black box.  [forward p training features] is
    [model(tensor([features])).item()]. *)
Variable Params : Type.
Variable fresh_params : Params.
Variable forward : Params -> bool -> list Q -> Result Q.

Record InteriorFitnessModel : Type := {
  params : Params;
  training : bool
}.

(** What is found at ml/models/best_model.pth. *)
Inductive Artifact : Type :=
| NoFile                      (* os.path.exists is False *)
| Unloadable                  (* the file exists, loading it raises *)
| StateDict (p : Params).     (* the file holds a state dict *)

Definition os_path_exists (a : Artifact) : bool :=
  match a with NoFile => false | _ => true end.

(** [torch.load(model_path)] followed by the key check of
    [load_state_dict]: the state dict, or an exception. *)
Definition torch_load (a : Artifact) : Result Params :=
  match a with
  | StateDict p => Ok p
  | _ => Raise LoadError
  end.

Record GeneticOptimizer : Type := {
  room_poly : Geom G;
  furniture_items : list FurnitureItem;
  pop_size : nat;
  generations : nat;
  opt_constraints : ConstraintChecker G;
  evaluator : FitnessEvaluator G;
  min_x : Q;
  min_y : Q;
  max_x : Q;
  max_y : Q;
  ml_model : option InteriorFitnessModel
}.

(** [self.ml_model = m] *)
Definition set_ml_model (self : GeneticOptimizer)
           (m : option InteriorFitnessModel) : GeneticOptimizer :=
  {| room_poly := room_poly self;
     furniture_items := furniture_items self;
     pop_size := pop_size self;
     generations := generations self;
     opt_constraints := opt_constraints self;
     evaluator := evaluator self;
     min_x := min_x self; min_y := min_y self;
     max_x := max_x self; max_y := max_y self;
     ml_model := m |}.

(** The body of the [try] block of [__init__]: the object as the block
    left it, and whether the block raised. *)
Definition load_ml_model (self : GeneticOptimizer) (a : Artifact)
  : GeneticOptimizer * Result unit :=
  if os_path_exists a then
    (* self.ml_model = InteriorFitnessModel(input_size=7) *)
    let self :=
      set_ml_model self
        (Some {| params := fresh_params; training := true |}) in
    (* self.ml_model.load_state_dict(torch.load(...)) *)
    match torch_load a with
    | Raise e => (self, Raise e)
    | Ok sd =>
        let self :=
          set_ml_model self (Some {| params := sd; training := true |}) in
        (* self.ml_model.eval() *)
        let self :=
          set_ml_model self (Some {| params := sd; training := false |}) in
        (self, Ok tt)
    end
  else (self, Ok tt).

(** [GeneticOptimizer.__init__]; the [except Exception] clause only
    prints. *)
Definition init (room_poly : Geom G) (furniture_items : list FurnitureItem)
           (population_size generations : nat) (a : Artifact)
  : GeneticOptimizer :=
  let constraints :=
    {| cc_room_poly := room_poly; doors := []; windows := [] |} in
  let evaluator :=
    {| fe_room_poly := room_poly;
       fe_furniture_items := furniture_items;
       constraints := constraints;
       room_area := area G room_poly |} in
  let '(minx, miny, maxx, maxy) := bounds G room_poly in
  let self :=
    {| room_poly := room_poly;
       furniture_items := furniture_items;
       pop_size := population_size;
       generations := generations;
       opt_constraints := constraints;
       evaluator := evaluator;
       min_x := minx; min_y := miny; max_x := maxx; max_y := maxy;
       ml_model := None |} in
  fst (load_ml_model self a).

Local Open Scope rand_scope.

Definition create_individual (self : GeneticOptimizer) : random.M Layout :=
  rand_for_each
    (fun (layout : Layout) (item : FurnitureItem) =>
       x <- random.uniform (min_x self) (max_x self) ;;
       y <- random.uniform (min_y self) (max_y self) ;;
       rot <- (if match rotatable item with Some b => b | None => true end
               then random.choice ROTATIONS
               else ret 0%Z) ;;
       ret (layout ++ [(x, y, rot)]))
    []
    (furniture_items self).

Definition crossover (self : GeneticOptimizer) (parent1 parent2 : Layout)
  : random.M (Layout * Layout) :=
  point <- random.randint 1 (Z.of_nat (length (furniture_items self)) - 1) ;;
  let point := Z.to_nat point in
  let child1 := firstn point parent1 ++ skipn point parent2 in
  let child2 := firstn point parent2 ++ skipn point parent1 in
  ret (child1, child2).

Definition mutate_with (mutation_rate : Q) (individual : Layout)
  : random.M Layout :=
  rand_for_each
    (fun (individual : Layout) (i : nat) =>
       r <- random.random ;;
       if Qltb r mutation_rate then
         '(x, y, rot) <- random.lift (index individual i) ;;
         dx <- random.uniform (-0.5) 0.5 ;;
         let x := x + dx in
         dy <- random.uniform (-0.5) 0.5 ;;
         let y := y + dy in
         r' <- random.random ;;
         rot <- (if Qltb r' 0.5 then random.choice ROTATIONS else ret rot) ;;
         random.lift (list_set individual i (x, y, rot))
       else ret individual)
    individual
    (range 0 (length individual)).

(** [mutate(individual)] with the default [mutation_rate=0.1]. *)
Definition mutate (self : GeneticOptimizer) (individual : Layout)
  : random.M Layout :=
  mutate_with 0.1 individual.

(** The feature vector built inside [_get_ml_score]. *)
Definition ml_features (self : GeneticOptimizer) (individual : Layout)
  : Result (list Q) :=
  (let room_area := area G (room_poly self) / 50 in
   let aspect_ratio := 1 in
   let num_doors := 0.25 in
   let num_windows := 0.25 in
   let num_furniture :=
     inject_Z (Z.of_nat (length (furniture_items self))) / 20 in
   let xs := map (fun item : Placement => fst (fst item)) individual in
   let ys := map (fun item : Placement => snd (fst item)) individual in
   avg_x <- div_len (py_sum xs) (length xs) ;;
   avg_y <- div_len (py_sum ys) (length ys) ;;
   let width := max_x self - min_x self in
   let height := max_y self - min_y self in
   let norm_avg_x := if Qltb 0 width then avg_x / width else 0 in
   let norm_avg_y := if Qltb 0 height then avg_y / height else 0 in
   ret [room_area; aspect_ratio; num_doors; num_windows; num_furniture;
        norm_avg_x; norm_avg_y])%result.

Definition _get_ml_score (self : GeneticOptimizer) (individual : Layout)
  : Result Q :=
  (match ml_model self with
   | None => ret 0
   | Some model =>
       features <- ml_features self individual ;;
       score <- forward (params model) (training model) features ;;
       ret (score * 100)
   end)%result.

(** The score one individual gets in the evaluation loop of [optimize]. *)
Definition final_score (self : GeneticOptimizer) (ind : Layout)
  : Result Q :=
  (geo_score <- calculate_fitness (evaluator self) ind ;;
   match ml_model self with
   | Some _ =>
       ml_score <- _get_ml_score self ind ;;
       ret (geo_score * 0.7 + ml_score * 0.3)
   | None => ret geo_score
   end)%result.

(** [while len(new_population) < self.pop_size: ...] *)
Fixpoint fill_population (fuel : nat) (self : GeneticOptimizer)
         (population new_population : list Layout)
  : random.M (list Layout) :=
  if (length new_population <? pop_size self)%nat then
    match fuel with
    | O => random.raise OutOfFuel
    | S fuel' =>
        i1 <- random.randint 0 (Z.of_nat (pop_size self) - 1) ;;
        p1 <- random.lift (index population (Z.to_nat i1)) ;;
        i2 <- random.randint 0 (Z.of_nat (pop_size self) - 1) ;;
        p2 <- random.lift (index population (Z.to_nat i2)) ;;
        '(c1, c2) <- crossover self p1 p2 ;;
        c1 <- mutate self c1 ;;
        c2 <- mutate self c2 ;;
        fill_population fuel' self population (new_population ++ [c1; c2])
    end
  else ret new_population.

(** The selection / crossover / mutation / replacement part of one
    generation: the population of the next generation. *)
Definition next_population (self : GeneticOptimizer)
           (population : list Layout) : random.M (list Layout) :=
  new_population <- fill_population (pop_size self) self population [] ;;
  ret (firstn (pop_size self) new_population).

(** The loop state of [optimize]. *)
Record SearchState : Type := {
  population : list Layout;
  best_solution : option Layout;
  best_fitness : Fitness
}.

(** One iteration of [for gen in range(self.generations)]. *)
Definition generation (self : GeneticOptimizer) (st : SearchState)
  : random.M SearchState :=
  fitness_scores <-
    random.lift
      (for_each
         (fun scores ind =>
            (s <- final_score self ind ;; ret (scores ++ [s]))%result)
         [] (population st)) ;;
  max_fitness <- random.lift (max_list fitness_scores) ;;
  best <-
    (if exceeds max_fitness (best_fitness st) then
       i <- random.lift (list_index fitness_scores max_fitness) ;;
       sol <- random.lift (index (population st) i) ;;
       ret (Some sol, Fin max_fitness)
     else ret (best_solution st, best_fitness st)) ;;
  new_population <- next_population self (population st) ;;
  ret {| population := new_population;
         best_solution := fst best;
         best_fitness := snd best |}.

Fixpoint run_generations (self : GeneticOptimizer) (gens : nat)
         (st : SearchState) : random.M SearchState :=
  match gens with
  | O => ret st
  | S gens' =>
      st' <- generation self st ;;
      run_generations self gens' st'
  end.

(** [population = [self.create_individual() for _ in range(self.pop_size)]] *)
Definition initial_population (self : GeneticOptimizer)
  : random.M (list Layout) :=
  rand_for_each
    (fun (pop : list Layout) (_ : nat) =>
       ind <- create_individual self ;; ret (pop ++ [ind]))
    []
    (range 0 (pop_size self)).

(** The search up to the end of the generation loop. *)
Definition search (self : GeneticOptimizer) : random.M SearchState :=
  population <- initial_population self ;;
  run_generations self (generations self)
    {| population := population;
       best_solution := None;
       best_fitness := NegInf |}.

Definition optimize (self : GeneticOptimizer)
  : random.M (option Layout * Fitness) :=
  st <- search self ;;
  ret (best_solution st, best_fitness st).

End Optimizer.

(* ===================================================================== *)
(** ** A geometry backend for axis-aligned rectangles

    An instance of the [Shapely] interface in which every geometry is an
    axis-aligned box.  It is exact on the fragment the search works in when
    the room is a rectangle: footprints are rectangles turned by 0, 90, 180
    or 270 degrees.  [Polygon] takes the bounding box of its vertices, and
    [rotate] is only defined on quarter turns (any other angle leaves the
    box as it is).  No query raises. *)

Module Box.

Record t : Type := { xmin : Q; ymin : Q; xmax : Q; ymax : Q }.

Definition of_coords (coords : list Point) : t :=
  match coords with
  | [] => {| xmin := 0; ymin := 0; xmax := 0; ymax := 0 |}
  | (x, y) :: rest =>
      fold_left
        (fun b (p : Point) =>
           {| xmin := Qmin (xmin b) (fst p); ymin := Qmin (ymin b) (snd p);
              xmax := Qmax (xmax b) (fst p); ymax := Qmax (ymax b) (snd p) |})
        rest
        {| xmin := x; ymin := y; xmax := x; ymax := y |}
  end.

(** Counter-clockwise turn about the origin: [(x, y)] goes to
    [(-y, x)] at 90, [(-x, -y)] at 180, [(y, -x)] at 270. *)
Definition rotate (b : t) (angle : Z) : t :=
  let a := (angle mod 360)%Z in
  if (a =? 90)%Z then
    {| xmin := - ymax b; ymin := xmin b; xmax := - ymin b; ymax := xmax b |}
  else if (a =? 180)%Z then
    {| xmin := - xmax b; ymin := - ymax b;
       xmax := - xmin b; ymax := - ymin b |}
  else if (a =? 270)%Z then
    {| xmin := ymin b; ymin := - xmax b; xmax := ymax b; ymax := - xmin b |}
  else b.

Definition translate (b : t) (dx dy : Q) : t :=
  {| xmin := xmin b + dx; ymin := ymin b + dy;
     xmax := xmax b + dx; ymax := ymax b + dy |}.

Definition span_x (b : t) : Q := Qmax 0 (xmax b - xmin b).
Definition span_y (b : t) : Q := Qmax 0 (ymax b - ymin b).

Definition area (b : t) : Q := span_x b * span_y b.

(** [a] contains [b]: no point of [b] outside [a], and [b] has interior
    points. *)
Definition contains (a b : t) : bool :=
  Qle_bool (xmin a) (xmin b) && Qle_bool (xmax b) (xmax a) &&
  Qle_bool (ymin a) (ymin b) && Qle_bool (ymax b) (ymax a) &&
  Qltb (xmin b) (xmax b) && Qltb (ymin b) (ymax b).

(** The closed boxes share a point. *)
Definition intersects (a b : t) : bool :=
  Qle_bool (Qmax (xmin a) (xmin b)) (Qmin (xmax a) (xmax b)) &&
  Qle_bool (Qmax (ymin a) (ymin b)) (Qmin (ymax a) (ymax b)).

Definition intersection_area (a b : t) : Q :=
  Qmax 0 (Qmin (xmax a) (xmax b) - Qmax (xmin a) (xmin b)) *
  Qmax 0 (Qmin (ymax a) (ymax b) - Qmax (ymin a) (ymin b)).

Definition centroid (b : t) : Point :=
  ((xmin b + xmax b) / 2, (ymin b + ymax b) / 2).

(** Distance from [p] to the boundary of [b].  Inside the box it is the
    smallest gap to a side; beside one side it is the gap to that side;
    beyond a corner the true distance is a square root, and the larger of
    the two gaps (a lower bound) stands for it. *)
Definition boundary_distance (b : t) (p : Point) : Q :=
  let (px, py) := p in
  let gx := Qmax (xmin b - px) (px - xmax b) in
  let gy := Qmax (ymin b - py) (py - ymax b) in
  if Qle_bool gx 0 && Qle_bool gy 0
  then Qmin (- gx) (- gy)
  else Qmax gx gy.

End Box.

Definition BoxShapely : Shapely :=
  {| Geom := Box.t;
     Polygon := Box.of_coords;
     rotate := Box.rotate;
     translate := Box.translate;
     contains := fun a b => Ok (Box.contains a b);
     intersects := fun a b => Ok (Box.intersects a b);
     intersection_area := fun a b => Ok (Box.intersection_area a b);
     area := Box.area;
     bounds := fun b => (Box.xmin b, Box.ymin b, Box.xmax b, Box.ymax b);
     centroid := Box.centroid;
     boundary_distance := fun b p => Ok (Box.boundary_distance b p) |}.


(* ===================================================================== *)
(** ** Vocabulary of the properties *)

(** A backend whose queries always return. *)
Record never_raises (G : Shapely) : Prop := {
  contains_returns : forall a b, succeeds (contains G a b);
  intersects_returns : forall a b, succeeds (intersects G a b);
  intersection_area_returns : forall a b, succeeds (intersection_area G a b);
  boundary_distance_returns : forall a p, succeeds (boundary_distance G a p)
}.

(** Two results agree: the same exception, or equal numbers. *)
Definition same_result (r1 r2 : Result Q) : Prop :=
  match r1, r2 with
  | Ok a, Ok b => a == b
  | Raise e1, Raise e2 => e1 = e2
  | _, _ => False
  end.

(** What the overlap properties need from the library: the predicate and
    the overlay do not depend on the order of their operands, a geometry
    overlaid with itself keeps its area, a geometry that does not even
    intersect itself has no area, and overlay areas are not negative. *)
Record overlay_laws (G : Shapely) : Prop := {
  intersects_sym : forall a b, intersects G a b = intersects G b a;
  intersection_area_sym :
    forall a b, same_result (intersection_area G a b) (intersection_area G b a);
  intersection_area_self :
    forall a, intersects G a a = Ok true ->
              same_result (intersection_area G a a) (Ok (area G a));
  area_not_self_intersecting :
    forall a, intersects G a a = Ok false -> area G a == 0;
  intersection_area_nonneg :
    forall a b v, intersection_area G a b = Ok v -> 0 <= v
}.

(** The candidate invariant: one placement per item, and every item that
    is not rotatable sits at rotation 0. *)
Definition pinned (item : FurnitureItem) (p : Placement) : Prop :=
  rotatable item = Some false -> snd p = 0%Z.

Definition candidate_ok (items : list FurnitureItem) (c : Layout) : Prop :=
  length c = length items /\ Forall2 pinned items c.

(** Number of elements of [l] that satisfy [f], as a float. *)
Definition count {A} (f : A -> bool) (l : list A) : Q :=
  inject_Z (Z.of_nat (length (filter f l))).

Section FitnessSpec.

Variable G : Shapely.
Variable self : FitnessEvaluator G.

(** One footprint per (item, placement) pair. *)
Definition footprints (layout : Layout) : list (Geom G) :=
  map (fun ip : FurnitureItem * Placement =>
         let '(item, (x, y, rot)) := ip in
         create_furniture_polygon_wrapper G item x y rot)
      (combine (fe_furniture_items self) layout).

Definition outside_room (p : Geom G) : bool :=
  negb (value false (check_boundary (constraints self) p)).

Definition overlap (p q : Geom G) : Q :=
  value 0 (calculate_overlap_area G p q).

Definition near_wall (p : Geom G) : bool :=
  Qltb (value 0 (get_nearest_wall_distance (constraints self) p)) 0.1.

(** [overlap * 500] for each footprint of [rest] that overlaps [p]. *)
Fixpoint overlaps_with (p : Geom G) (rest : list (Geom G)) : Q :=
  match rest with
  | [] => 0
  | q :: rest' =>
      (if Qltb 0 (overlap p q) then overlap p q * 500 else 0)
      + overlaps_with p rest'
  end.

(** The overlap charge over all unordered pairs. *)
Fixpoint pair_penalty (polys : list (Geom G)) : Q :=
  match polys with
  | [] => 0
  | p :: rest => overlaps_with p rest + pair_penalty rest
  end.

Definition penalty_spec (layout : Layout) : Q :=
  1000 * count outside_room (footprints layout)
  + pair_penalty (footprints layout).

(** The fitness as the specification words it. *)
Definition fitness_spec (layout : Layout) : Q :=
  if Qltb 0 (penalty_spec layout) then - penalty_spec layout
  else 10 * count near_wall (footprints layout).

End FitnessSpec.

Section OffspringSpec.

Variable G : Shapely.
Variable Params : Type.

(** [c] is a child: a mutated half of a crossover of two members of
    [population]. *)
Definition offspring (self : GeneticOptimizer G Params)
           (population : list Layout) (c : Layout) : Prop :=
  exists p1 p2 c1 c2 g1 g2 g3 g4,
    In p1 population /\ In p2 population /\
    crossover self p1 p2 g1 = Ok ((c1, c2), g2) /\
    (mutate self c1 g3 = Ok (c, g4) \/ mutate self c2 g3 = Ok (c, g4)).




(** The loop invariant of [optimize]: the population has [pop_size]
    members, each with one placement per furniture item. *)
Definition well_formed (self : GeneticOptimizer G Params)
           (st : SearchState) : Prop :=
  length (population st) = pop_size self /\
  Forall (fun c => length c = length (furniture_items self)) (population st).

(** The feature vector as the specification words it: normalized room
    area, the room's aspect ratio, door count, window count, furniture
    count, normalized centroid of the placements. *)
Definition ml_features_spec (self : GeneticOptimizer G Params)
           (individual : Layout) : Result (list Q) :=
  (let room_area := area G (room_poly self) / 50 in
   let width := max_x self - min_x self in
   let height := max_y self - min_y self in
   let aspect_ratio := width / height in
   let num_doors :=
     inject_Z (Z.of_nat (length (doors (opt_constraints self)))) in
   let num_windows :=
     inject_Z (Z.of_nat (length (windows (opt_constraints self)))) in
   let num_furniture :=
     inject_Z (Z.of_nat (length (furniture_items self))) / 20 in
   let xs := map (fun item : Placement => fst (fst item)) individual in
   let ys := map (fun item : Placement => snd (fst item)) individual in
   avg_x <- div_len (py_sum xs) (length xs) ;;
   avg_y <- div_len (py_sum ys) (length ys) ;;
   ret [room_area; aspect_ratio; num_doors; num_windows; num_furniture;
        avg_x / width; avg_y / height])%result.

End OffspringSpec.

(* ===================================================================== *)
(** ** Concrete rooms, furniture and generators used in the examples *)

Module Demo.

(** The 4m x 4m room of test_optimizer.py. *)
Definition square_room : Geom BoxShapely :=
  Polygon BoxShapely [(0, 0); (4, 0); (4, 4); (0, 4)].

(** A 4m x 2m room. *)
Definition long_room : Geom BoxShapely :=
  Polygon BoxShapely [(0, 0); (4, 0); (4, 2); (0, 2)].

Definition item (w d : Q) (r : bool) : FurnitureItem :=
  {| width := w; depth := d; rotatable := Some r |}.

(** The furniture of test_optimizer.py: bed, wardrobe (not rotatable),
    desk. *)
Definition bedroom : list FurnitureItem :=
  [item 2 1.5 true; item 1.5 0.6 false; item 1.2 0.6 true].

(** Four items and two candidate layouts for them. *)
Definition studio : list FurnitureItem :=
  [item 2 1.5 true; item 1.5 0.6 false; item 1.2 0.6 true;
   item 0.5 0.5 true].
Definition parent_a : Layout :=
  [(1, 1, 0%Z); (2, 1, 0%Z); (3, 1, 90%Z); (1, 3, 180%Z)].
Definition parent_b : Layout :=
  [(3, 3, 90%Z); (2, 3, 0%Z); (1, 2, 270%Z); (3, 2, 0%Z)].

(** A stand-in network: its parameters are the function it computes. *)
Definition Net : Type := list Q -> Q.
Definition net_forward (p : Net) (training : bool) (features : list Q)
  : Result Q := Ok (p features).
Definition blank_net : Net := fun _ => 0.
(** A network that answers with the second feature. *)
Definition second_feature : Net := fun fs => nth 1 fs 0.

Definition optimizer (room : Geom BoxShapely) (items : list FurnitureItem)
           (population_size generations : nat)
  : GeneticOptimizer BoxShapely Net :=
  init BoxShapely blank_net room items population_size generations
       (NoFile Net).

(** An optimizer whose artifact holds the network [second_feature]. *)
Definition scored_optimizer (room : Geom BoxShapely)
           (items : list FurnitureItem)
  : GeneticOptimizer BoxShapely Net :=
  init BoxShapely blank_net room items 4 1 (StateDict second_feature).

(** A generator whose [k]-th draw has [unit = (k mod 10) / 10] and
    [bits = 7 * k]. *)
Definition tape7 : random.Rng :=
  {| random.tape := fun k =>
       {| random.unit := inject_Z (Z.of_nat (k mod 10)) / 10;
          random.bits := 7 * k |};
     random.cursor := 0 |}.

(** A generator whose every draw has [unit = u] and [bits = b]. *)
Definition constant_tape (u : Q) (b : nat) : random.Rng :=
  {| random.tape := fun _ => {| random.unit := u; random.bits := b |};
     random.cursor := 0 |}.

(** Two 1m x 1m items side by side, overlapping in a strip 0.005 wide. *)
Definition two_chairs : list FurnitureItem :=
  [item 1 1 false; item 1 1 false].
Definition grazing_layout : Layout :=
  [(1, 1, 0%Z); (1.995, 1, 0%Z)].





End Demo.

(* ===================================================================== *)
(** ** The rest of geometry.py and the request handler
       (api/endpoints/interior.py) *)

(** [create_room_polygon(coords)] *)
Definition create_room_polygon (G : Shapely) (coords : list Point) : Geom G :=
  Polygon G coords.

(** The integer nearest to [q], a tie going to the even one. *)
Definition round_half_even (q : Q) : Z :=
  let f := Qfloor q in
  let d := q - inject_Z f in
  if Qltb d (1 # 2) then f
  else if Qltb (1 # 2) d then (f + 1)%Z
  else if Z.even f then f else (f + 1)%Z.

(** [round(x, ndigits)] for [ndigits >= 0]. *)
Definition py_round (x : Q) (ndigits : nat) : Q :=
  let scale := inject_Z (10 ^ Z.of_nat ndigits) in
  inject_Z (round_half_even (x * scale)) / scale.

(** The pydantic model [FurnitureItem] of a request. *)
Record FurnitureItemModel : Type := {
  fi_id : String.string;
  fi_width : Q;
  fi_depth : Q;
  fi_height : Q;
  fi_rotatable : bool;
  fi_category : String.string
}.

(** [OptimizationRequest]; its [constraints] field is never read. *)
Record OptimizationRequest : Type := {
  req_room_polygon : list Point;
  req_furniture_items : list FurnitureItemModel
}.

(** One dict of [furniture_data]: the id, and the keys the optimizer
    reads. *)
Record FurnitureData : Type := {
  fd_id : String.string;
  fd_item : FurnitureItem
}.

(** One dict of the response's [layout]. *)
Record PlacedItem : Type := {
  out_id : String.string;
  out_x : Q;
  out_y : Q;
  out_rotation : Z
}.

Record OptimizationResponse : Type := {
  resp_fitness : Fitness;
  resp_score_percentage : Q;
  resp_layout : list PlacedItem
}.

(** What the [except Exception] clause of the handler catches: an exception
    of the optimizer, or the TypeError of iterating over [None]. *)
Inductive HandlerError : Type :=
| CoreError (e : Exn)
| TypeError.

(** The handler returns a response or raises [HTTPException(500)]. *)
Inductive HttpResult : Type :=
| Http200 (r : OptimizationResponse)
| Http500 (detail : HandlerError).

Section Endpoint.

Variable G : Shapely.
Variable Params : Type.
Variable fresh_params : Params.
Variable forward : Params -> bool -> list Q -> Result Q.

(** [furniture_data] of the handler. *)
Definition furniture_data_of (items : list FurnitureItemModel)
  : list FurnitureData :=
  map (fun item =>
         {| fd_id := fi_id item;
            fd_item := {| width := fi_width item;
                          depth := fi_depth item;
                          rotatable := Some (fi_rotatable item) |} |})
      items.

(** [calculate_normalized_score] on the fitness [optimize] returns;
    [float('-inf')] takes the first branch and is clamped to 0.0. *)
Definition normalized_fitness (evaluator : FitnessEvaluator G)
           (best_fitness : Fitness) : Q :=
  match best_fitness with
  | Fin raw => calculate_normalized_score evaluator raw
  | NegInf => 0
  end.

(** The loop that builds [formatted_layout]. *)
Definition format_layout (furniture_data : list FurnitureData)
           (best_layout : Layout) : Result (list PlacedItem) :=
  for_each
    (fun (formatted_layout : list PlacedItem) (ip : nat * Placement) =>
       let '(i, (x, y, rot)) := ip in
       (item <- index furniture_data i ;;
        ret (formatted_layout
             ++ [ {| out_id := fd_id item;
                     out_x := py_round x 2;
                     out_y := py_round y 2;
                     out_rotation := rot |} ]))%result)
    []
    (enumerate best_layout).

(** [optimize_interior(request)], given the random generator and the model
    artifact the process finds. *)
Definition optimize_interior (request : OptimizationRequest)
           (a : Artifact Params) (g : random.Rng) : HttpResult :=
  let room_poly := Polygon G (req_room_polygon request) in
  let furniture_data := furniture_data_of (req_furniture_items request) in
  let optimizer :=
    init G fresh_params room_poly (map fd_item furniture_data) 100 150 a in
  match optimize forward optimizer g with
  | Raise e => Http500 (CoreError e)
  | Ok (best_layout, best_fitness, _) =>
      let score_pct := normalized_fitness (evaluator optimizer) best_fitness in
      match best_layout with
      | None => Http500 TypeError
      | Some best_layout =>
          match format_layout furniture_data best_layout with
          | Raise e => Http500 (CoreError e)
          | Ok formatted_layout =>
              Http200 {| resp_fitness := best_fitness;
                         resp_score_percentage := py_round score_pct 1;
                         resp_layout := formatted_layout |}
          end
      end
  end.

End Endpoint.

(* ===================================================================== *)
(** ** Vocabulary of the further properties *)

(** Every draw of the generator gives [random()] a value of [0, 1). *)
Definition unit_draws (g : random.Rng) : Prop :=
  forall k, 0 <= random.unit (random.tape g k) /\
            random.unit (random.tape g k) < 1.

(** The generator after [k] more draws. *)
Definition skip_draws (k : nat) (g : random.Rng) : random.Rng :=
  {| random.tape := random.tape g; random.cursor := random.cursor g + k |}.

(** A placement whose rotation is one of 0, 90, 180, 270. *)
Definition quarter_turn (p : Placement) : Prop := In (snd p) ROTATIONS.

(** [p'] is [p] moved by at most 0.5 along each axis, with the same
    rotation or a quarter turn. *)
Definition nudged (p p' : Placement) : Prop :=
  fst (fst p) - 0.5 <= fst (fst p') <= fst (fst p) + 0.5 /\
  snd (fst p) - 0.5 <= snd (fst p') <= snd (fst p) + 0.5 /\
  (snd p' = snd p \/ In (snd p') ROTATIONS).

(** The order of fitness values, [float('-inf')] below every float. *)
Definition fitness_le (a b : Fitness) : Prop :=
  match a, b with
  | NegInf, _ => True
  | Fin x, Fin y => x <= y
  | Fin _, NegInf => False
  end.

Section FeasibilitySpec.

Variable G : Shapely.
Variable Params : Type.

(** The position lies in the bounding box of the room. *)
Definition in_bounding_box (self : GeneticOptimizer G Params)
           (p : Placement) : Prop :=
  min_x self <= fst (fst p) <= max_x self /\
  min_y self <= snd (fst p) <= max_y self.

(** Every footprint is contained in the room and no two of them have a
    positive overlap area. *)
Definition feasible (self : FitnessEvaluator G) (layout : Layout) : Prop :=
  Forall (fun p => outside_room self p = false) (footprints self layout) /\
  ForallOrdPairs (fun p q => overlap G p q <= 0) (footprints self layout).

(** The best pair of a search state is the score of its layout. *)
Definition best_consistent
           (forward : Params -> bool -> list Q -> Result Q)
           (self : GeneticOptimizer G Params) (st : SearchState) : Prop :=
  match best_solution st, best_fitness st with
  | None, NegInf => True
  | Some sol, Fin v =>
      length sol = length (furniture_items self) /\
      exists s, final_score forward self sol = Ok s /\ s == v
  | _, _ => False
  end.

End FeasibilitySpec.


(** Requests for the handler. *)
Module Requests.

Import String.
Local Open Scope string_scope.

Definition furniture (id : string) (w d : Q) (r : bool) : FurnitureItemModel :=
  {| fi_id := id; fi_width := w; fi_depth := d; fi_height := 0;
     fi_rotatable := r; fi_category := "misc" |}.

Definition square : list Point := [(0, 0); (4, 0); (4, 4); (0, 4)].

(** The room and furniture of test_optimizer.py. *)
Definition bedroom : OptimizationRequest :=
  {| req_room_polygon := square;
     req_furniture_items :=
       [furniture "bed" 2 1.5 true; furniture "wardrobe" 1.5 0.6 false;
        furniture "desk" 1.2 0.6 true] |}.

Definition bedroom_ids : list string := ["bed"; "wardrobe"; "desk"].

(** A room with a bed only. *)
Definition bed_only : OptimizationRequest :=
  {| req_room_polygon := square;
     req_furniture_items := [furniture "bed" 2 1.5 true] |}.

End Requests.
(* ===================================================================== *)
(** ** Basic facts *)

Lemma Qltb_lt (a b : Q) : Qltb a b = true <-> a < b.
Proof.
  unfold Qltb. rewrite negb_true_iff.
  split; intro H.
  - apply Qnot_le_lt. intro Hle. apply Qle_bool_iff in Hle. congruence.
  - destruct (Qle_bool b a) eqn:E; [|reflexivity].
    apply Qle_bool_iff in E. apply Qle_not_lt in E. contradiction.
Qed.

Lemma Qltb_ge (a b : Q) : Qltb a b = false <-> b <= a.
Proof.
  unfold Qltb. rewrite negb_false_iff. apply Qle_bool_iff.
Qed.

Lemma Qltb_compat (a a' b b' : Q) : a == a' -> b == b' -> Qltb a b = Qltb a' b'.
Proof.
  intros Ha Hb.
  destruct (Qltb a b) eqn:E1, (Qltb a' b') eqn:E2; try reflexivity.
  - apply Qltb_lt in E1. apply Qltb_ge in E2. lra.
  - apply Qltb_ge in E1. apply Qltb_lt in E2. lra.
Qed.

Lemma py_max_spec (a b : Q) :
  (a < b /\ py_max a b = b) \/ (b <= a /\ py_max a b = a).
Proof.
  unfold py_max. destruct (Qltb a b) eqn:E.
  - left. split; [now apply Qltb_lt | reflexivity].
  - right. split; [now apply Qltb_ge | reflexivity].
Qed.

Lemma py_min_spec (a b : Q) :
  (b < a /\ py_min a b = b) \/ (a <= b /\ py_min a b = a).
Proof.
  unfold py_min. destruct (Qltb b a) eqn:E.
  - left. split; [now apply Qltb_lt | reflexivity].
  - right. split; [now apply Qltb_ge | reflexivity].
Qed.

Lemma py_max_Qmax (a b : Q) : py_max a b == Qmax a b.
Proof.
  destruct (py_max_spec a b) as [[H ->]|[H ->]];
    destruct (Q.max_spec a b) as [[H' ->]|[H' ->]]; lra.
Qed.

Lemma py_min_Qmin (a b : Q) : py_min a b == Qmin a b.
Proof.
  destruct (py_min_spec a b) as [[H ->]|[H ->]];
    destruct (Q.min_spec a b) as [[H' ->]|[H' ->]]; lra.
Qed.

Lemma inject_Z_of_nat_pos (n : nat) : n <> 0%nat -> 0 < inject_Z (Z.of_nat n).
Proof.
  intro H. change 0 with (inject_Z 0). rewrite <- Zlt_Qlt. lia.
Qed.

Lemma inject_Z_of_nat_nonneg (n : nat) : 0 <= inject_Z (Z.of_nat n).
Proof.
  change 0 with (inject_Z 0). rewrite <- Zle_Qle. lia.
Qed.

(* ===================================================================== *)
(** ** Score normalization *)

Section Normalization.

Variable G : Shapely.
Variable self : FitnessEvaluator G.

Let n := length (fe_furniture_items self).

Lemma normalized_negative (raw : Q) :
  raw < 0 ->
  calculate_normalized_score self raw = py_max 0 (50 + raw * 0.1).
Proof.
  intro H. unfold calculate_normalized_score.
  apply Qltb_lt in H. now rewrite H.
Qed.

Lemma normalized_no_items (raw : Q) :
  0 <= raw -> n = 0%nat -> calculate_normalized_score self raw = 50.
Proof.
  intros H Hn. unfold calculate_normalized_score.
  apply Qltb_ge in H. rewrite H. fold n. rewrite Hn. reflexivity.
Qed.

Lemma normalized_feasible (raw : Q) :
  0 <= raw -> n <> 0%nat ->
  calculate_normalized_score self raw
  = py_min 100 (50 + (raw / inject_Z (Z.of_nat n * 10)) * 50).
Proof.
  intros H Hn. unfold calculate_normalized_score.
  apply Qltb_ge in H. rewrite H. fold n.
  destruct (Z.eqb_spec (Z.of_nat n * 10) 0) as [E|E]; [lia|reflexivity].
Qed.

Lemma max_score_pos : n <> 0%nat -> 0 < inject_Z (Z.of_nat n * 10).
Proof.
  intro Hn. change 0 with (inject_Z 0). rewrite <- Zlt_Qlt. lia.
Qed.

Lemma normalized_range (raw : Q) :
  0 <= calculate_normalized_score self raw <= 100.
Proof.
  destruct (Qlt_le_dec raw 0) as [Hneg|Hpos].
  - rewrite normalized_negative by assumption.
    destruct (py_max_spec 0 (50 + raw * 0.1)) as [[H ->]|[H ->]]; lra.
  - destruct (Nat.eq_dec n 0) as [Hn|Hn].
    + rewrite normalized_no_items by assumption. lra.
    + rewrite normalized_feasible by assumption.
      pose proof (max_score_pos Hn) as Hd.
      assert (0 <= raw / inject_Z (Z.of_nat n * 10)) as Hq.
      { apply Qle_shift_div_l; [assumption | lra]. }
      destruct (py_min_spec 100 (50 + raw / inject_Z (Z.of_nat n * 10) * 50))
        as [[H ->]|[H ->]]; lra.
Qed.

End Normalization.

(** In binary64 arithmetic the three boundary values of the normalization
    are met exactly, here for every furniture count from 1 to 1000:
    normalize(0, n) == 50.0, normalize(n * 10, n) == 100.0 and
    normalize(-500, n) == 0.0. *)
Lemma binary64_boundary_values (G : Shapely) (self : FitnessEvaluator G) :
  (1 <= length (fe_furniture_items self) <= 1000)%nat ->
  (Binary64.calculate_normalized_score self 0 =? 50)%float = true /\
  (Binary64.calculate_normalized_score self
     (Binary64.of_int (Z.of_nat (length (fe_furniture_items self)) * 10))
   =? 100)%float = true /\
  (Binary64.calculate_normalized_score self (-500) =? 0)%float = true.
Proof.
  intro Hn.
  set (n := length (fe_furniture_items self)) in *.
  assert (Hall :
            forallb
              (fun n =>
                 let m := (Z.of_nat n * 10)%Z in
                 PrimFloat.eqb
                   (Binary64.py_min 100
                      (50 + (0 / Binary64.of_int m) * 50))%float 50%float
                 && PrimFloat.eqb
                      (Binary64.py_min 100
                         (50 + (Binary64.of_int m / Binary64.of_int m) * 50))%float
                      100%float
                 && negb (Binary64.of_int m <? 0)%float)
              (seq 1 1000) = true) by (vm_compute; reflexivity).
  rewrite forallb_forall in Hall.
  assert (Hin : In n (seq 1 1000)) by (apply in_seq; lia).
  specialize (Hall n Hin). cbv zeta in Hall.
  apply andb_true_iff in Hall. destruct Hall as [Hall Hpos].
  apply andb_true_iff in Hall. destruct Hall as [H0 H1].
  apply negb_true_iff in Hpos.
  assert (Hnz : (Z.of_nat n * 10 =? 0)%Z = false)
    by (apply Z.eqb_neq; lia).
  unfold Binary64.calculate_normalized_score. fold n. rewrite Hnz, Hpos.
  split; [|split].
  - change (0 <? 0)%float with false. cbv iota. exact H0.
  - exact H1.
  - reflexivity.
Qed.

(** C3.  calculate_normalized_score: a negative raw score maps to
    max(0, 50 + raw * 0.1), which is at most 50 (in binary64 the rounded
    sum is 50.0 itself for a tiny negative score); a non-negative one maps
    to 50 when there is no furniture and to
    min(100, 50 + raw / (n * 10) * 50) otherwise; normalize(0, n) = 50 and
    normalize(n * 10, n) = 100 for n > 0, normalize(-500, n) = 0; the
    result is always within [0, 100].  The three boundary values are also
    what the binary64 computation gives (for up to 1000 items). *)
Theorem calculate_normalized_score_spec :
  forall (G : Shapely) (self : FitnessEvaluator G) (raw : Q),
    (raw < 0 ->
       calculate_normalized_score self raw == Qmax 0 (50 + raw * 0.1) /\
       calculate_normalized_score self raw <= 50) /\
    (0 <= raw -> length (fe_furniture_items self) = 0%nat ->
       calculate_normalized_score self raw == 50) /\
    (0 <= raw -> length (fe_furniture_items self) <> 0%nat ->
       calculate_normalized_score self raw
       == Qmin 100
            (50 + (raw / (inject_Z (Z.of_nat (length (fe_furniture_items self)))
                          * 10)) * 50)) /\
    (length (fe_furniture_items self) <> 0%nat ->
       calculate_normalized_score self 0 == 50) /\
    calculate_normalized_score self (-500) == 0 /\
    (length (fe_furniture_items self) <> 0%nat ->
       calculate_normalized_score self
         (inject_Z (Z.of_nat (length (fe_furniture_items self))) * 10)
       == 100) /\
    0 <= calculate_normalized_score self raw <= 100 /\
    ((1 <= length (fe_furniture_items self) <= 1000)%nat ->
       (Binary64.calculate_normalized_score self 0 =? 50)%float = true /\
       (Binary64.calculate_normalized_score self
          (Binary64.of_int
             (Z.of_nat (length (fe_furniture_items self)) * 10))
        =? 100)%float = true) /\
    (Binary64.calculate_normalized_score self (-500) =? 0)%float = true.
Proof.
  intros G self raw.
  set (n := length (fe_furniture_items self)).
  assert (Hinj : inject_Z (Z.of_nat n * 10) == inject_Z (Z.of_nat n) * 10).
  { rewrite inject_Z_mult. reflexivity. }
  repeat apply conj.
  - intro H. rewrite normalized_negative by assumption. split.
    + rewrite py_max_Qmax. reflexivity.
    + destruct (py_max_spec 0 (50 + raw * 0.1)) as [[H' ->]|[H' ->]]; lra.
  - intros H Hn. now rewrite normalized_no_items.
  - intros H Hn. rewrite normalized_feasible by assumption. fold n.
    rewrite py_min_Qmin, Hinj. reflexivity.
  - intro Hn. rewrite normalized_feasible by (assumption || lra). fold n.
    pose proof (max_score_pos self Hn) as Hd. fold n in Hd.
    destruct (py_min_spec 100 (50 + 0 / inject_Z (Z.of_nat n * 10) * 50))
      as [[H ->]|[H ->]].
    + unfold Qdiv. ring.
    + exfalso.
      assert (Hz : 0 / inject_Z (Z.of_nat n * 10) == 0) by (unfold Qdiv; ring).
      rewrite Hz in H. lra.
  - rewrite normalized_negative by lra. reflexivity.
  - intro Hn.
    pose proof (max_score_pos self Hn) as Hd. fold n in Hd.
    pose proof (inject_Z_of_nat_nonneg n) as Hnn.
    rewrite normalized_feasible by (assumption || lra). fold n.
    assert (Hone : inject_Z (Z.of_nat n) * 10 / inject_Z (Z.of_nat n * 10) == 1).
    { rewrite Hinj in Hd |- *. field. intro E. rewrite E in Hd. lra. }
    destruct (py_min_spec 100
               (50 + inject_Z (Z.of_nat n) * 10 / inject_Z (Z.of_nat n * 10) * 50))
      as [[H ->]|[H ->]].
    + rewrite Hone. reflexivity.
    + reflexivity.
  - apply normalized_range.
  - apply normalized_range.
  - intro Hn.
    destruct (binary64_boundary_values self Hn) as (H0 & H100 & _).
    split; assumption.
  - reflexivity.
Qed.

Lemma calculate_normalized_score_spec_witness :
  calculate_normalized_score
    (evaluator (Demo.optimizer Demo.square_room Demo.bedroom 4 1)) (-100) <= 50
  /\ calculate_normalized_score
       (evaluator (Demo.optimizer Demo.square_room Demo.bedroom 4 1)) 15 == 75.
Proof.
  destruct (calculate_normalized_score_spec
              (evaluator (Demo.optimizer Demo.square_room Demo.bedroom 4 1))
              (-100)) as (Hneg & _).
  destruct (calculate_normalized_score_spec
              (evaluator (Demo.optimizer Demo.square_room Demo.bedroom 4 1))
              15) as (_ & _ & Hpos & _).
  split.
  - apply Hneg. reflexivity.
  - rewrite Hpos; [reflexivity | discriminate | discriminate].
Defined.

(** A negative raw fitness whose percentage is not below 50: in binary64
    -1e-20 * 0.1 is absorbed by the sum, and 50.0 + (-1e-21) is 50.0. *)
Lemma tiny_penalty_scores_50 :
  (Binary64.tiny_penalty <? 0)%float = true /\
  Binary64.calculate_normalized_score
    (evaluator (Demo.optimizer Demo.square_room Demo.bedroom 4 1))
    Binary64.tiny_penalty = 50%float /\
  (Binary64.calculate_normalized_score
     (evaluator (Demo.optimizer Demo.square_room Demo.bedroom 4 1))
     Binary64.tiny_penalty <? 50)%float = false.
Proof.
  repeat split; reflexivity.
Qed.

(* ===================================================================== *)
(** ** The random monad *)

Lemma m_bind_ok {A B} (c : random.M A) (k : A -> random.M B) g a g' :
  c g = Ok (a, g') -> random.m_bind c k g = k a g'.
Proof. intro H. unfold random.m_bind. now rewrite H. Qed.

Lemma m_bind_raise {A B} (c : random.M A) (k : A -> random.M B) g e :
  c g = Raise e -> random.m_bind c k g = Raise e.
Proof. intro H. unfold random.m_bind. now rewrite H. Qed.

Lemma lift_ok {A} (r : Result A) a g :
  r = Ok a -> random.lift r g = Ok (a, g).
Proof. intros ->. reflexivity. Qed.

Lemma random_returns g :
  random.random g = Ok (random.unit (fst (random.next g)), snd (random.next g)).
Proof. reflexivity. Qed.

Lemma uniform_returns a b g :
  exists v, random.uniform a b g = Ok (v, snd (random.next g)).
Proof. eexists. reflexivity. Qed.

Lemma randint_in_range (a b : Z) g :
  (a <= b)%Z ->
  exists k, (a <= k <= b)%Z /\
            random.randint a b g = Ok (k, snd (random.next g)).
Proof.
  intro H. unfold random.randint.
  destruct (Z.ltb_spec 0 (b + 1 - a)) as [Hw|Hw]; [|lia].
  unfold random.m_bind, random.randbelow, random.m_ret. cbn.
  eexists. split; [|reflexivity].
  assert (Hpos : Z.to_nat (b + 1 - a) <> 0%nat) by lia.
  pose proof (Nat.mod_upper_bound
                (random.bits (random.tape g (random.cursor g))) _ Hpos).
  lia.
Qed.

Lemma randint_empty (a b : Z) g :
  (b < a)%Z -> random.randint a b g = Raise ValueError.
Proof.
  intro H. unfold random.randint.
  destruct (Z.ltb_spec 0 (b + 1 - a)) as [Hw|Hw]; [lia|reflexivity].
Qed.

(** Every value of the range is drawn by some generator. *)
Lemma randint_onto (a b k : Z) :
  (a <= k <= b)%Z ->
  exists g g', random.randint a b g = Ok (k, g').
Proof.
  intro H.
  exists (Demo.constant_tape 0 (Z.to_nat (k - a))). eexists.
  unfold random.randint.
  destruct (Z.ltb_spec 0 (b + 1 - a)) as [Hw|Hw]; [|lia].
  unfold random.m_bind, random.randbelow, random.m_ret. cbn.
  rewrite Nat.mod_small by lia.
  replace (a + Z.of_nat (Z.to_nat (k - a)))%Z with k by lia.
  reflexivity.
Qed.

Lemma choice_returns {A} (seq : list A) g :
  seq <> [] ->
  exists a, In a seq /\ random.choice seq g = Ok (a, snd (random.next g)).
Proof.
  intro Hne. destruct seq as [|x rest]; [congruence|].
  unfold random.choice, random.m_bind, random.randbelow.
  cbv beta iota delta [random.next fst snd].
  set (i := Nat.modulo _ _).
  assert (Hi : (i < length (x :: rest))%nat).
  { apply Nat.mod_upper_bound. discriminate. }
  destruct (nth_error (x :: rest) i) as [a|] eqn:E.
  - exists a. split; [exact (nth_error_In _ _ E) | reflexivity].
  - apply nth_error_None in E. lia.
Qed.

Lemma index_lt {A} (l : list A) i :
  (i < length l)%nat -> exists a, index l i = Ok a /\ In a l.
Proof.
  intro H. unfold index.
  destruct (nth_error l i) as [a|] eqn:E.
  - exists a. split; [reflexivity | eapply nth_error_In; eassumption].
  - apply nth_error_None in E. lia.
Qed.

Lemma list_set_lt {A} (l : list A) i v :
  (i < length l)%nat ->
  exists l', list_set l i v = Ok l' /\ length l' = length l.
Proof.
  revert i. induction l as [|a l IH]; intros i H; cbn in H; [lia|].
  destruct i as [|i]; cbn.
  - eexists. split; reflexivity.
  - destruct (IH i) as (l' & -> & Hlen); [lia|].
    cbn. eexists. split; [reflexivity|]. cbn. now rewrite Hlen.
Qed.

(** A loop that appends one element per iteration. *)
Lemma rand_for_each_append {A B} (body : list B -> A -> random.M (list B))
      (P : A -> B -> Prop) :
  (forall acc a g, exists b g', body acc a g = Ok (acc ++ [b], g') /\ P a b) ->
  forall xs acc g,
  exists new g',
    rand_for_each body acc xs g = Ok (acc ++ new, g') /\ Forall2 P xs new.
Proof.
  intros Hbody xs. induction xs as [|a xs IH]; intros acc g; cbn [rand_for_each].
  - exists [], g. rewrite app_nil_r. split; [reflexivity | constructor].
  - destruct (Hbody acc a g) as (b & g1 & Hb & HP).
    rewrite (m_bind_ok _ _ _ Hb).
    destruct (IH (acc ++ [b]) g1) as (new & g2 & Hrest & HF).
    exists (b :: new), g2. rewrite Hrest, <- app_assoc. cbn.
    split; [reflexivity | now constructor].
Qed.

(** A loop whose body keeps an invariant of the state. *)
Lemma rand_for_each_invariant {S A} (body : S -> A -> random.M S)
      (I : S -> Prop) (xs : list A) :
  (forall s a g, In a xs -> I s ->
                 exists s' g', body s a g = Ok (s', g') /\ I s') ->
  forall s g, I s ->
  exists s' g', rand_for_each body s xs g = Ok (s', g') /\ I s'.
Proof.
  induction xs as [|a xs IH]; intros Hbody s g Hs; cbn [rand_for_each].
  - exists s, g. split; [reflexivity | assumption].
  - destruct (Hbody s a g) as (s1 & g1 & Hb & Hs1); [now left | assumption |].
    rewrite (m_bind_ok _ _ _ Hb).
    apply IH; [|assumption].
    intros s0 a0 g0 Hin. apply Hbody. now right.
Qed.

Lemma Forall2_firstn {A B} (P : A -> B -> Prop) (k : nat) :
  forall l1 l2, Forall2 P l1 l2 -> Forall2 P (firstn k l1) (firstn k l2).
Proof.
  induction k as [|k IH]; intros l1 l2 H; cbn; [constructor|].
  destruct H; constructor; auto.
Qed.

Lemma Forall2_skipn {A B} (P : A -> B -> Prop) (k : nat) :
  forall l1 l2, Forall2 P l1 l2 -> Forall2 P (skipn k l1) (skipn k l2).
Proof.
  induction k as [|k IH]; intros l1 l2 H; cbn; [assumption|].
  destruct H; [constructor | auto].
Qed.

Lemma Forall_firstn {A} (P : A -> Prop) (k : nat) :
  forall l, Forall P l -> Forall P (firstn k l).
Proof.
  induction k as [|k IH]; intros l H; cbn; [constructor|].
  destruct H; constructor; auto.
Qed.

(* ===================================================================== *)
(** ** Candidates: creation, crossover, mutation *)

Section Candidates.

Variable G : Shapely.
Variable Params : Type.
Variable self : GeneticOptimizer G Params.

Let items := furniture_items self.

Lemma create_individual_returns g :
  exists c g', create_individual self g = Ok (c, g') /\ candidate_ok items c.
Proof.
  unfold create_individual.
  edestruct (@rand_for_each_append FurnitureItem Placement) with (P := pinned)
    as (new & g' & Hrun & HF); [|rewrite Hrun].
  - intros acc item g0.
    destruct (uniform_returns (min_x self) (max_x self) g0) as (x & Hx).
    rewrite (m_bind_ok _ _ _ Hx).
    destruct (uniform_returns (min_y self) (max_y self)
                (snd (random.next g0))) as (y & Hy).
    rewrite (m_bind_ok _ _ _ Hy).
    destruct (@choice_returns _ ROTATIONS
                (snd (random.next (snd (random.next g0)))))
      as (r & _ & Hr); [discriminate|].
    destruct (rotatable item) as [[|]|] eqn:Hrot.
    + rewrite (m_bind_ok _ _ _ Hr).
      eexists _, _. split; [reflexivity|].
      unfold pinned. rewrite Hrot. discriminate.
    + eexists _, _. split; [reflexivity|]. intros _. reflexivity.
    + rewrite (m_bind_ok _ _ _ Hr).
      eexists _, _. split; [reflexivity|].
      unfold pinned. rewrite Hrot. discriminate.
  - exists new, g'. split; [reflexivity|]. split; [|exact HF].
    symmetry. eapply Forall2_length. exact HF.
Qed.

(** The children for a given cut index. *)
Lemma crossover_cut (parent1 parent2 : Layout) (point : Z) g g' :
  random.randint 1 (Z.of_nat (length items) - 1) g = Ok (point, g') ->
  crossover self parent1 parent2 g
  = Ok ((firstn (Z.to_nat point) parent1 ++ skipn (Z.to_nat point) parent2,
         firstn (Z.to_nat point) parent2 ++ skipn (Z.to_nat point) parent1),
        g').
Proof.
  intro H. unfold crossover. fold items.
  rewrite (m_bind_ok _ _ _ H). reflexivity.
Qed.

Lemma crossover_returns (parent1 parent2 : Layout) g :
  (2 <= length items)%nat ->
  exists (point : nat) g',
    (1 <= point <= length items - 1)%nat /\
    random.randint 1 (Z.of_nat (length items) - 1) g
    = Ok (Z.of_nat point, g') /\
    crossover self parent1 parent2 g
    = Ok ((firstn point parent1 ++ skipn point parent2,
           firstn point parent2 ++ skipn point parent1), g').
Proof.
  intro Hn.
  destruct (@randint_in_range 1 (Z.of_nat (length items) - 1) g)
    as (k & Hk & Hdraw); [lia|].
  exists (Z.to_nat k), (snd (random.next g)).
  rewrite Z2Nat.id by lia.
  split; [lia|]. split; [assumption|].
  now apply crossover_cut.
Qed.

(** With a single furniture item the cut range [1, 0] is empty. *)
Lemma crossover_single_item (parent1 parent2 : Layout) g :
  length items = 1%nat ->
  crossover self parent1 parent2 g = Raise ValueError.
Proof.
  intro H. unfold crossover. fold items. rewrite H.
  apply m_bind_raise. apply randint_empty. lia.
Qed.

Lemma cut_length {A} (point n : nat) (l1 l2 : list A) :
  length l1 = n -> length l2 = n ->
  length (firstn point l1 ++ skipn point l2) = n.
Proof.
  intros H1 H2. rewrite length_app, length_firstn, length_skipn. lia.
Qed.

Lemma cut_candidate_ok (point : nat) (c1 c2 : Layout) :
  candidate_ok items c1 -> candidate_ok items c2 ->
  candidate_ok items (firstn point c1 ++ skipn point c2).
Proof.
  intros [L1 F1] [L2 F2]. split.
  - now apply cut_length.
  - rewrite <- (firstn_skipn point items).
    apply Forall2_app; [now apply Forall2_firstn | now apply Forall2_skipn].
Qed.

Lemma mutate_with_returns (rate : Q) (individual : Layout) g :
  exists individual' g',
    mutate_with rate individual g = Ok (individual', g') /\
    length individual' = length individual.
Proof.
  unfold mutate_with.
  apply rand_for_each_invariant
    with (I := fun s : Layout => length s = length individual);
    [|reflexivity].
  intros s i g0 Hin Hs.
  apply in_seq in Hin.
  rewrite (m_bind_ok _ _ _ (random_returns g0)).
  destruct (Qltb _ rate).
  - destruct (@index_lt _ s i) as ([[x y] rot] & Hix & _); [lia|].
    rewrite (m_bind_ok _ _ _ (lift_ok _ Hix)).
    set (g1 := snd (random.next g0)).
    destruct (uniform_returns (-0.5) 0.5 g1) as (dx & Hdx).
    rewrite (m_bind_ok _ _ _ Hdx).
    set (g2 := snd (random.next g1)).
    destruct (uniform_returns (-0.5) 0.5 g2) as (dy & Hdy).
    rewrite (m_bind_ok _ _ _ Hdy).
    set (g3 := snd (random.next g2)).
    rewrite (m_bind_ok _ _ _ (random_returns g3)).
    set (g4 := snd (random.next g3)).
    destruct (@choice_returns _ ROTATIONS g4) as (r & _ & Hr);
      [discriminate|].
    destruct (Qltb _ 0.5).
    + rewrite (m_bind_ok _ _ _ Hr).
      destruct (@list_set_lt _ s i (x + dx, y + dy, r))
        as (s' & Hset & Hlen); [lia|].
      exists s'. eexists. split; [apply lift_ok; exact Hset | congruence].
    + unfold random.m_bind at 1. unfold random.m_ret at 1.
      destruct (@list_set_lt _ s i (x + dx, y + dy, rot))
        as (s' & Hset & Hlen); [lia|].
      exists s'. eexists. split; [apply lift_ok; exact Hset | congruence].
  - exists s, (snd (random.next g0)). split; [reflexivity | assumption].
Qed.

Lemma mutate_returns (individual : Layout) g :
  exists individual' g',
    mutate self individual g = Ok (individual', g') /\
    length individual' = length individual.
Proof. apply mutate_with_returns. Qed.

(** The replacement loop: it ends within [fuel] iterations, with at least
    [pop_size] candidates, all of them children. *)
Lemma fill_population_returns (population : list Layout) :
  length population = pop_size self ->
  (2 <= length items)%nat ->
  forall fuel new_population g,
    (pop_size self - length new_population <= 2 * fuel)%nat ->
    Forall (offspring self population) new_population ->
    exists new' g',
      fill_population fuel self population new_population g = Ok (new', g') /\
      (pop_size self <= length new')%nat /\
      Forall (offspring self population) new'.
Proof.
  intros Hpop Hn.
  induction fuel as [|fuel IH]; intros new g Hfuel Hall.
  - cbn [fill_population].
    destruct (Nat.ltb_spec (length new) (pop_size self)) as [Hlt|Hge]; [lia|].
    exists new, g. repeat split; assumption.
  - cbn [fill_population].
    destruct (Nat.ltb_spec (length new) (pop_size self)) as [Hlt|Hge].
    2:{ exists new, g. repeat split; assumption. }
    destruct (@randint_in_range 0 (Z.of_nat (pop_size self) - 1) g)
      as (i1 & Hi1 & Hd1); [lia|].
    rewrite (m_bind_ok _ _ _ Hd1).
    destruct (@index_lt _ population (Z.to_nat i1)) as (p1 & Hp1 & Hin1); [lia|].
    rewrite (m_bind_ok _ _ _ (lift_ok _ Hp1)).
    set (g1 := snd (random.next g)).
    destruct (@randint_in_range 0 (Z.of_nat (pop_size self) - 1) g1)
      as (i2 & Hi2 & Hd2); [lia|].
    rewrite (m_bind_ok _ _ _ Hd2).
    destruct (@index_lt _ population (Z.to_nat i2)) as (p2 & Hp2 & Hin2); [lia|].
    rewrite (m_bind_ok _ _ _ (lift_ok _ Hp2)).
    set (g2 := snd (random.next g1)).
    destruct (crossover_returns p1 p2 g2 Hn) as (point & g3 & _ & _ & Hx).
    rewrite (m_bind_ok _ _ _ Hx).
    destruct (mutate_returns (firstn point p1 ++ skipn point p2) g3)
      as (c1 & g4 & Hm1 & _).
    rewrite (m_bind_ok _ _ _ Hm1).
    destruct (mutate_returns (firstn point p2 ++ skipn point p1) g4)
      as (c2 & g5 & Hm2 & _).
    rewrite (m_bind_ok _ _ _ Hm2).
    apply IH.
    + rewrite length_app. cbn. lia.
    + apply Forall_app. split; [assumption|].
      repeat constructor.
      * exists p1, p2. do 2 eexists. exists g2, g3, g3, g4.
        repeat split; [assumption | assumption | exact Hx | left; exact Hm1].
      * exists p1, p2. do 2 eexists. exists g2, g3, g4, g5.
        repeat split; [assumption | assumption | exact Hx | right; exact Hm2].
Qed.

Lemma next_population_returns (population : list Layout) g :
  length population = pop_size self ->
  (2 <= length items)%nat ->
  exists new g',
    next_population self population g = Ok (new, g') /\
    length new = pop_size self /\
    Forall (offspring self population) new.
Proof.
  intros Hpop Hn. unfold next_population.
  destruct (@fill_population_returns population Hpop Hn
              (pop_size self) [] g) as (new & g' & Hfill & Hlen & Hall).
  - cbn. lia.
  - constructor.
  - rewrite (m_bind_ok _ _ _ Hfill).
    exists (firstn (pop_size self) new), g'.
    split; [reflexivity|]. split.
    + rewrite length_firstn. lia.
    + now apply Forall_firstn.
Qed.

Lemma initial_population_returns g :
  exists pop g',
    initial_population self g = Ok (pop, g') /\
    length pop = pop_size self /\
    Forall (candidate_ok items) pop.
Proof.
  unfold initial_population.
  edestruct (@rand_for_each_append nat Layout)
    with (P := fun (_ : nat) (c : Layout) => candidate_ok items c)
    as (new & g' & Hrun & HF); [|rewrite Hrun].
  - intros acc k g0.
    destruct (create_individual_returns g0) as (c & g1 & Hc & Hok).
    rewrite (m_bind_ok _ _ _ Hc). exists c, g1. split; [reflexivity|exact Hok].
  - exists new, g'. split; [reflexivity|]. split.
    + apply Forall2_length in HF. unfold range in HF.
      rewrite length_seq in HF. lia.
    + clear Hrun. induction HF; constructor; assumption.
Qed.

End Candidates.

(** C6.  crossover draws its cut index with random.randint(1, n - 1); for
    parents of length n >= 2 it returns child A = parent1 before the cut
    followed by parent2 from the cut on, and child B the other way round;
    both children have length n; every cut of [1, n - 1] can be drawn; and
    with parents [a,b,c,d], [w,x,y,z] and cut 2 the children are [a,b,y,z]
    and [w,x,c,d]. *)
Theorem crossover_single_point :
  forall (G : Shapely) (Params : Type) (self : GeneticOptimizer G Params)
         (parent1 parent2 : Layout) (n : nat),
    length (furniture_items self) = n ->
    length parent1 = n ->
    length parent2 = n ->
    (2 <= n)%nat ->
    (forall g, exists (point : nat) g',
        (1 <= point <= n - 1)%nat /\
        random.randint 1 (Z.of_nat n - 1) g = Ok (Z.of_nat point, g') /\
        crossover self parent1 parent2 g
        = Ok ((firstn point parent1 ++ skipn point parent2,
               firstn point parent2 ++ skipn point parent1), g') /\
        length (firstn point parent1 ++ skipn point parent2) = n /\
        length (firstn point parent2 ++ skipn point parent1) = n) /\
    (forall point : nat, (1 <= point <= n - 1)%nat ->
        exists g g',
          crossover self parent1 parent2 g
          = Ok ((firstn point parent1 ++ skipn point parent2,
                 firstn point parent2 ++ skipn point parent1), g')) /\
    (forall (a b c d w x y z : Placement) g g',
        parent1 = [a; b; c; d] ->
        parent2 = [w; x; y; z] ->
        random.randint 1 (Z.of_nat n - 1) g = Ok (2%Z, g') ->
        crossover self parent1 parent2 g
        = Ok (([a; b; y; z], [w; x; c; d]), g')).
Proof.
  intros G Params self parent1 parent2 n Hn H1 H2 Hge.
  split; [|split].
  - intro g.
    destruct (@crossover_returns G Params self parent1 parent2 g)
      as (point & g' & Hrange & Hdraw & Hx); [lia|].
    rewrite Hn in Hrange, Hdraw.
    exists point, g'. repeat split; try assumption; try lia.
    + now apply cut_length.
    + now apply cut_length.
  - intros point Hrange.
    destruct (@randint_onto 1 (Z.of_nat n - 1) (Z.of_nat point))
      as (g & g' & Hdraw); [lia|].
    exists g, g'. rewrite <- Hn in Hdraw.
    rewrite (@crossover_cut G Params self parent1 parent2 _ _ _ Hdraw).
    now rewrite Nat2Z.id.
  - intros a b c d w x y z g g' -> -> Hdraw.
    rewrite <- Hn in Hdraw.
    rewrite (@crossover_cut G Params self _ _ _ _ _ Hdraw). reflexivity.
Qed.

Lemma crossover_single_point_witness :
  crossover (Demo.optimizer Demo.square_room Demo.studio 4 1)
            Demo.parent_a Demo.parent_b (Demo.constant_tape 0 1)
  = Ok (([(1, 1, 0%Z); (2, 1, 0%Z); (1, 2, 270%Z); (3, 2, 0%Z)],
         [(3, 3, 90%Z); (2, 3, 0%Z); (3, 1, 90%Z); (1, 3, 180%Z)]),
        snd (random.next (Demo.constant_tape 0 1))).
Proof.
  destruct (@crossover_single_point BoxShapely Demo.Net
              (Demo.optimizer Demo.square_room Demo.studio 4 1)
              Demo.parent_a Demo.parent_b 4%nat
              eq_refl eq_refl eq_refl) as (_ & _ & Hex).
  - lia.
  - apply Hex; reflexivity.
Defined.

(* ===================================================================== *)
(** ** The generation loop *)

Lemma m_bind_inv {A B} (c : random.M A) (k : A -> random.M B) g r :
  random.m_bind c k g = Ok r ->
  exists a g1, c g = Ok (a, g1) /\ k a g1 = Ok r.
Proof.
  unfold random.m_bind. destruct (c g) as [[a g1]|e]; [|discriminate].
  intro H. exists a, g1. split; [reflexivity | assumption].
Qed.

Section Generations.

Variable G : Shapely.
Variable Params : Type.
Variable forward : Params -> bool -> list Q -> Result Q.
Variable self : GeneticOptimizer G Params.


Lemma m_bind_raise_inv {A B} (c : random.M A) (k : A -> random.M B) g e :
  random.m_bind c k g = Raise e ->
  c g = Raise e \/ exists a g1, c g = Ok (a, g1) /\ k a g1 = Raise e.
Proof.
  unfold random.m_bind. destruct (c g) as [[a g1]|e'].
  - intro H. right. exists a, g1. split; [reflexivity | assumption].
  - intro H. left. injection H as ->. reflexivity.
Qed.

Lemma randint_raises (a b : Z) g e :
  random.randint a b g = Raise e -> e = ValueError.
Proof.
  unfold random.randint. destruct (0 <? b + 1 - a)%Z.
  - discriminate.
  - unfold random.raise. congruence.
Qed.

Lemma lift_index_raises {A} (l : list A) (i : nat) g e :
  random.lift (index l i) g = Raise e -> e = IndexError.
Proof.
  unfold index. destruct (nth_error l i); cbn; [discriminate | congruence].
Qed.

(** The iteration budget of the replacement loop is never what stops it:
    each iteration adds two candidates, so [pop_size] iterations are more
    than the loop can take. *)
Lemma fill_population_budget (population : list Layout) :
  forall fuel new_population g,
    (pop_size self - length new_population <= 2 * fuel)%nat ->
    fill_population fuel self population new_population g <> Raise OutOfFuel.
Proof.
  induction fuel as [|fuel IH]; intros new g Hfuel; cbn [fill_population];
    destruct (Nat.ltb_spec (length new) (pop_size self)) as [Hlt|Hge];
    try discriminate; [lia|].
  intro H.
  apply m_bind_raise_inv in H.
  destruct H as [H|(i1 & g1 & _ & H)]; [apply randint_raises in H; discriminate|].
  apply m_bind_raise_inv in H.
  destruct H as [H|(p1 & g2 & _ & H)];
    [apply lift_index_raises in H; discriminate|].
  apply m_bind_raise_inv in H.
  destruct H as [H|(i2 & g3 & _ & H)]; [apply randint_raises in H; discriminate|].
  apply m_bind_raise_inv in H.
  destruct H as [H|(p2 & g4 & _ & H)];
    [apply lift_index_raises in H; discriminate|].
  apply m_bind_raise_inv in H.
  destruct H as [H|([c1 c2] & g5 & _ & H)].
  { unfold crossover in H. apply m_bind_raise_inv in H.
    destruct H as [H|(pt & g' & _ & H)];
      [apply randint_raises in H|]; discriminate. }
  apply m_bind_raise_inv in H.
  destruct H as [H|(c1' & g6 & _ & H)].
  { destruct (@mutate_returns G Params self c1 g5) as (? & ? & Hm & _).
    congruence. }
  apply m_bind_raise_inv in H.
  destruct H as [H|(c2' & g7 & _ & H)].
  { destruct (@mutate_returns G Params self c2 g6) as (? & ? & Hm & _).
    congruence. }
  revert H. apply IH. rewrite length_app. cbn. lia.
Qed.

Lemma next_population_budget (population : list Layout) g :
  next_population self population g <> Raise OutOfFuel.
Proof.
  unfold next_population. intro H.
  apply m_bind_raise_inv in H.
  destruct H as [H|(new & g1 & _ & H)]; [|discriminate].
  revert H. apply fill_population_budget. cbn. lia.
Qed.


(** The population a generation hands on is the one [next_population]
    built from the current one. *)
Lemma generation_replaces (st st' : SearchState) g g' :
  generation forward self st g = Ok (st', g') ->
  exists g1,
    next_population self (population st) g1 = Ok (population st', g').
Proof.
  unfold generation. intro H.
  apply m_bind_inv in H. destruct H as (scores & g1 & _ & H).
  apply m_bind_inv in H. destruct H as (max_fitness & g2 & _ & H).
  apply m_bind_inv in H. destruct H as (best & g3 & _ & H).
  apply m_bind_inv in H. destruct H as (new & g4 & Hnext & H).
  injection H as <- <-. cbn. eexists. exact Hnext.
Qed.


End Generations.


(* ===================================================================== *)
(** ** Construction of the optimizer *)

Section Construction.

Variable G : Shapely.
Variable Params : Type.
Variable fresh_params : Params.
Variable room : Geom G.
Variable items : list FurnitureItem.
Variables population_size gens : nat.

Lemma init_fields (a : Artifact Params) :
  furniture_items (init G fresh_params room items population_size gens a)
  = items /\
  pop_size (init G fresh_params room items population_size gens a)
  = population_size /\
  generations (init G fresh_params room items population_size gens a)
  = gens.
Proof.
  unfold init. destruct (bounds G room) as [[[minx miny] maxx] maxy].
  destruct a; repeat split; reflexivity.
Qed.

Lemma init_no_file :
  ml_model (init G fresh_params room items population_size gens
                 (NoFile Params)) = None.
Proof.
  unfold init. destruct (bounds G room) as [[[minx miny] maxx] maxy].
  reflexivity.
Qed.

Lemma init_state_dict (p : Params) :
  ml_model (init G fresh_params room items population_size gens
                 (StateDict p))
  = Some {| params := p; training := false |}.
Proof.
  unfold init. destruct (bounds G room) as [[[minx miny] maxx] maxy].
  reflexivity.
Qed.

Lemma init_unloadable :
  ml_model (init G fresh_params room items population_size gens
                 (Unloadable Params))
  = Some {| params := fresh_params; training := true |}.
Proof.
  unfold init. destruct (bounds G room) as [[[minx miny] maxx] maxy].
  reflexivity.
Qed.

End Construction.

(** C1 (the code departs from it).  mutate re-draws the rotation of a gene
    whatever the item: here a candidate that satisfies the invariant, for a
    single item that is not rotatable, comes back from mutate with
    rotation 90. *)
Theorem mutate_turns_fixed_item :
  candidate_ok
    (furniture_items
       (Demo.optimizer Demo.square_room [Demo.item 1.5 0.6 false] 4 1))
    [(1, 1, 0%Z)] /\
  exists x y g',
    mutate (Demo.optimizer Demo.square_room [Demo.item 1.5 0.6 false] 4 1)
           [(1, 1, 0%Z)] (Demo.constant_tape 0 1)
    = Ok ([(x, y, 90%Z)], g') /\
    ~ candidate_ok
        (furniture_items
           (Demo.optimizer Demo.square_room [Demo.item 1.5 0.6 false] 4 1))
        [(x, y, 90%Z)].
Proof.
  split.
  - split; [reflexivity|]. repeat constructor.
  - do 3 eexists. split.
    + vm_compute. reflexivity.
    + intros [_ HF]. inversion HF as [|item p its ps Hpin Hrest]; subst.
      specialize (Hpin eq_refl). discriminate.
Qed.

(** C4 (the code departs from it).  With exactly one furniture item the
    cut range of crossover is empty and random.randint raises ValueError,
    whatever the room, the parents and the generator; a run of the
    optimizer on a one-item list stops with that exception in its first
    generation. *)
Theorem single_item_crossover_raises :
  (forall (G : Shapely) (Params : Type) (fresh_params : Params)
          (room : Geom G) (item : FurnitureItem)
          (population_size gens : nat) (a : Artifact Params)
          (parent1 parent2 : Layout) g,
      crossover (init G fresh_params room [item] population_size gens a)
                parent1 parent2 g
      = Raise ValueError) /\
  optimize Demo.net_forward
           (Demo.optimizer Demo.square_room [Demo.item 2 1.5 true] 4 2)
           Demo.tape7
  = Raise ValueError.
Proof.
  split.
  - intros. apply crossover_single_item.
    destruct (init_fields G fresh_params room [item] population_size gens a)
      as (-> & _). reflexivity.
  - vm_compute. reflexivity.
Qed.

(* ===================================================================== *)
(** ** Hybrid score *)

Section HybridScore.

Variable G : Shapely.
Variable Params : Type.
Variable forward : Params -> bool -> list Q -> Result Q.
Variable self : GeneticOptimizer G Params.

Lemma final_score_blend (ind : Layout) (m : InteriorFitnessModel Params)
      (geo_score ml_score : Q) :
  ml_model self = Some m ->
  calculate_fitness (evaluator self) ind = Ok geo_score ->
  _get_ml_score forward self ind = Ok ml_score ->
  final_score forward self ind = Ok (geo_score * 0.7 + ml_score * 0.3).
Proof.
  intros Hm Hgeo Hml. unfold final_score.
  rewrite Hgeo. cbn. rewrite Hm, Hml. reflexivity.
Qed.

Lemma final_score_geometric (ind : Layout) :
  ml_model self = None ->
  final_score forward self ind = calculate_fitness (evaluator self) ind.
Proof.
  intro Hm. unfold final_score. rewrite Hm.
  destruct (calculate_fitness (evaluator self) ind); reflexivity.
Qed.

(** The scores of the evaluation loop, one [final_score] per member. *)
Lemma evaluation_loop (pop : list Layout) :
  forall acc scores,
    for_each
      (fun scores ind =>
         (s <- final_score forward self ind ;; ret (scores ++ [s]))%result)
      acc pop = Ok scores ->
    exists new,
      scores = acc ++ new /\
      Forall2 (fun ind s => final_score forward self ind = Ok s) pop new.
Proof.
  induction pop as [|ind pop IH]; intros acc scores H; cbn [for_each] in H.
  - injection H as <-. exists []. rewrite app_nil_r. split; constructor.
  - destruct (final_score forward self ind) as [s|e] eqn:Hs; [|discriminate].
    cbn in H. apply IH in H. destruct H as (new & -> & HF).
    exists (s :: new). rewrite <- app_assoc. split; [reflexivity|].
    constructor; assumption.
Qed.

End HybridScore.

(** C5 (the code departs from it).  The score of a candidate is
    0.7 * geo + 0.3 * ml when a model is present and the geometric score
    alone when it is not, and every score of the evaluation loop is
    computed that way; construction never raises; a missing file leaves no
    model; a loaded state dict leaves the model in evaluation mode; but a
    file that exists and cannot be loaded leaves the freshly constructed,
    untrained model in place. *)
Theorem unloadable_artifact_keeps_model :
  forall (G : Shapely) (Params : Type) (fresh_params : Params)
         (forward : Params -> bool -> list Q -> Result Q)
         (room : Geom G) (items : list FurnitureItem)
         (population_size gens : nat),
    (forall (self : GeneticOptimizer G Params) ind m geo_score ml_score,
        ml_model self = Some m ->
        calculate_fitness (evaluator self) ind = Ok geo_score ->
        _get_ml_score forward self ind = Ok ml_score ->
        final_score forward self ind
        = Ok (geo_score * 0.7 + ml_score * 0.3)) /\
    (forall (self : GeneticOptimizer G Params) ind,
        ml_model self = None ->
        final_score forward self ind
        = calculate_fitness (evaluator self) ind) /\
    ml_model (init G fresh_params room items population_size gens
                   (NoFile Params)) = None /\
    (forall p,
        ml_model (init G fresh_params room items population_size gens
                       (StateDict p))
        = Some {| params := p; training := false |}) /\
    ml_model (init G fresh_params room items population_size gens
                   (Unloadable Params))
    = Some {| params := fresh_params; training := true |}.
Proof.
  intros. repeat split.
  - intros. eapply final_score_blend; eassumption.
  - intros. now apply final_score_geometric.
  - apply init_no_file.
  - apply init_state_dict.
  - apply init_unloadable.
Qed.

(* ===================================================================== *)
(** ** The fitness function against its specification *)

Lemma count_nil {A} (f : A -> bool) : count f [] == 0.
Proof. reflexivity. Qed.

Lemma count_cons {A} (f : A -> bool) (a : A) (l : list A) :
  count f (a :: l) == (if f a then 1 else 0) + count f l.
Proof.
  unfold count. cbn [filter]. destruct (f a); [|lra].
  cbn [length]. rewrite Nat2Z.inj_succ, <- Z.add_1_l, inject_Z_plus.
  reflexivity.
Qed.

Lemma count_nonneg {A} (f : A -> bool) (l : list A) : 0 <= count f l.
Proof. apply inject_Z_of_nat_nonneg. Qed.

Section FitnessRefinement.

Variable G : Shapely.
Variable self : FitnessEvaluator G.
Hypothesis total : never_raises G.

Let items := fe_furniture_items self.

Lemma check_boundary_total (p : Geom G) :
  check_boundary (constraints self) p = Ok (negb (outside_room self p)).
Proof.
  unfold outside_room.
  destruct (contains_returns total (cc_room_poly (constraints self)) p)
    as (b & Hb).
  unfold check_boundary, check_containment in *. rewrite Hb. cbn.
  now rewrite negb_involutive.
Qed.

Lemma overlap_total (p q : Geom G) :
  calculate_overlap_area G p q = Ok (overlap G p q).
Proof.
  unfold overlap.
  destruct (calculate_overlap_area G p q) as [v|e] eqn:E; [reflexivity|].
  exfalso. unfold calculate_overlap_area in E.
  destruct (intersects_returns total p q) as (b & Hb). rewrite Hb in E.
  cbn in E. destruct b; cbn in E; [|discriminate].
  destruct (intersection_area_returns total p q) as (v & Hv).
  rewrite Hv in E. discriminate.
Qed.

Lemma wall_distance_total (p : Geom G) :
  exists d, get_nearest_wall_distance (constraints self) p = Ok d /\
            Qltb d 0.1 = near_wall self p.
Proof.
  unfold near_wall.
  destruct (boundary_distance_returns total
              (cc_room_poly (constraints self)) (centroid G p)) as (d & Hd).
  unfold get_nearest_wall_distance, distance_to_wall in *.
  rewrite Hd. exists d. split; reflexivity.
Qed.

(** Footprints of a list of items against a list of placements. *)
Let fps (its : list FurnitureItem) (lay : Layout) : list (Geom G) :=
  map (fun ip : FurnitureItem * Placement =>
         let '(item, (x, y, rot)) := ip in
         create_furniture_polygon_wrapper G item x y rot)
      (combine its lay).

Lemma boundary_loop (layout : Layout) :
  forall (its : list FurnitureItem) (lay pre : Layout)
         (pen : Q) (polys : list (Geom G)) (k : nat),
    layout = pre ++ lay ->
    length pre = k ->
    length lay = length its ->
    exists pen',
      for_each
        (fun (st : Q * list (Geom G)) (ix : nat * FurnitureItem) =>
           let (penalty, furniture_polys) := st in
           let (i, item) := ix in
           ('(x, y, rot) <- index layout i ;;
            let poly := create_furniture_polygon_wrapper G item x y rot in
            let furniture_polys := furniture_polys ++ [poly] in
            inside <- check_boundary (constraints self) poly ;;
            ret (if negb inside then penalty + 1000 else penalty,
                 furniture_polys))%result)
        (pen, polys)
        (combine (seq k (length its)) its)
      = Ok (pen', polys ++ fps its lay)
      /\ pen' == pen + 1000 * count (outside_room self) (fps its lay).
Proof.
  intro its.
  match goal with
  | |- context [for_each ?b _ _] => set (body := b)
  end.
  induction its as [|item its IH]; intros lay pre pen polys k Hlay Hpre Hlen.
  - destruct lay; [|discriminate]. cbn.
    exists pen. rewrite app_nil_r. split; [reflexivity|].
    rewrite count_nil. lra.
  - destruct lay as [|[[x y] rot] lay]; [discriminate|].
    cbn [length seq combine for_each].
    assert (Hix : index layout k = Ok (x, y, rot)).
    { unfold index. subst layout k.
      rewrite nth_error_app2 by lia. rewrite Nat.sub_diag. reflexivity. }
    set (poly := create_furniture_polygon_wrapper G item x y rot).
    assert (Hstep : body (pen, polys) (k, item)
                    = Ok (if outside_room self poly then pen + 1000 else pen,
                          polys ++ [poly])).
    { unfold body. rewrite Hix. cbn [result_bind]. fold poly.
      rewrite check_boundary_total. cbn [result_bind].
      now rewrite negb_involutive. }
    rewrite Hstep. cbn [result_bind].
    destruct (IH lay (pre ++ [(x, y, rot)])
                 (if outside_room self poly then pen + 1000 else pen)
                 (polys ++ [poly]) (S k))
      as (pen' & Hrun & Hpen).
    + rewrite <- app_assoc. exact Hlay.
    + rewrite length_app. cbn. lia.
    + cbn in Hlen. lia.
    + exists pen'. rewrite Hrun, <- app_assoc. split; [reflexivity|].
      rewrite Hpen. unfold fps. cbn [combine map]. fold poly.
      rewrite count_cons. destruct (outside_room self poly); lra.
Qed.

Lemma inner_loop (polys : list (Geom G)) (i : nat) (p : Geom G) :
  index polys i = Ok p ->
  forall (rest pre : list (Geom G)) (pen : Q) (j : nat),
    polys = pre ++ rest ->
    length pre = j ->
    exists pen',
      for_each
        (fun penalty j =>
           (pi <- index polys i ;;
            pj <- index polys j ;;
            overlap <- calculate_overlap_area G pi pj ;;
            ret (if Qltb 0 overlap then penalty + overlap * 500
                 else penalty))%result)
        pen (seq j (length rest))
      = Ok pen'
      /\ pen' == pen + overlaps_with G p rest.
Proof.
  intros Hp rest.
  match goal with
  | |- context [for_each ?b _ _] => set (body := b)
  end.
  induction rest as [|q rest IH]; intros pre pen j Hpolys Hpre.
  - exists pen. split; [reflexivity | cbn; lra].
  - cbn [length seq for_each].
    assert (Hq : index polys j = Ok q).
    { unfold index. subst polys j.
      rewrite nth_error_app2 by lia. rewrite Nat.sub_diag. reflexivity. }
    assert (Hstep : body pen j
                    = Ok (if Qltb 0 (overlap G p q)
                          then pen + overlap G p q * 500 else pen)).
    { unfold body. rewrite Hp, Hq. cbn [result_bind].
      rewrite overlap_total. reflexivity. }
    rewrite Hstep. cbn [result_bind].
    destruct (IH (pre ++ [q])
                 (if Qltb 0 (overlap G p q) then pen + overlap G p q * 500
                  else pen) (S j))
      as (pen' & Hrun & Hpen).
    + rewrite <- app_assoc. exact Hpolys.
    + rewrite length_app. cbn. lia.
    + exists pen'. split; [exact Hrun|].
      rewrite Hpen. cbn [overlaps_with].
      destruct (Qltb 0 (overlap G p q)); lra.
Qed.

Lemma outer_loop (polys : list (Geom G)) :
  forall (rest pre : list (Geom G)) (pen : Q) (i : nat),
    polys = pre ++ rest ->
    length pre = i ->
    exists pen',
      for_each
        (fun penalty i =>
           for_each
             (fun penalty j =>
                (pi <- index polys i ;;
                 pj <- index polys j ;;
                 overlap <- calculate_overlap_area G pi pj ;;
                 ret (if Qltb 0 overlap then penalty + overlap * 500
                      else penalty))%result)
             penalty
             (range (i + 1) (length polys)))
        pen (seq i (length rest))
      = Ok pen'
      /\ pen' == pen + pair_penalty G rest.
Proof.
  intro rest.
  match goal with
  | |- context [for_each ?b _ (seq _ (length rest))] => set (body := b)
  end.
  induction rest as [|p rest IH]; intros pre pen i Hpolys Hpre.
  - exists pen. split; [reflexivity | cbn; lra].
  - cbn [length seq for_each].
    assert (Hp : index polys i = Ok p).
    { unfold index. subst polys i.
      rewrite nth_error_app2 by lia. rewrite Nat.sub_diag. reflexivity. }
    assert (Hrange : range (i + 1) (length polys) = seq (S i) (length rest)).
    { unfold range. subst polys i. rewrite length_app. cbn [length].
      rewrite Nat.add_1_r. f_equal. lia. }
    destruct (@inner_loop polys i p Hp rest (pre ++ [p]) pen (S i))
      as (pen1 & Hinner & Hpen1).
    + rewrite <- app_assoc. exact Hpolys.
    + rewrite length_app. cbn. lia.
    + assert (Hstep : body pen i = Ok pen1).
      { unfold body. rewrite Hrange. exact Hinner. }
      rewrite Hstep. cbn [result_bind].
      destruct (IH (pre ++ [p]) pen1 (S i)) as (pen' & Hrun & Hpen).
      * rewrite <- app_assoc. exact Hpolys.
      * rewrite length_app. cbn. lia.
      * exists pen'. split; [exact Hrun|].
        rewrite Hpen, Hpen1. cbn [pair_penalty]. lra.
Qed.

Lemma alignment_loop :
  forall (polys : list (Geom G)) (acc : Q),
    exists v,
      for_each
        (fun alignment_score poly =>
           (dist <- get_nearest_wall_distance (constraints self) poly ;;
            ret (if Qltb dist 0.1 then alignment_score + 10
                 else alignment_score))%result)
        acc polys
      = Ok v
      /\ v == acc + 10 * count (near_wall self) polys.
Proof.
  intro polys.
  match goal with
  | |- context [for_each ?b _ _] => set (body := b)
  end.
  induction polys as [|p polys IH]; intro acc.
  - exists acc. split; [reflexivity | rewrite count_nil; lra].
  - cbn [for_each].
    destruct (wall_distance_total p) as (d & Hd & Hnear).
    assert (Hstep : body acc p
                    = Ok (if near_wall self p then acc + 10 else acc)).
    { unfold body. rewrite Hd. cbn [result_bind]. now rewrite Hnear. }
    rewrite Hstep. cbn [result_bind].
    destruct (IH (if near_wall self p then acc + 10 else acc))
      as (v & Hrun & Hv).
    exists v. split; [exact Hrun|].
    rewrite Hv, count_cons. destruct (near_wall self p); lra.
Qed.

Lemma overlaps_with_nonneg (p : Geom G) (rest : list (Geom G)) :
  0 <= overlaps_with G p rest.
Proof.
  induction rest as [|q rest IH]; cbn; [lra|].
  destruct (Qltb 0 (overlap G p q)) eqn:E; [|lra].
  apply Qltb_lt in E. lra.
Qed.

Lemma pair_penalty_nonneg (polys : list (Geom G)) : 0 <= pair_penalty G polys.
Proof.
  induction polys as [|p polys IH]; cbn; [lra|].
  pose proof (overlaps_with_nonneg p polys). lra.
Qed.

Lemma boundary_pass_total (layout : Layout) :
  length layout = length items ->
  exists pen,
    boundary_pass self layout = Ok (pen, footprints self layout) /\
    pen == 1000 * count (outside_room self) (footprints self layout).
Proof.
  intro Hlen.
  destruct (@boundary_loop layout items layout [] 0 [] 0%nat)
    as (pen & Hb & Hpen); [reflexivity | reflexivity | assumption |].
  exists pen. split.
  - exact Hb.
  - rewrite Hpen. unfold footprints. fold items. fold (fps items layout). lra.
Qed.

Lemma overlap_pass_total (polys : list (Geom G)) (pen : Q) :
  exists pen',
    overlap_pass G polys pen = Ok pen' /\
    pen' == pen + pair_penalty G polys.
Proof.
  destruct (@outer_loop polys polys [] pen 0%nat)
    as (pen' & Ho & Hpen'); [reflexivity | reflexivity |].
  exists pen'. split; [|exact Hpen'].
  unfold overlap_pass, range. rewrite Nat.sub_0_r. exact Ho.
Qed.

Lemma alignment_pass_total (polys : list (Geom G)) :
  exists v,
    alignment_pass self polys = Ok v /\
    v == 10 * count (near_wall self) polys.
Proof.
  destruct (alignment_loop polys 0) as (v & Ha & Hv).
  exists v. split; [exact Ha | rewrite Hv; lra].
Qed.

Lemma calculate_fitness_refines (layout : Layout) :
  length layout = length items ->
  exists v,
    calculate_fitness self layout = Ok v /\ v == fitness_spec self layout.
Proof.
  intro Hlen. unfold calculate_fitness.
  destruct (boundary_pass_total layout Hlen) as (pen1 & -> & Hpen1).
  cbn [result_bind].
  destruct (overlap_pass_total (footprints self layout) pen1)
    as (pen2 & -> & Hpen2).
  cbn [result_bind].
  assert (Hpen : pen2 == penalty_spec self layout).
  { rewrite Hpen2, Hpen1. unfold penalty_spec. lra. }
  unfold fitness_spec. rewrite <- (Qltb_compat (Qeq_refl 0) Hpen).
  destruct (Qltb 0 pen2).
  - eexists. split; [reflexivity|]. now rewrite Hpen.
  - destruct (alignment_pass_total (footprints self layout))
      as (v & -> & Hv).
    cbn [result_bind].
    eexists. split; [reflexivity|]. rewrite Hv. lra.
Qed.

End FitnessRefinement.

(** C2.  For a layout with one placement per furniture item (and a
    geometry library whose queries return), calculate_fitness returns the
    value of the specification: the penalty is 1000 per footprint not
    contained in the room plus overlap * 500 per unordered pair of
    footprints with a positive overlap; a positive penalty is returned
    negated; otherwise the result is 10 times the number of footprints
    whose centroid is closer than 0.1 to the room boundary, which is not
    negative. *)
Theorem calculate_fitness_spec :
  forall (G : Shapely) (self : FitnessEvaluator G) (layout : Layout),
    never_raises G ->
    length layout = length (fe_furniture_items self) ->
    exists v,
      calculate_fitness self layout = Ok v /\
      v == fitness_spec self layout /\
      (0 < penalty_spec self layout -> v == - penalty_spec self layout) /\
      (~ 0 < penalty_spec self layout ->
         v == 10 * count (near_wall self) (footprints self layout) /\
         0 <= v).
Proof.
  intros G self layout Htotal Hlen.
  destruct (@calculate_fitness_refines G self Htotal layout Hlen)
    as (v & Hrun & Hv).
  exists v. split; [exact Hrun|]. split; [exact Hv|].
  unfold fitness_spec in Hv. split.
  - intro Hpos. apply Qltb_lt in Hpos. now rewrite Hpos in Hv.
  - intro Hneg.
    assert (Hf : Qltb 0 (penalty_spec self layout) = false).
    { apply Qltb_ge. now apply Qnot_lt_le. }
    rewrite Hf in Hv. split; [exact Hv|].
    rewrite Hv.
    pose proof (count_nonneg (near_wall self) (footprints self layout)). lra.
Qed.

Lemma box_never_raises : never_raises BoxShapely.
Proof. split; intros; eexists; reflexivity. Qed.

Lemma calculate_fitness_spec_witness :
  exists v,
    calculate_fitness
      (evaluator (Demo.optimizer Demo.square_room Demo.two_chairs 4 1))
      Demo.grazing_layout = Ok v /\
    v == fitness_spec
           (evaluator (Demo.optimizer Demo.square_room Demo.two_chairs 4 1))
           Demo.grazing_layout.
Proof.
  destruct (@calculate_fitness_spec BoxShapely
              (evaluator (Demo.optimizer Demo.square_room Demo.two_chairs 4 1))
              Demo.grazing_layout box_never_raises eq_refl)
    as (v & Hrun & Hv & _).
  exists v. split; assumption.
Defined.

(* ===================================================================== *)
(** ** The overlap tolerance of the constraint checker *)

Section Tolerance.

Variable G : Shapely.
Hypothesis total : never_raises G.

Lemma overlap_when_disjoint (p q : Geom G) :
  intersects G p q = Ok false -> overlap G p q = 0.
Proof.
  intro H. unfold overlap, calculate_overlap_area. rewrite H. reflexivity.
Qed.

(** [check_overlap] reports a clash exactly when some other footprint
    overlaps by more than 0.01. *)
Lemma check_overlap_total (p : Geom G) (others : list (Geom G)) :
  check_overlap G p others
  = Ok (existsb (fun o => Qltb 0.01 (overlap G p o)) others).
Proof.
  induction others as [|o others IH]; [reflexivity|].
  cbn [check_overlap existsb].
  unfold check_intersection.
  destruct (intersects_returns total p o) as ([|] & Hb); rewrite Hb;
    cbn [result_bind].
  - rewrite (overlap_total total). cbn [result_bind].
    destruct (Qltb 0.01 (overlap G p o)); [reflexivity | exact IH].
  - rewrite (overlap_when_disjoint _ _ Hb).
    exact IH.
Qed.

Lemma check_hard_constraints_total (c : ConstraintChecker G)
      (p : Geom G) (others : list (Geom G)) :
  contains G (cc_room_poly c) p = Ok true ->
  (forall o, In o others -> overlap G p o <= 0.01) ->
  check_hard_constraints c p others = Ok true.
Proof.
  intros Hin Hsmall. unfold check_hard_constraints, check_boundary,
    check_containment.
  rewrite Hin. cbn [result_bind negb].
  rewrite check_overlap_total.
  assert (E : existsb (fun o => Qltb 0.01 (overlap G p o)) others = false).
  { induction others as [|o others IH]; [reflexivity|].
    cbn [existsb]. rewrite IH by (intros; apply Hsmall; now right).
    rewrite orb_false_r. apply Qltb_ge. apply Hsmall. now left. }
  rewrite E. reflexivity.
Qed.

Lemma overlaps_with_ge (p q : Geom G) (mid post : list (Geom G)) :
  0 < overlap G p q ->
  overlap G p q * 500 <= overlaps_with G p (mid ++ q :: post).
Proof.
  intro Hpos. induction mid as [|m mid IH]; cbn [app overlaps_with].
  - apply Qltb_lt in Hpos. rewrite Hpos.
    pose proof (overlaps_with_nonneg G p post). lra.
  - destruct (Qltb 0 (overlap G p m)) eqn:E; [apply Qltb_lt in E|]; lra.
Qed.

Lemma pair_penalty_ge (p q : Geom G) (pre mid post : list (Geom G)) :
  0 < overlap G p q ->
  overlap G p q * 500 <= pair_penalty G (pre ++ p :: mid ++ q :: post).
Proof.
  intro Hpos. induction pre as [|r pre IH]; cbn [app pair_penalty].
  - pose proof (overlaps_with_ge p q mid post Hpos).
    pose proof (pair_penalty_nonneg G (mid ++ q :: post)). lra.
  - pose proof (overlaps_with_nonneg G r (pre ++ p :: mid ++ q :: post)).
    lra.
Qed.

(** Any pair with a positive overlap makes the fitness negative. *)
Lemma positive_overlap_is_penalized (self : FitnessEvaluator G)
      (layout : Layout) (p q : Geom G) (pre mid post : list (Geom G)) :
  length layout = length (fe_furniture_items self) ->
  footprints self layout = pre ++ p :: mid ++ q :: post ->
  0 < overlap G p q ->
  exists v, calculate_fitness self layout = Ok v /\ v < 0.
Proof.
  intros Hlen Hfp Hpos.
  destruct (@calculate_fitness_refines G self total layout Hlen)
    as (v & Hrun & Hv).
  exists v. split; [exact Hrun|].
  assert (Hpen : 0 < penalty_spec self layout).
  { unfold penalty_spec. rewrite Hfp.
    pose proof (pair_penalty_ge p q pre mid post Hpos).
    pose proof (count_nonneg (outside_room self)
                  (pre ++ p :: mid ++ q :: post)).
    lra. }
  unfold fitness_spec in Hv.
  pose proof Hpen as Hb. apply Qltb_lt in Hb. rewrite Hb in Hv.
  rewrite Hv. lra.
Qed.

End Tolerance.

(** C10.  check_overlap (and with it check_hard_constraints) reports a
    clash only for an overlap area above 0.01, while calculate_fitness
    charges every positive overlap area; so there are layouts, such as two
    1m x 1m items overlapping in a strip 0.005 wide inside the 4m x 4m
    room, where check_hard_constraints is True for every item and
    calculate_fitness is negative. *)
Theorem overlap_tolerance_mismatch :
  (forall (G : Shapely), never_raises G ->
     forall (p : Geom G) (others : list (Geom G)),
       check_overlap G p others
       = Ok (existsb (fun o => Qltb 0.01 (overlap G p o)) others)) /\
  (forall (G : Shapely), never_raises G ->
     forall (self : FitnessEvaluator G) (layout : Layout)
            (p q : Geom G) (pre mid post : list (Geom G)),
       length layout = length (fe_furniture_items self) ->
       footprints self layout = pre ++ p :: mid ++ q :: post ->
       0 < overlap G p q ->
       exists v, calculate_fitness self layout = Ok v /\ v < 0) /\
  exists (self : FitnessEvaluator BoxShapely) (layout : Layout)
         (p q : Geom BoxShapely),
    length layout = length (fe_furniture_items self) /\
    footprints self layout = [p; q] /\
    0 < overlap BoxShapely p q <= 0.01 /\
    check_hard_constraints (constraints self) p [q] = Ok true /\
    check_hard_constraints (constraints self) q [p] = Ok true /\
    exists v, calculate_fitness self layout = Ok v /\ v < 0.
Proof.
  split; [|split].
  - intros G total p others. now apply check_overlap_total.
  - intros G total self layout p q pre mid post.
    now apply positive_overlap_is_penalized.
  - exists (evaluator (Demo.optimizer Demo.square_room Demo.two_chairs 4 1)),
           Demo.grazing_layout.
    do 2 eexists.
    split; [reflexivity|]. split; [reflexivity|].
    split; [split; vm_compute; [reflexivity | discriminate] |].
    split; [vm_compute; reflexivity|].
    split; [vm_compute; reflexivity|].
    eexists. split; [vm_compute; reflexivity | reflexivity].
Qed.

(* ===================================================================== *)
(** ** Overlap area *)

Lemma Qle_bool_compat (a a' b b' : Q) :
  a == a' -> b == b' -> Qle_bool a b = Qle_bool a' b'.
Proof.
  intros Ha Hb.
  destruct (Qle_bool a b) eqn:E1, (Qle_bool a' b') eqn:E2; try reflexivity.
  - apply Qle_bool_iff in E1.
    assert (H : a' <= b') by lra. apply Qle_bool_iff in H. congruence.
  - apply Qle_bool_iff in E2.
    assert (H : a <= b) by lra. apply Qle_bool_iff in H. congruence.
Qed.

Lemma box_intersects_sym (a b : Box.t) :
  Box.intersects a b = Box.intersects b a.
Proof.
  unfold Box.intersects. f_equal;
    apply Qle_bool_compat; (apply Q.max_comm || apply Q.min_comm).
Qed.

Lemma box_intersection_area_sym (a b : Box.t) :
  Box.intersection_area a b == Box.intersection_area b a.
Proof.
  unfold Box.intersection_area.
  rewrite (Q.min_comm (Box.xmax a)), (Q.max_comm (Box.xmin a)),
          (Q.min_comm (Box.ymax a)), (Q.max_comm (Box.ymin a)).
  reflexivity.
Qed.

Lemma box_intersection_area_self (a : Box.t) :
  Box.intersection_area a a == Box.area a.
Proof.
  unfold Box.intersection_area, Box.area, Box.span_x, Box.span_y.
  rewrite !Q.min_id, !Q.max_id. reflexivity.
Qed.

Lemma box_intersection_area_nonneg (a b : Box.t) :
  0 <= Box.intersection_area a b.
Proof.
  unfold Box.intersection_area.
  apply Qmult_le_0_compat; apply Q.le_max_l.
Qed.

Lemma box_area_not_self_intersecting (a : Box.t) :
  Box.intersects a a = false -> Box.area a == 0.
Proof.
  unfold Box.intersects, Box.area, Box.span_x, Box.span_y. intro H.
  apply andb_false_iff in H.
  destruct H as [H|H];
    rewrite (Qle_bool_compat (Q.max_id _) (Q.min_id _)) in H;
    assert (Hlt : ~ (_ <= _)) by (intro Hle; apply Qle_bool_iff in Hle; rewrite Hle in H; discriminate);
    apply Qnot_le_lt in Hlt.
  - rewrite (Q.max_l 0 (Box.xmax a - Box.xmin a)) by lra. ring.
  - rewrite (Q.max_l 0 (Box.ymax a - Box.ymin a)) by lra. ring.
Qed.

Lemma box_overlay_laws : overlay_laws BoxShapely.
Proof.
  split; cbn.
  - intros a b. f_equal. apply box_intersects_sym.
  - intros a b. apply box_intersection_area_sym.
  - intros a _. apply box_intersection_area_self.
  - intros a H. apply box_area_not_self_intersecting. congruence.
  - intros a b v H. injection H as <-. apply box_intersection_area_nonneg.
Qed.

Section OverlapArea.

Variable G : Shapely.
Hypothesis laws : overlay_laws G.

Lemma overlap_area_sym (a b : Geom G) :
  same_result (calculate_overlap_area G a b) (calculate_overlap_area G b a).
Proof.
  unfold calculate_overlap_area.
  rewrite (intersects_sym laws a b).
  destruct (intersects G b a) as [[|]|e]; cbn.
  - apply (intersection_area_sym laws).
  - reflexivity.
  - reflexivity.
Qed.

Lemma overlap_area_self (a : Geom G) :
  succeeds (intersects G a a) ->
  same_result (calculate_overlap_area G a a) (Ok (area G a)).
Proof.
  intros (hit & Hhit). unfold calculate_overlap_area. rewrite Hhit.
  destruct hit; cbn [result_bind negb].
  - now apply (intersection_area_self laws).
  - cbn. symmetry. now apply (area_not_self_intersecting laws).
Qed.

Lemma overlap_area_nonneg (a b : Geom G) (v : Q) :
  calculate_overlap_area G a b = Ok v -> 0 <= v.
Proof.
  unfold calculate_overlap_area.
  destruct (intersects G a b) as [[|]|e]; cbn; intro H.
  - now apply (intersection_area_nonneg laws) in H.
  - injection H as <-. lra.
  - discriminate.
Qed.

End OverlapArea.

Lemma overlap_area_disjoint (G : Shapely) (a b : Geom G) :
  intersects G a b = Ok false -> calculate_overlap_area G a b = Ok 0.
Proof. intro H. unfold calculate_overlap_area. now rewrite H. Qed.




(* ===================================================================== *)
(** ** The approximator's feature vector *)

Section Features.

Variable G : Shapely.
Variable Params : Type.
Variable forward : Params -> bool -> list Q -> Result Q.
Variable self : GeneticOptimizer G Params.

Lemma div_len_nonzero (a : Q) (n : nat) :
  n <> 0%nat -> div_len a n = Ok (a / inject_Z (Z.of_nat n)).
Proof. destruct n; [congruence | reflexivity]. Qed.

Lemma ml_features_value (individual : Layout) :
  individual <> [] ->
  ml_features self individual
  = Ok [ area G (room_poly self) / 50;
         1;
         0.25;
         0.25;
         inject_Z (Z.of_nat (length (furniture_items self))) / 20;
         (if Qltb 0 (max_x self - min_x self)
          then (py_sum (map (fun item : Placement => fst (fst item))
                            individual)
                / inject_Z (Z.of_nat (length individual)))
               / (max_x self - min_x self)
          else 0);
         (if Qltb 0 (max_y self - min_y self)
          then (py_sum (map (fun item : Placement => snd (fst item))
                            individual)
                / inject_Z (Z.of_nat (length individual)))
               / (max_y self - min_y self)
          else 0) ].
Proof.
  intro Hne. unfold ml_features.
  assert (Hlen : length individual <> 0%nat).
  { destruct individual; [congruence | discriminate]. }
  rewrite !length_map, !div_len_nonzero by assumption.
  reflexivity.
Qed.

Lemma ml_features_empty : ml_features self [] = Raise ZeroDivisionError.
Proof. reflexivity. Qed.

Lemma get_ml_score_without_model (individual : Layout) :
  ml_model self = None -> _get_ml_score forward self individual = Ok 0.
Proof. intro H. unfold _get_ml_score. now rewrite H. Qed.

Lemma get_ml_score_with_model (individual : Layout)
      (model : InteriorFitnessModel Params) (features : list Q) :
  ml_model self = Some model ->
  ml_features self individual = Ok features ->
  _get_ml_score forward self individual
  = result_bind (forward (params model) (training model) features)
                (fun score => Ok (score * 100)).
Proof.
  intros Hm Hf. unfold _get_ml_score. rewrite Hm, Hf. reflexivity.
Qed.

End Features.

(** C7 as the code has it.  For a non-empty candidate and a loaded model,
    _get_ml_score feeds the model the vector
    [area / 50, 1.0, 0.25, 0.25, len(furniture) / 20, avgX / width,
    avgY / height] (the last two are 0 when the room's bounding box has no
    positive width or height): the aspect-ratio, door and window slots hold
    constants, whatever the room.  It returns the model's output times 100,
    and 0.0 when no model is loaded. *)
Theorem get_ml_score_features :
  forall (G : Shapely) (Params : Type)
         (forward : Params -> bool -> list Q -> Result Q)
         (self : GeneticOptimizer G Params) (individual : Layout),
    individual <> [] ->
    (forall model, ml_model self = Some model ->
       _get_ml_score forward self individual
       = result_bind
           (forward (params model) (training model)
              [ area G (room_poly self) / 50;
                1;
                0.25;
                0.25;
                inject_Z (Z.of_nat (length (furniture_items self))) / 20;
                (if Qltb 0 (max_x self - min_x self)
                 then (py_sum (map (fun item : Placement => fst (fst item))
                                   individual)
                       / inject_Z (Z.of_nat (length individual)))
                      / (max_x self - min_x self)
                 else 0);
                (if Qltb 0 (max_y self - min_y self)
                 then (py_sum (map (fun item : Placement => snd (fst item))
                                   individual)
                       / inject_Z (Z.of_nat (length individual)))
                      / (max_y self - min_y self)
                 else 0) ])
           (fun score => Ok (score * 100))) /\
    (ml_model self = None -> _get_ml_score forward self individual = Ok 0).
Proof.
  intros G Params forward self individual Hne. split.
  - intros model Hm.
    apply get_ml_score_with_model; [assumption|].
    now apply ml_features_value.
  - apply get_ml_score_without_model.
Qed.

Lemma get_ml_score_features_witness :
  _get_ml_score Demo.net_forward
    (Demo.scored_optimizer Demo.long_room Demo.bedroom)
    [(1, 1, 0%Z); (3, 1, 0%Z); (2, 1, 90%Z)]
  = Ok (1 * 100).
Proof.
  destruct (@get_ml_score_features BoxShapely Demo.Net Demo.net_forward
              (Demo.scored_optimizer Demo.long_room Demo.bedroom)
              [(1, 1, 0%Z); (3, 1, 0%Z); (2, 1, 90%Z)]) as (H & _).
  - discriminate.
  - rewrite (H _ eq_refl). reflexivity.
Defined.

(** In the 4m x 2m room, whose aspect ratio is 2 and which has no doors,
    the vector the code builds carries 1 in the aspect-ratio slot and 0.25
    in the door slot, so it is not the vector of the specification, and a
    model that reads the aspect-ratio slot scores 100 instead of 200. *)
Lemma features_hold_placeholders :
  exists fs fs',
    ml_features (Demo.scored_optimizer Demo.long_room Demo.bedroom)
                [(1, 1, 0%Z); (3, 1, 0%Z); (2, 1, 90%Z)] = Ok fs /\
    ml_features_spec (Demo.scored_optimizer Demo.long_room Demo.bedroom)
                     [(1, 1, 0%Z); (3, 1, 0%Z); (2, 1, 90%Z)] = Ok fs' /\
    nth 1 fs 0 == 1 /\ nth 1 fs' 0 == 2 /\
    nth 2 fs 0 == 0.25 /\ nth 2 fs' 0 == 0 /\
    fs <> fs' /\
    _get_ml_score Demo.net_forward
      (Demo.scored_optimizer Demo.long_room Demo.bedroom)
      [(1, 1, 0%Z); (3, 1, 0%Z); (2, 1, 90%Z)] = Ok (1 * 100).
Proof.
  do 2 eexists.
  split; [vm_compute; reflexivity|].
  split; [vm_compute; reflexivity|].
  repeat split; try reflexivity.
  intro H. discriminate H.
Qed.

(* ===================================================================== *)
(** ** The search returns *)

Lemma fold_py_max_in (rest : list Q) :
  forall x, In (fold_left py_max rest x) (x :: rest).
Proof.
  induction rest as [|y rest IH]; intro x; cbn [fold_left].
  - now left.
  - destruct (IH (py_max x y)) as [H|H].
    + rewrite <- H. unfold py_max. destruct (Qltb x y); cbn; auto.
    + right. now right.
Qed.

Lemma max_list_in (l : list Q) (m : Q) : max_list l = Ok m -> In m l.
Proof.
  destruct l as [|x rest]; [discriminate|].
  cbn. intro H. injection H as <-. apply fold_py_max_in.
Qed.

Lemma list_index_in (l : list Q) (m : Q) :
  In m l -> exists i, list_index l m = Ok i /\ (i < length l)%nat.
Proof.
  induction l as [|x l IH]; intro Hin; [contradiction|].
  cbn [list_index]. destruct (Qeq_bool x m) eqn:E.
  - exists 0%nat. split; [reflexivity | cbn; lia].
  - destruct Hin as [->|Hin].
    + rewrite (proj2 (Qeq_bool_iff m m) (Qeq_refl m)) in E. discriminate.
    + destruct (IH Hin) as (i & -> & Hi).
      exists (S i). split; [reflexivity | cbn; lia].
Qed.

Section SearchReturns.

Variable G : Shapely.
Variable Params : Type.
Variable forward : Params -> bool -> list Q -> Result Q.
Variable self : GeneticOptimizer G Params.

Hypothesis total : never_raises G.
Hypothesis forward_returns : forall p t fs, succeeds (forward p t fs).
Hypothesis same_items :
  fe_furniture_items (evaluator self) = furniture_items self.
Hypothesis two_items : (2 <= length (furniture_items self))%nat.
Hypothesis some_population : (1 <= pop_size self)%nat.

Let n := length (furniture_items self).

Lemma final_score_returns (ind : Layout) :
  length ind = n -> succeeds (final_score forward self ind).
Proof.
  intro Hlen. unfold final_score.
  destruct (@calculate_fitness_refines G (evaluator self) total ind)
    as (geo & -> & _); [now rewrite same_items|].
  cbn [result_bind].
  destruct (ml_model self) as [model|] eqn:Hm; [|eexists; reflexivity].
  assert (Hne : ind <> []).
  { intros ->. cbn in Hlen. unfold n in Hlen. lia. }
  rewrite (@get_ml_score_with_model G Params forward self ind model _ Hm
             (@ml_features_value G Params self ind Hne)).
  destruct (forward_returns (params model) (training model)
              (value [] (ml_features self ind))) as (score & Hs).
  rewrite (@ml_features_value G Params self ind Hne) in Hs. cbn [value] in Hs.
  rewrite Hs. eexists. reflexivity.
Qed.

Lemma evaluation_returns (pop : list Layout) :
  Forall (fun c => length c = n) pop ->
  forall acc,
  exists scores,
    for_each
      (fun scores ind =>
         (s <- final_score forward self ind ;; ret (scores ++ [s]))%result)
      acc pop = Ok scores /\
    length scores = (length acc + length pop)%nat.
Proof.
  induction 1 as [|ind pop Hind Hpop IH]; intro acc; cbn [for_each].
  - exists acc. split; [reflexivity | cbn; lia].
  - destruct (@final_score_returns ind Hind) as (s & ->). cbn [result_bind].
    destruct (IH (acc ++ [s])) as (scores & -> & Hlen).
    exists scores. split; [reflexivity|].
    rewrite Hlen, length_app. cbn. lia.
Qed.

Lemma offspring_length (pop : list Layout) (c : Layout) :
  Forall (fun c => length c = n) pop ->
  offspring self pop c -> length c = n.
Proof.
  intros Hpop (p1 & p2 & c1 & c2 & g1 & g2 & g3 & g4 & Hp1 & Hp2 & Hx & Hm).
  rewrite Forall_forall in Hpop.
  pose proof (Hpop _ Hp1) as L1. pose proof (Hpop _ Hp2) as L2.
  unfold crossover in Hx.
  apply m_bind_inv in Hx. destruct Hx as (point & g' & _ & Hx).
  injection Hx as <- <- _.
  destruct Hm as [Hm|Hm].
  - destruct (@mutate_returns G Params self
                (firstn (Z.to_nat point) p1 ++ skipn (Z.to_nat point) p2) g3)
      as (c' & g'' & Hm' & Hlen).
    rewrite Hm in Hm'. injection Hm' as -> _.
    rewrite Hlen. now apply cut_length.
  - destruct (@mutate_returns G Params self
                (firstn (Z.to_nat point) p2 ++ skipn (Z.to_nat point) p1) g3)
      as (c' & g'' & Hm' & Hlen).
    rewrite Hm in Hm'. injection Hm' as -> _.
    rewrite Hlen. now apply cut_length.
Qed.

Lemma generation_returns (st : SearchState) g :
  well_formed self st ->
  exists st' g', generation forward self st g = Ok (st', g') /\ well_formed self st'.
Proof.
  intros [Hsize Hall]. unfold generation.
  destruct (@evaluation_returns (population st) Hall []) as (scores & Heval & Hlen).
  rewrite (m_bind_ok _ _ _ (lift_ok _ Heval)).
  destruct (max_list scores) as [m|e] eqn:Hmax.
  2:{ destruct scores; [cbn in Hlen; lia | discriminate]. }
  rewrite (m_bind_ok _ _ _ (lift_ok _ eq_refl)).
  assert (Hbest : exists best g1,
             (if exceeds m (best_fitness st)
              then
                (i <- random.lift (list_index scores m) ;;
                 sol <- random.lift (index (population st) i) ;;
                 ret (Some sol, Fin m))%rand
              else (ret (best_solution st, best_fitness st))%rand) g
             = Ok (best, g1)).
  { destruct (exceeds m (best_fitness st)); [|eexists _, _; reflexivity].
    destruct (@list_index_in scores m (@max_list_in scores m Hmax)) as (i & Hi & Hlt).
    rewrite (m_bind_ok _ _ _ (lift_ok _ Hi)).
    destruct (@index_lt _ (population st) i) as (sol & Hsol & _);
      [cbn in Hlen; lia|].
    rewrite (m_bind_ok _ _ _ (lift_ok _ Hsol)).
    eexists _, _. reflexivity. }
  destruct Hbest as (best & g1 & Hbest).
  rewrite (m_bind_ok _ _ _ Hbest).
  destruct (@next_population_returns G Params self (population st) g1
              Hsize two_items) as (new & g2 & Hnext & Hnew & Hoff).
  rewrite (m_bind_ok _ _ _ Hnext).
  eexists _, _. split; [reflexivity|]. split; cbn.
  - exact Hnew.
  - rewrite Forall_forall in Hoff |- *.
    intros c Hc. eapply offspring_length; [exact Hall | apply Hoff; exact Hc].
Qed.

Lemma run_generations_returns (gens : nat) :
  forall st g,
    well_formed self st ->
    exists st' g',
      run_generations forward self gens st g = Ok (st', g') /\
      well_formed self st'.
Proof.
  induction gens as [|gens IH]; intros st g Hst; cbn [run_generations].
  - exists st, g. split; [reflexivity | assumption].
  - destruct (@generation_returns st g Hst) as (st1 & g1 & Hgen & Hst1).
    rewrite (m_bind_ok _ _ _ Hgen). now apply IH.
Qed.

Lemma search_returns g :
  exists st g', search forward self g = Ok (st, g') /\ well_formed self st.
Proof.
  unfold search.
  destruct (@initial_population_returns G Params self g)
    as (pop & g1 & Hinit & Hsize & Hok).
  rewrite (m_bind_ok _ _ _ Hinit).
  apply run_generations_returns. split; cbn [population].
  - exact Hsize.
  - rewrite Forall_forall in Hok |- *. intros c Hc.
    destruct (Hok c Hc) as [Hlen _]. exact Hlen.
Qed.

End SearchReturns.



Section Replacement.

Variable G : Shapely.
Variable Params : Type.
Variable forward : Params -> bool -> list Q -> Result Q.
Variable self : GeneticOptimizer G Params.






End Replacement.


Lemma init_same_items (G : Shapely) (Params : Type) (fresh_params : Params)
      (room : Geom G) (items : list FurnitureItem)
      (population_size gens : nat) (a : Artifact Params) :
  fe_furniture_items
    (evaluator (init G fresh_params room items population_size gens a))
  = furniture_items (init G fresh_params room items population_size gens a).
Proof.
  unfold init. destruct (bounds G room) as [[[minx miny] maxx] maxy].
  destruct a; reflexivity.
Qed.

(** X1.  With at least two furniture items, a population of at least one
    candidate, and a geometry library and a model whose calls return,
    optimize runs all its generations and returns. *)
Theorem optimize_returns :
  forall (G : Shapely) (Params : Type) (fresh_params : Params)
         (forward : Params -> bool -> list Q -> Result Q)
         (room : Geom G) (items : list FurnitureItem)
         (population_size gens : nat) (a : Artifact Params) g,
    never_raises G ->
    (forall p t fs, succeeds (forward p t fs)) ->
    (2 <= length items)%nat ->
    (1 <= population_size)%nat ->
    exists result g',
      optimize forward
        (init G fresh_params room items population_size gens a) g
      = Ok (result, g').
Proof.
  intros G Params fresh_params forward room items population_size gens a g
         Htotal Hfwd Hn Hpop.
  pose proof (init_fields G fresh_params room items population_size gens a)
    as (Hitems & Hsize & _).
  destruct (@search_returns G Params forward
              (init G fresh_params room items population_size gens a)
              Htotal Hfwd (init_same_items _ _ _ _ _ _ _)) with (g := g)
    as (st & g' & Hrun & _).
  - now rewrite Hitems.
  - now rewrite Hsize.
  - unfold optimize. rewrite (m_bind_ok _ _ _ Hrun).
    eexists _, _. reflexivity.
Qed.

Lemma optimize_returns_witness :
  exists result g',
    optimize Demo.net_forward
      (Demo.optimizer Demo.square_room Demo.bedroom 4 2) Demo.tape7
    = Ok (result, g').
Proof.
  apply (@optimize_returns BoxShapely Demo.Net Demo.blank_net Demo.net_forward
           Demo.square_room Demo.bedroom 4 2 (NoFile Demo.Net) Demo.tape7
           box_never_raises).
  - intros p t fs. eexists. reflexivity.
  - cbn. lia.
  - lia.
Defined.

(* ===================================================================== *)
(** ** The scenarios of the specification, run on the box backend *)

(** Two 2m x 2m items both at (2, 2) in the 4m x 4m room: the overlap area
    is 4, the fitness -2000 and the normalized score 0. *)
Example forced_overlap_scenario :
  same_result
    (calculate_overlap_area BoxShapely
       (create_furniture_polygon BoxShapely 2 2 2 2 0)
       (create_furniture_polygon BoxShapely 2 2 2 2 0))
    (Ok 4) /\
  same_result
    (calculate_fitness
       (evaluator
          (Demo.optimizer Demo.square_room
             [Demo.item 2 2 true; Demo.item 2 2 true] 4 1))
       [(2, 2, 0%Z); (2, 2, 0%Z)])
    (Ok (-2000)) /\
  calculate_normalized_score
    (evaluator
       (Demo.optimizer Demo.square_room
          [Demo.item 2 2 true; Demo.item 2 2 true] 4 1))
    (-2000) == 0.
Proof. repeat split. Qed.

(** A single 1m x 1m item at the centre of the 4m x 4m room: the hard
    constraints hold, the fitness is 0 and the normalized score 50. *)
Example trivial_layout_scenario :
  check_hard_constraints
    (opt_constraints
       (Demo.optimizer Demo.square_room [Demo.item 1 1 false] 4 1))
    (create_furniture_polygon BoxShapely 2 2 1 1 0) []
  = Ok true /\
  same_result
    (calculate_fitness
       (evaluator (Demo.optimizer Demo.square_room [Demo.item 1 1 false] 4 1))
       [(2, 2, 0%Z)])
    (Ok 0) /\
  calculate_normalized_score
    (evaluator (Demo.optimizer Demo.square_room [Demo.item 1 1 false] 4 1))
    0 == 50.
Proof. repeat split. Qed.

(* ===================================================================== *)
(** ** Further properties: the random operators *)

Lemma unit_draws_next (g : random.Rng) :
  unit_draws g -> unit_draws (snd (random.next g)).
Proof. intros H k. apply H. Qed.

Lemma uniform_between (a b : Q) (g : random.Rng) :
  unit_draws g -> a <= b ->
  exists v, random.uniform a b g = Ok (v, snd (random.next g)) /\
            a <= v <= b.
Proof.
  intros Hg Hab.
  exists (a + (b - a) * random.unit (random.tape g (random.cursor g))).
  split; [reflexivity|].
  destruct (Hg (random.cursor g)) as [H0 H1].
  set (u := random.unit (random.tape g (random.cursor g))) in *.
  assert (0 <= (b - a) * u) by (apply Qmult_le_0_compat; lra).
  assert ((b - a) * u <= (b - a) * 1).
  { rewrite (Qmult_comm (b - a) u), (Qmult_comm (b - a) 1).
    apply Qmult_le_compat_r; lra. }
  lra.
Qed.

(** A loop that appends one element per iteration and keeps a property of
    the generator. *)
Lemma rand_for_each_append_inv {A B} (body : list B -> A -> random.M (list B))
      (P : A -> B -> Prop) (J : random.Rng -> Prop) :
  (forall acc a g, J g ->
     exists b g', body acc a g = Ok (acc ++ [b], g') /\ P a b /\ J g') ->
  forall xs acc g, J g ->
  exists new g',
    rand_for_each body acc xs g = Ok (acc ++ new, g') /\
    Forall2 P xs new /\ J g'.
Proof.
  intros Hbody xs. induction xs as [|a xs IH]; intros acc g Hg;
    cbn [rand_for_each].
  - exists [], g. rewrite app_nil_r. repeat split; [constructor | assumption].
  - destruct (Hbody acc a g Hg) as (b & g1 & Hb & HP & Hg1).
    rewrite (m_bind_ok _ _ _ Hb).
    destruct (IH (acc ++ [b]) g1 Hg1) as (new & g2 & Hrest & HF & Hg2).
    exists (b :: new), g2. rewrite Hrest, <- app_assoc. cbn.
    repeat split; [now constructor | assumption].
Qed.

(** A loop over the indices [k, k + m) with an invariant that follows the
    index. *)
Lemma rand_for_each_indexed {S} (body : S -> nat -> random.M S)
      (I : nat -> S -> Prop) (J : random.Rng -> Prop) :
  forall m k,
    (forall s i g, (k <= i < k + m)%nat -> J g -> I i s ->
       exists s' g', body s i g = Ok (s', g') /\ I (Datatypes.S i) s' /\ J g') ->
    forall s g, J g -> I k s ->
    exists s' g',
      rand_for_each body s (seq k m) g = Ok (s', g') /\
      I (k + m)%nat s' /\ J g'.
Proof.
  induction m as [|m IH]; intros k Hbody s g Hg Hs; cbn [seq rand_for_each].
  - exists s, g. rewrite Nat.add_0_r. repeat split; assumption.
  - destruct (Hbody s k g) as (s1 & g1 & Hb & Hs1 & Hg1);
      [lia | assumption | assumption |].
    rewrite (m_bind_ok _ _ _ Hb).
    destruct (IH (Datatypes.S k)) with (s := s1) (g := g1)
      as (s' & g' & Hrun & Hs' & Hg'); [|assumption|assumption|].
    + intros s0 i g0 Hi. apply Hbody. lia.
    + exists s', g'. rewrite Hrun.
      replace (k + Datatypes.S m)%nat with (Datatypes.S k + m)%nat by lia.
      repeat split; assumption.
Qed.

Lemma Forall2_of_nth_error {A B} (R : A -> B -> Prop) :
  forall (l1 : list A) (l2 : list B),
    length l1 = length l2 ->
    (forall j a, nth_error l1 j = Some a ->
                 exists b, nth_error l2 j = Some b /\ R a b) ->
    Forall2 R l1 l2.
Proof.
  induction l1 as [|a l1 IH]; intros [|b l2] Hlen H; try discriminate.
  - constructor.
  - constructor.
    + destruct (H 0%nat a eq_refl) as (b' & Hb & HR).
      injection Hb as <-. exact HR.
    + apply IH; [cbn in Hlen; lia|].
      intros j a' Hj. exact (H (Datatypes.S j) a' Hj).
Qed.

Lemma list_set_spec {A} (l : list A) (i : nat) (v : A) :
  (i < length l)%nat ->
  exists l',
    list_set l i v = Ok l' /\ length l' = length l /\
    forall j, nth_error l' j = if (j =? i)%nat then Some v else nth_error l j.
Proof.
  revert i. induction l as [|a l IH]; intros i H; cbn in H; [lia|].
  destruct i as [|i]; cbn [list_set].
  - eexists. split; [reflexivity|]. split; [reflexivity|].
    intros [|j]; reflexivity.
  - destruct (IH i) as (l' & -> & Hlen & Hnth); [lia|].
    cbn [result_bind]. eexists. split; [reflexivity|].
    split; [cbn; now rewrite Hlen|].
    intros [|j]; [reflexivity|]. cbn [nth_error]. rewrite Hnth. reflexivity.
Qed.

(* ===================================================================== *)
(** ** Further properties: creation, crossover, mutation *)

Section CandidateOperators.

Variable G : Shapely.
Variable Params : Type.
Variable self : GeneticOptimizer G Params.

Let items := furniture_items self.

Lemma create_individual_placed g :
  unit_draws g ->
  min_x self <= max_x self ->
  min_y self <= max_y self ->
  exists c g',
    create_individual self g = Ok (c, g') /\
    Forall2 (fun item p => pinned item p /\ in_bounding_box self p /\
                           quarter_turn p) items c /\
    unit_draws g'.
Proof.
  intros Hg Hx Hy. unfold create_individual.
  edestruct (@rand_for_each_append_inv FurnitureItem Placement)
    with (P := fun item p => pinned item p /\ in_bounding_box self p /\
                             quarter_turn p)
         (J := unit_draws)
    as (new & g' & Hrun & HF & Hg'); [| exact Hg | rewrite Hrun].
  - intros acc item g0 Hg0.
    destruct (@uniform_between (min_x self) (max_x self) g0 Hg0 Hx)
      as (x & Hdx & Hxin).
    rewrite (m_bind_ok _ _ _ Hdx).
    pose proof (unit_draws_next Hg0) as Hg1.
    destruct (@uniform_between (min_y self) (max_y self) _ Hg1 Hy)
      as (y & Hdy & Hyin).
    rewrite (m_bind_ok _ _ _ Hdy).
    pose proof (unit_draws_next Hg1) as Hg2.
    destruct (@choice_returns _ ROTATIONS
                (snd (random.next (snd (random.next g0)))))
      as (r & Hr & Hc); [discriminate|].
    destruct (rotatable item) as [[|]|] eqn:Hrot.
    + rewrite (m_bind_ok _ _ _ Hc).
      eexists _, _. split; [reflexivity|].
      split; [|now apply unit_draws_next].
      repeat split; try apply Hxin; try apply Hyin; try exact Hr.
      unfold pinned. rewrite Hrot. discriminate.
    + eexists _, _. split; [reflexivity|].
      split; [|exact Hg2].
      repeat split; try apply Hxin; try apply Hyin.
      * unfold quarter_turn. cbn. now left.
    + rewrite (m_bind_ok _ _ _ Hc).
      eexists _, _. split; [reflexivity|].
      split; [|now apply unit_draws_next].
      repeat split; try apply Hxin; try apply Hyin; try exact Hr.
      unfold pinned. rewrite Hrot. discriminate.
  - exists new, g'. split; [reflexivity|]. split; assumption.
Qed.

Lemma nth_error_cut {A} (k : nat) (l1 l2 : list A) (i : nat) :
  (k <= length l1)%nat ->
  nth_error (firstn k l1 ++ skipn k l2) i
  = if (i <? k)%nat then nth_error l1 i else nth_error l2 i.
Proof.
  intro Hk.
  assert (Hlen : length (firstn k l1) = k) by (rewrite length_firstn; lia).
  destruct (Nat.ltb_spec i k) as [Hlt|Hge].
  - rewrite nth_error_app1 by lia.
    rewrite <- (firstn_skipn k l1) at 2.
    rewrite nth_error_app1 by lia. reflexivity.
  - rewrite nth_error_app2 by lia. rewrite Hlen.
    rewrite nth_error_skipn. f_equal. lia.
Qed.

Lemma cut_cut {A} (k : nat) (l1 l2 : list A) :
  (k <= length l1)%nat -> (k <= length l2)%nat ->
  firstn k (firstn k l1 ++ skipn k l2) ++ skipn k (firstn k l2 ++ skipn k l1)
  = l1.
Proof.
  intros H1 H2.
  assert (L1 : length (firstn k l1) = k) by (rewrite length_firstn; lia).
  assert (L2 : length (firstn k l2) = k) by (rewrite length_firstn; lia).
  rewrite firstn_app, L1, Nat.sub_diag, firstn_O, app_nil_r.
  rewrite firstn_firstn, Nat.min_id.
  rewrite skipn_app, L2, Nat.sub_diag, skipn_O.
  rewrite (skipn_all2 (firstn k l2)) by lia.
  cbn [app]. apply firstn_skipn.
Qed.

End CandidateOperators.

Lemma nudged_refl (p : Placement) : nudged p p.
Proof. unfold nudged. repeat split; try lra. now left. Qed.

Lemma mutate_with_nudges (rate : Q) (ind : Layout) g :
  unit_draws g ->
  exists ind' g',
    mutate_with rate ind g = Ok (ind', g') /\
    Forall2 nudged ind ind' /\ unit_draws g'.
Proof.
  intro Hg. unfold mutate_with, range. rewrite Nat.sub_0_r.
  set (I := fun (i : nat) (s : Layout) =>
              length s = length ind /\
              forall j p, nth_error ind j = Some p ->
                exists p', nth_error s j = Some p' /\
                           if (j <? i)%nat then nudged p p' else p' = p).
  edestruct (@rand_for_each_indexed Layout) with (I := I) (J := unit_draws)
    (m := length ind) (k := 0%nat) (s := ind) (g := g)
    as (ind' & g' & Hrun & [Hlen Hnth] & Hg');
    [| exact Hg | | exists ind', g'; split; [exact Hrun|]; split; [|exact Hg'] ].
  - (* one iteration *)
    intros s i g0 Hi Hg0 [Hslen Hs].
    rewrite (m_bind_ok _ _ _ (random_returns g0)).
    pose proof (unit_draws_next Hg0) as Hg1.
    set (g1 := snd (random.next g0)) in *.
    destruct (nth_error ind i) as [p|] eqn:Hp.
    2:{ apply nth_error_None in Hp. lia. }
    destruct (Hs i p Hp) as (p0 & Hs0 & Heq).
    rewrite Nat.ltb_irrefl in Heq. subst p0.
    destruct (Qltb _ rate).
    + assert (Hix : index s i = Ok p) by (unfold index; now rewrite Hs0).
      destruct p as [[x y] rot].
      rewrite (m_bind_ok _ _ _ (lift_ok _ Hix)).
      destruct (@uniform_between (-0.5) 0.5 g1 Hg1) as (dx & Hdx & Hdxin);
        [lra|].
      rewrite (m_bind_ok _ _ _ Hdx).
      pose proof (unit_draws_next Hg1) as Hg2.
      set (g2 := snd (random.next g1)) in *.
      destruct (@uniform_between (-0.5) 0.5 g2 Hg2) as (dy & Hdy & Hdyin);
        [lra|].
      rewrite (m_bind_ok _ _ _ Hdy).
      pose proof (unit_draws_next Hg2) as Hg3.
      set (g3 := snd (random.next g2)) in *.
      rewrite (m_bind_ok _ _ _ (random_returns g3)).
      pose proof (unit_draws_next Hg3) as Hg4.
      set (g4 := snd (random.next g3)) in *.
      destruct (@choice_returns _ ROTATIONS g4) as (r & Hr & Hc);
        [discriminate|].
      assert (Hstep : forall rot' g5,
                 (rot' = rot \/ In rot' ROTATIONS) -> unit_draws g5 ->
                 exists s' g',
                   random.lift (list_set s i (x + dx, y + dy, rot')) g5
                   = Ok (s', g') /\ I (S i) s' /\ unit_draws g').
      { intros rot' g5 Hrot Hg5.
        destruct (@list_set_spec _ s i (x + dx, y + dy, rot'))
          as (s' & Hset & Hlen' & Hnth'); [lia|].
        exists s', g5. split; [apply lift_ok; exact Hset|].
        split; [|exact Hg5]. split; [congruence|].
        intros j q Hq. rewrite Hnth'.
        destruct (Nat.eqb_spec j i) as [->|Hne].
        - exists (x + dx, y + dy, rot'). split; [reflexivity|].
          rewrite (proj2 (Nat.ltb_lt i (S i))) by lia.
          assert (q = (x, y, rot)) by congruence. subst q.
          unfold nudged. cbn. repeat split; try lra. exact Hrot.
        - destruct (Hs j q Hq) as (q' & Hq' & Hrel).
          exists q'. split; [exact Hq'|].
          destruct (Nat.ltb_spec j i) as [Hlt|Hge].
          + rewrite (proj2 (Nat.ltb_lt j (S i))) by lia. exact Hrel.
          + rewrite (proj2 (Nat.ltb_ge j (S i))) by lia. exact Hrel. }
      destruct (Qltb _ 0.5).
      * rewrite (m_bind_ok _ _ _ Hc).
        apply Hstep; [now right | now apply unit_draws_next].
      * unfold random.m_bind at 1. unfold random.m_ret at 1.
        apply Hstep; [now left | exact Hg4].
    + exists s, g1. split; [reflexivity|]. split; [|exact Hg1].
      split; [exact Hslen|].
      intros j q Hq. destruct (Hs j q Hq) as (q' & Hq' & Hrel).
      exists q'. split; [exact Hq'|].
      destruct (Nat.eqb_spec j i) as [->|Hne].
      * rewrite (proj2 (Nat.ltb_lt i (S i))) by lia.
        rewrite Nat.ltb_irrefl in Hrel. subst q'. apply nudged_refl.
      * destruct (Nat.ltb_spec j i) as [Hlt|Hge].
        -- rewrite (proj2 (Nat.ltb_lt j (S i))) by lia. exact Hrel.
        -- rewrite (proj2 (Nat.ltb_ge j (S i))) by lia. exact Hrel.
  - (* the invariant holds at the start *)
    split; [reflexivity|]. intros j p Hp. exists p. split; [exact Hp|].
    reflexivity.
  - (* and gives the relation at the end *)
    apply Forall2_of_nth_error; [now symmetry|].
    intros j p Hp. destruct (Hnth j p Hp) as (p' & Hp' & Hrel).
    exists p'. split; [exact Hp'|].
    assert (Hj : (j < length ind)%nat).
    { apply nth_error_Some. congruence. }
    cbn [Nat.add] in Hrel.
    rewrite (proj2 (Nat.ltb_lt j (length ind)) Hj) in Hrel. exact Hrel.
Qed.

Lemma mutate_with_idle (rate : Q) (ind : Layout) :
  forall g,
    (forall k, rate <= random.unit (random.tape g k)) ->
    mutate_with rate ind g = Ok (ind, skip_draws (length ind) g).
Proof.
  unfold mutate_with, range. rewrite Nat.sub_0_r.
  match goal with
  | |- context [rand_for_each ?b _ _] => set (body := b)
  end.
  assert (Hbody : forall (s : Layout) (i : nat) g,
             (forall k, rate <= random.unit (random.tape g k)) ->
             body s i g = Ok (s, snd (random.next g))).
  { intros s i g Hg. unfold body.
    rewrite (m_bind_ok _ _ _ (random_returns g)).
    cbn [fst snd random.next].
    rewrite (proj2 (Qltb_ge _ _) (Hg (random.cursor g))). reflexivity. }
  generalize 0%nat as k. generalize (length ind) as m.
  induction m as [|m IH]; intros k g Hg; cbn [seq rand_for_each].
  - unfold random.m_ret, skip_draws. rewrite Nat.add_0_r.
    destruct g; reflexivity.
  - rewrite (m_bind_ok _ _ _ (Hbody ind k g Hg)).
    rewrite IH by (intro j; apply Hg).
    unfold skip_draws. cbn. do 2 f_equal. f_equal. lia.
Qed.

Lemma tape7_unit_draws : unit_draws Demo.tape7.
Proof.
  intro k. unfold Demo.tape7. cbn [random.unit random.tape].
  pose proof (Nat.mod_upper_bound k 10) as Hm.
  assert (H0 : 0 <= inject_Z (Z.of_nat (k mod 10)))
    by apply inject_Z_of_nat_nonneg.
  assert (H1 : inject_Z (Z.of_nat (k mod 10)) < 10).
  { change 10 with (inject_Z 10). rewrite <- Zlt_Qlt. lia. }
  split.
  - apply Qle_shift_div_l; lra.
  - apply Qlt_shift_div_r; lra.
Qed.

(** X2.  create_individual returns one placement per furniture item, each
    inside the bounding box of the room (when random() yields values of
    [0, 1)), each with a rotation of 0, 90, 180 or 270, and rotation 0 for
    every item that is not rotatable. *)
Theorem create_individual_in_bounding_box :
  forall (G : Shapely) (Params : Type) (self : GeneticOptimizer G Params) g,
    unit_draws g ->
    min_x self <= max_x self ->
    min_y self <= max_y self ->
    exists c g',
      create_individual self g = Ok (c, g') /\
      candidate_ok (furniture_items self) c /\
      Forall (in_bounding_box self) c /\
      Forall quarter_turn c.
Proof.
  intros G Params self g Hg Hx Hy.
  destruct (@create_individual_placed G Params self g Hg Hx Hy)
    as (c & g' & Hrun & HF & _).
  exists c, g'. split; [exact Hrun|].
  split; [split|split].
  - symmetry. eapply Forall2_length. exact HF.
  - clear Hrun. induction HF as [|? ? ? ? [H _]]; constructor; assumption.
  - clear Hrun. induction HF as [|? ? ? ? (_ & H & _)]; constructor; assumption.
  - clear Hrun. induction HF as [|? ? ? ? (_ & _ & H)]; constructor; assumption.
Qed.

Lemma create_individual_in_bounding_box_witness :
  exists c g',
    create_individual (Demo.optimizer Demo.square_room Demo.bedroom 4 1)
                      Demo.tape7 = Ok (c, g') /\
    Forall (in_bounding_box
              (Demo.optimizer Demo.square_room Demo.bedroom 4 1)) c.
Proof.
  destruct (@create_individual_in_bounding_box BoxShapely Demo.Net
              (Demo.optimizer Demo.square_room Demo.bedroom 4 1)
              Demo.tape7 tape7_unit_draws)
    as (c & g' & Hrun & _ & Hbox & _).
  - cbn. discriminate.
  - cbn. discriminate.
  - exists c, g'. split; assumption.
Defined.

(** X3.  crossover keeps the candidate invariant: for two parents with one
    placement per item and non-rotatable items at rotation 0, both children
    have them too, and at every position the two children hold the two
    parents' genes of that position, in one order or the other. *)
Theorem crossover_keeps_positions :
  forall (G : Shapely) (Params : Type) (self : GeneticOptimizer G Params)
         (parent1 parent2 : Layout) g,
    (2 <= length (furniture_items self))%nat ->
    candidate_ok (furniture_items self) parent1 ->
    candidate_ok (furniture_items self) parent2 ->
    exists child1 child2 g',
      crossover self parent1 parent2 g = Ok ((child1, child2), g') /\
      candidate_ok (furniture_items self) child1 /\
      candidate_ok (furniture_items self) child2 /\
      forall i,
        (nth_error child1 i = nth_error parent1 i /\
         nth_error child2 i = nth_error parent2 i) \/
        (nth_error child1 i = nth_error parent2 i /\
         nth_error child2 i = nth_error parent1 i).
Proof.
  intros G Params self p1 p2 g Hn Hok1 Hok2.
  destruct (@crossover_returns G Params self p1 p2 g Hn)
    as (point & g' & Hrange & _ & Hx).
  do 3 eexists. split; [exact Hx|].
  split; [now apply cut_candidate_ok|].
  split; [now apply cut_candidate_ok|].
  destruct Hok1 as [L1 _], Hok2 as [L2 _].
  intro i. rewrite !nth_error_cut by lia.
  destruct (i <? point)%nat; [left | right]; split; reflexivity.
Qed.

Lemma crossover_keeps_positions_witness :
  exists child1 child2 g',
    crossover (Demo.optimizer Demo.square_room Demo.studio 4 1)
              Demo.parent_a Demo.parent_b Demo.tape7
    = Ok ((child1, child2), g') /\
    candidate_ok Demo.studio child1 /\ candidate_ok Demo.studio child2.
Proof.
  destruct (@crossover_keeps_positions BoxShapely Demo.Net
              (Demo.optimizer Demo.square_room Demo.studio 4 1)
              Demo.parent_a Demo.parent_b Demo.tape7)
    as (c1 & c2 & g' & Hx & H1 & H2 & _).
  - cbn. lia.
  - split; [reflexivity|]. repeat constructor; discriminate.
  - split; [reflexivity|]. repeat constructor; discriminate.
  - exists c1, c2, g'. repeat split; try assumption; apply H1 || apply H2.
Defined.

(** X4.  crossover is undone by itself: crossing the two children again
    with the same random draw gives back the two parents; and crossing a
    parent with itself returns it twice. *)
Theorem crossover_round_trip :
  forall (G : Shapely) (Params : Type) (self : GeneticOptimizer G Params)
         (parent1 parent2 : Layout) g,
    (2 <= length (furniture_items self))%nat ->
    length parent1 = length (furniture_items self) ->
    length parent2 = length (furniture_items self) ->
    exists child1 child2 g',
      crossover self parent1 parent2 g = Ok ((child1, child2), g') /\
      crossover self child1 child2 g = Ok ((parent1, parent2), g') /\
      (parent1 = parent2 -> child1 = parent1 /\ child2 = parent1).
Proof.
  intros G Params self p1 p2 g Hn L1 L2.
  destruct (@crossover_returns G Params self p1 p2 g Hn)
    as (point & g' & Hrange & Hdraw & Hx).
  do 3 eexists. split; [exact Hx|]. split.
  - rewrite (@crossover_cut G Params self _ _ _ _ _ Hdraw).
    rewrite Nat2Z.id, !cut_cut by lia. reflexivity.
  - intros <-. rewrite firstn_skipn. split; reflexivity.
Qed.

Lemma crossover_round_trip_witness :
  exists child1 child2 g',
    crossover (Demo.optimizer Demo.square_room Demo.studio 4 1)
              Demo.parent_a Demo.parent_b Demo.tape7
    = Ok ((child1, child2), g') /\
    crossover (Demo.optimizer Demo.square_room Demo.studio 4 1)
              child1 child2 Demo.tape7
    = Ok ((Demo.parent_a, Demo.parent_b), g').
Proof.
  destruct (@crossover_round_trip BoxShapely Demo.Net
              (Demo.optimizer Demo.square_room Demo.studio 4 1)
              Demo.parent_a Demo.parent_b Demo.tape7)
    as (c1 & c2 & g' & H1 & H2 & _).
  - cbn. lia.
  - reflexivity.
  - reflexivity.
  - exists c1, c2, g'. split; assumption.
Defined.

(** X5.  mutate returns a layout of the same length in which every gene is
    the old one moved by at most 0.5 along x and along y (when random()
    yields values of [0, 1)), with its old rotation or one of 0, 90, 180,
    270; so rotations that were quarter turns stay quarter turns. *)
Theorem mutate_nudges_genes :
  forall (G : Shapely) (Params : Type) (self : GeneticOptimizer G Params)
         (individual : Layout) g,
    unit_draws g ->
    exists individual' g',
      mutate self individual g = Ok (individual', g') /\
      length individual' = length individual /\
      Forall2 nudged individual individual' /\
      (Forall quarter_turn individual -> Forall quarter_turn individual').
Proof.
  intros G Params self ind g Hg.
  destruct (@mutate_with_nudges 0.1 ind g Hg) as (ind' & g' & Hrun & HF & _).
  exists ind', g'. split; [exact Hrun|].
  split; [symmetry; eapply Forall2_length; exact HF|].
  split; [exact HF|].
  clear Hrun. induction HF as [|p p' l l' Hpp HF IH]; intro Hq.
  - constructor.
  - inversion Hq as [|? ? Hp Hl]; subst. constructor; [|now apply IH].
    destruct Hpp as (_ & _ & [Hrot|Hrot]); unfold quarter_turn;
      [rewrite Hrot; exact Hp | exact Hrot].
Qed.

Lemma mutate_nudges_genes_witness :
  exists individual' g',
    mutate (Demo.optimizer Demo.square_room Demo.studio 4 1)
           Demo.parent_a Demo.tape7 = Ok (individual', g') /\
    Forall2 nudged Demo.parent_a individual'.
Proof.
  destruct (@mutate_nudges_genes BoxShapely Demo.Net
              (Demo.optimizer Demo.square_room Demo.studio 4 1)
              Demo.parent_a Demo.tape7 tape7_unit_draws)
    as (ind' & g' & Hrun & _ & HF & _).
  exists ind', g'. split; assumption.
Defined.

(** X6.  A gene is only touched when its draw of random() falls below the
    mutation rate: when no draw does (as with mutation_rate = 0), mutate
    returns the individual unchanged after one draw per gene. *)
Theorem mutate_idle_without_low_draw :
  forall (mutation_rate : Q) (individual : Layout) g,
    (forall k, mutation_rate <= random.unit (random.tape g k)) ->
    mutate_with mutation_rate individual g
    = Ok (individual, skip_draws (length individual) g).
Proof.
  intros rate ind g Hg. now apply mutate_with_idle.
Qed.

Lemma mutate_idle_without_low_draw_witness :
  mutate_with 0 Demo.parent_a Demo.tape7
  = Ok (Demo.parent_a, skip_draws 4 Demo.tape7).
Proof.
  apply (@mutate_idle_without_low_draw 0 Demo.parent_a Demo.tape7).
  intro k. apply tape7_unit_draws.
Defined.

(* ===================================================================== *)
(** ** Further properties: the fitness function *)

Lemma for_each_ext_in {S A} (f g : S -> A -> Result S) (xs : list A) :
  (forall s x, In x xs -> f s x = g s x) ->
  forall s, for_each f s xs = for_each g s xs.
Proof.
  induction xs as [|x xs IH]; intros H s; cbn [for_each]; [reflexivity|].
  rewrite (H s x) by now left.
  destruct (g s x) as [s'|e]; cbn [result_bind]; [|reflexivity].
  apply IH. intros s0 x0 Hin. apply H. now right.
Qed.

Lemma count_le_length {A} (f : A -> bool) (l : list A) :
  count f l <= inject_Z (Z.of_nat (length l)).
Proof.
  unfold count. rewrite <- Zle_Qle. apply inj_le. apply filter_length_le.
Qed.

Lemma count_zero_iff {A} (f : A -> bool) (l : list A) :
  count f l <= 0 <-> Forall (fun a => f a = false) l.
Proof.
  induction l as [|a l IH].
  - split; [constructor | intros _; rewrite count_nil; lra].
  - rewrite count_cons. pose proof (count_nonneg f l) as Hnn. split.
    + intro H. destruct (f a) eqn:E; [lra|].
      constructor; [exact E | apply IH; lra].
    + intro H. inversion H as [|? ? Ha Hl]; subst. rewrite Ha.
      apply IH in Hl. lra.
Qed.

Section FitnessFacts.

Variable G : Shapely.
Variable self : FitnessEvaluator G.
Hypothesis total : never_raises G.

Let items := fe_furniture_items self.

Lemma footprints_length (layout : Layout) :
  length layout = length items ->
  length (footprints self layout) = length items.
Proof.
  intro H. unfold footprints. fold items.
  rewrite length_map, length_combine. lia.
Qed.

Lemma overlaps_with_zero_iff (p : Geom G) (rest : list (Geom G)) :
  overlaps_with G p rest <= 0 <-> Forall (fun q => overlap G p q <= 0) rest.
Proof.
  induction rest as [|q rest IH]; cbn [overlaps_with].
  - split; [constructor | lra].
  - pose proof (overlaps_with_nonneg G p rest) as Hnn.
    destruct (Qltb 0 (overlap G p q)) eqn:E.
    + apply Qltb_lt in E. split.
      * intro H. lra.
      * intro H. inversion H; subst. lra.
    + apply Qltb_ge in E. split.
      * intro H. constructor; [exact E | apply IH; lra].
      * intro H. inversion H; subst. apply IH in H3. lra.
Qed.

Lemma pair_penalty_zero_iff (polys : list (Geom G)) :
  pair_penalty G polys <= 0 <->
  ForallOrdPairs (fun p q => overlap G p q <= 0) polys.
Proof.
  induction polys as [|p polys IH]; cbn [pair_penalty].
  - split; [constructor | lra].
  - pose proof (overlaps_with_nonneg G p polys) as H1.
    pose proof (pair_penalty_nonneg G polys) as H2. split.
    + intro H. constructor.
      * apply overlaps_with_zero_iff. lra.
      * apply IH. lra.
    + intro H. inversion H as [|? ? Hp Hl]; subst.
      apply overlaps_with_zero_iff in Hp. apply IH in Hl. lra.
Qed.

Lemma penalty_zero_iff (layout : Layout) :
  penalty_spec self layout <= 0 <-> feasible self layout.
Proof.
  unfold penalty_spec, feasible.
  pose proof (count_nonneg (outside_room self) (footprints self layout)) as H1.
  pose proof (pair_penalty_nonneg G (footprints self layout)) as H2.
  rewrite <- count_zero_iff, <- pair_penalty_zero_iff.
  split; [intro H; split; lra | intros [Ha Hb]; lra].
Qed.

(** The value of the fitness against feasibility. *)
Lemma fitness_against_feasibility (layout : Layout) :
  length layout = length items ->
  exists v,
    calculate_fitness self layout = Ok v /\
    (feasible self layout ->
       0 <= v <= 10 * inject_Z (Z.of_nat (length items))) /\
    (~ feasible self layout -> v < 0) /\
    (~ Forall (fun p => outside_room self p = false)
         (footprints self layout) -> v <= - (1000)).
Proof.
  intro Hlen.
  destruct (@calculate_fitness_refines G self total layout Hlen)
    as (v & Hrun & Hv).
  exists v. split; [exact Hrun|].
  unfold fitness_spec in Hv.
  pose proof (penalty_zero_iff layout) as Hfeas.
  pose proof (count_nonneg (outside_room self) (footprints self layout)) as C1.
  pose proof (pair_penalty_nonneg G (footprints self layout)) as C2.
  destruct (Qltb 0 (penalty_spec self layout)) eqn:E.
  - apply Qltb_lt in E. repeat split.
    + apply Hfeas in H. lra.
    + apply Hfeas in H. lra.
    + intros _. lra.
    + intro Hout. rewrite Hv. unfold penalty_spec.
      assert (1 <= count (outside_room self) (footprints self layout)).
      { destruct (Qlt_le_dec
                    (count (outside_room self) (footprints self layout)) 1)
          as [Hlt|Hge]; [|exact Hge].
        exfalso. apply Hout. apply count_zero_iff.
        unfold count in *. revert Hlt.
        change 1 with (inject_Z 1). change 0 with (inject_Z 0).
        rewrite <- Zlt_Qlt, <- Zle_Qle. lia. }
      lra.
  - apply Qltb_ge in E. repeat split.
    + rewrite Hv.
      pose proof (count_nonneg (near_wall self) (footprints self layout)). lra.
    + rewrite Hv.
      pose proof (count_le_length (near_wall self) (footprints self layout))
        as Hc.
      rewrite (footprints_length layout Hlen) in Hc. lra.
    + intro Hn. exfalso. apply Hn, Hfeas, E.
    + intro Hout. exfalso. apply Hout.
      apply Hfeas in E. apply E.
Qed.

Lemma boundary_pass_short (layout : Layout) :
  (length layout < length items)%nat ->
  boundary_pass self layout = Raise IndexError.
Proof.
  intro Hshort. unfold boundary_pass, enumerate. fold items.
  match goal with
  | |- context [for_each ?b _ _] => set (body := b)
  end.
  assert (Hloop : forall (its : list FurnitureItem) (lay pre : Layout)
                         (st : Q * list (Geom G)) (k : nat),
             layout = pre ++ lay -> length pre = k ->
             (length lay < length its)%nat ->
             for_each body st (combine (seq k (length its)) its)
             = Raise IndexError).
  { induction its as [|item its IH]; intros lay pre [pen polys] k Hlay Hpre Hlt;
      [cbn in Hlt; lia|].
    cbn [length seq combine for_each].
    destruct lay as [|[[x y] rot] lay].
    - assert (Hix : index layout k = Raise IndexError).
      { unfold index. subst layout k. rewrite app_nil_r.
        rewrite (proj2 (nth_error_None pre (length pre))) by lia.
        reflexivity. }
      unfold body at 1. rewrite Hix. reflexivity.
    - assert (Hix : index layout k = Ok (x, y, rot)).
      { unfold index. subst layout k.
        rewrite nth_error_app2 by lia. rewrite Nat.sub_diag. reflexivity. }
      unfold body at 1. rewrite Hix. cbn [result_bind].
      rewrite (check_boundary_total self total). cbn [result_bind].
      apply (IH lay (pre ++ [(x, y, rot)])).
      + rewrite <- app_assoc. exact Hlay.
      + rewrite length_app. cbn. lia.
      + cbn in Hlt. lia. }
  apply (Hloop items layout []); [reflexivity | reflexivity | exact Hshort].
Qed.

End FitnessFacts.

Lemma boundary_pass_prefix (G : Shapely) (self : FitnessEvaluator G)
      (layout extra : Layout) :
  (length (fe_furniture_items self) <= length layout)%nat ->
  boundary_pass self (layout ++ extra) = boundary_pass self layout.
Proof.
  intro Hlen. unfold boundary_pass. apply for_each_ext_in.
  intros [pen polys] [i item] Hin.
  unfold enumerate in Hin. apply in_combine_l in Hin. apply in_seq in Hin.
  unfold index. rewrite nth_error_app1 by lia. reflexivity.
Qed.

(** X7.  calculate_fitness reads layout[i] for every furniture item: a
    layout with fewer placements than furniture items raises IndexError
    (when the shapely queries return). *)
Theorem calculate_fitness_short_layout :
  forall (G : Shapely) (self : FitnessEvaluator G) (layout : Layout),
    never_raises G ->
    (length layout < length (fe_furniture_items self))%nat ->
    calculate_fitness self layout = Raise IndexError.
Proof.
  intros G self layout total Hshort. unfold calculate_fitness.
  rewrite (boundary_pass_short self total layout Hshort). reflexivity.
Qed.

Lemma calculate_fitness_short_layout_witness :
  calculate_fitness
    (evaluator (Demo.optimizer Demo.square_room Demo.two_chairs 4 1))
    [(1, 1, 0%Z)]
  = Raise IndexError.
Proof.
  apply (@calculate_fitness_short_layout BoxShapely
           (evaluator (Demo.optimizer Demo.square_room Demo.two_chairs 4 1))
           [(1, 1, 0%Z)] box_never_raises).
  cbn. lia.
Defined.

(** X8.  calculate_fitness only reads the first len(furniture_items)
    placements: placements appended after them do not change the result,
    whatever the geometry library does. *)
Theorem calculate_fitness_ignores_surplus :
  forall (G : Shapely) (self : FitnessEvaluator G) (layout extra : Layout),
    (length (fe_furniture_items self) <= length layout)%nat ->
    calculate_fitness self (layout ++ extra) = calculate_fitness self layout.
Proof.
  intros G self layout extra Hlen. unfold calculate_fitness.
  now rewrite boundary_pass_prefix.
Qed.

Lemma calculate_fitness_ignores_surplus_witness :
  calculate_fitness
    (evaluator (Demo.optimizer Demo.square_room Demo.two_chairs 4 1))
    (Demo.grazing_layout ++ [(9, 9, 90%Z)])
  = calculate_fitness
      (evaluator (Demo.optimizer Demo.square_room Demo.two_chairs 4 1))
      Demo.grazing_layout.
Proof.
  apply (@calculate_fitness_ignores_surplus BoxShapely
           (evaluator (Demo.optimizer Demo.square_room Demo.two_chairs 4 1))
           Demo.grazing_layout [(9, 9, 90%Z)]).
  cbn. lia.
Defined.

(** X9.  The sign of the fitness is feasibility: for a layout with one
    placement per item (and shapely queries that return), the fitness is
    between 0 and 10 * len(furniture_items) exactly when every footprint is
    contained in the room and no two footprints have a positive overlap
    area, and negative otherwise; one footprint outside the room already
    brings it to -1000 or below. *)
Theorem fitness_sign_is_feasibility :
  forall (G : Shapely) (self : FitnessEvaluator G) (layout : Layout),
    never_raises G ->
    length layout = length (fe_furniture_items self) ->
    exists v,
      calculate_fitness self layout = Ok v /\
      (0 <= v <-> feasible self layout) /\
      (feasible self layout ->
         v <= 10 * inject_Z (Z.of_nat (length (fe_furniture_items self)))) /\
      (~ Forall (fun p => outside_room self p = false)
           (footprints self layout) -> v <= - (1000)).
Proof.
  intros G self layout total Hlen.
  destruct (@fitness_against_feasibility G self total layout Hlen)
    as (v & Hrun & Hfeas & Hinf & Hout).
  exists v. split; [exact Hrun|]. split; [split|split].
  - intro Hv. destruct (@penalty_zero_iff G self layout) as [H1 H2].
    destruct (Qlt_le_dec 0 (penalty_spec self layout)) as [Hpos|Hzero].
    + exfalso.
      assert (Hn : ~ feasible self layout).
      { intro Hf. apply H2 in Hf. lra. }
      apply Hinf in Hn. lra.
    + now apply H1.
  - intro Hf. now apply Hfeas.
  - intro Hf. now apply Hfeas.
  - exact Hout.
Qed.

Lemma fitness_sign_is_feasibility_witness :
  exists v,
    calculate_fitness
      (evaluator (Demo.optimizer Demo.square_room Demo.two_chairs 4 1))
      Demo.grazing_layout = Ok v /\
    (0 <= v <->
     feasible
       (evaluator (Demo.optimizer Demo.square_room Demo.two_chairs 4 1))
       Demo.grazing_layout).
Proof.
  destruct (@fitness_sign_is_feasibility BoxShapely
              (evaluator (Demo.optimizer Demo.square_room Demo.two_chairs 4 1))
              Demo.grazing_layout box_never_raises eq_refl)
    as (v & Hrun & Hiff & _).
  exists v. split; assumption.
Defined.

(* ===================================================================== *)
(** ** Further properties: the normalized score *)

Section NormalizedFacts.

Variable G : Shapely.
Variable self : FitnessEvaluator G.

Lemma normalized_feasible_ge_50 (raw : Q) :
  0 <= raw -> 50 <= calculate_normalized_score self raw.
Proof.
  intro H.
  destruct (Nat.eq_dec (length (fe_furniture_items self)) 0) as [Hn|Hn].
  - rewrite (@normalized_no_items G self raw H Hn). lra.
  - rewrite (@normalized_feasible G self raw H Hn).
    pose proof (@max_score_pos G self Hn) as Hd.
    assert (0 <= raw / inject_Z (Z.of_nat (length (fe_furniture_items self)) * 10))
      by (apply Qle_shift_div_l; [assumption | lra]).
    destruct (py_min_spec 100
                (50 + raw / inject_Z
                        (Z.of_nat (length (fe_furniture_items self)) * 10) * 50))
      as [[Hm ->]|[Hm ->]]; lra.
Qed.

Lemma normalized_infeasible_le_50 (raw : Q) :
  raw < 0 -> calculate_normalized_score self raw <= 50.
Proof.
  intro H. rewrite (@normalized_negative G self raw H).
  destruct (py_max_spec 0 (50 + raw * 0.1)) as [[Hm ->]|[Hm ->]]; lra.
Qed.

Lemma normalized_monotone (a b : Q) :
  a <= b ->
  calculate_normalized_score self a <= calculate_normalized_score self b.
Proof.
  intro Hab.
  destruct (Qlt_le_dec b 0) as [Hb|Hb].
  - (* both negative *)
    rewrite (@normalized_negative G self a) by lra.
    rewrite (@normalized_negative G self b) by lra.
    destruct (py_max_spec 0 (50 + a * 0.1)) as [[H1 ->]|[H1 ->]];
      destruct (py_max_spec 0 (50 + b * 0.1)) as [[H2 ->]|[H2 ->]]; lra.
  - destruct (Qlt_le_dec a 0) as [Ha|Ha].
    + pose proof (normalized_infeasible_le_50 Ha).
      pose proof (normalized_feasible_ge_50 Hb). lra.
    + destruct (Nat.eq_dec (length (fe_furniture_items self)) 0) as [Hn|Hn].
      * rewrite (@normalized_no_items G self a Ha Hn).
        rewrite (@normalized_no_items G self b Hb Hn). lra.
      * rewrite (@normalized_feasible G self a Ha Hn).
        rewrite (@normalized_feasible G self b Hb Hn).
        pose proof (@max_score_pos G self Hn) as Hd.
        set (d := inject_Z (Z.of_nat (length (fe_furniture_items self)) * 10))
          in *.
        assert (a / d <= b / d).
        { unfold Qdiv. apply Qmult_le_compat_r; [assumption|].
          apply Qlt_le_weak, Qinv_lt_0_compat, Hd. }
        destruct (py_min_spec 100 (50 + a / d * 50)) as [[H1 ->]|[H1 ->]];
          destruct (py_min_spec 100 (50 + b / d * 50)) as [[H2 ->]|[H2 ->]];
          lra.
Qed.

End NormalizedFacts.

(** X10.  The normalized score of a layout's fitness splits at 50: for a
    layout with one placement per item (and shapely queries that return) it
    lies in [50, 100] when the layout is feasible and in [0, 50]
    otherwise. *)
Theorem normalized_fitness_splits_at_50 :
  forall (G : Shapely) (self : FitnessEvaluator G) (layout : Layout),
    never_raises G ->
    length layout = length (fe_furniture_items self) ->
    exists v,
      calculate_fitness self layout = Ok v /\
      (feasible self layout ->
         50 <= calculate_normalized_score self v <= 100) /\
      (~ feasible self layout ->
         0 <= calculate_normalized_score self v <= 50).
Proof.
  intros G self layout total Hlen.
  destruct (@fitness_against_feasibility G self total layout Hlen)
    as (v & Hrun & Hfeas & Hinf & _).
  exists v. split; [exact Hrun|].
  pose proof (@normalized_range G self v) as Hrange. split.
  - intro Hf. split; [|apply Hrange].
    apply normalized_feasible_ge_50. now apply Hfeas.
  - intro Hf. split; [apply Hrange|].
    apply normalized_infeasible_le_50. now apply Hinf.
Qed.

Lemma normalized_fitness_splits_at_50_witness :
  exists v,
    calculate_fitness
      (evaluator (Demo.optimizer Demo.square_room Demo.two_chairs 4 1))
      Demo.grazing_layout = Ok v /\
    0 <= calculate_normalized_score
           (evaluator (Demo.optimizer Demo.square_room Demo.two_chairs 4 1)) v.
Proof.
  destruct (@normalized_fitness_splits_at_50 BoxShapely
              (evaluator (Demo.optimizer Demo.square_room Demo.two_chairs 4 1))
              Demo.grazing_layout box_never_raises eq_refl)
    as (v & Hrun & _ & _).
  exists v. split; [exact Hrun|].
  apply (@normalized_range BoxShapely).
Defined.

(** X11.  calculate_normalized_score never decreases when the raw fitness
    grows; a raw score that is not negative gets at least 50, a negative one
    at most 50. *)
Theorem calculate_normalized_score_monotone :
  forall (G : Shapely) (self : FitnessEvaluator G) (a b : Q),
    a <= b ->
    calculate_normalized_score self a <= calculate_normalized_score self b /\
    (0 <= a -> 50 <= calculate_normalized_score self a) /\
    (a < 0 -> calculate_normalized_score self a <= 50).
Proof.
  intros G self a b Hab. split; [|split].
  - now apply normalized_monotone.
  - apply normalized_feasible_ge_50.
  - apply normalized_infeasible_le_50.
Qed.

Lemma calculate_normalized_score_monotone_witness :
  calculate_normalized_score
    (evaluator (Demo.optimizer Demo.square_room Demo.bedroom 4 1)) (-300)
  <= calculate_normalized_score
       (evaluator (Demo.optimizer Demo.square_room Demo.bedroom 4 1)) 20.
Proof.
  destruct (@calculate_normalized_score_monotone BoxShapely
              (evaluator (Demo.optimizer Demo.square_room Demo.bedroom 4 1))
              (-300) 20) as (Hmono & _).
  - discriminate.
  - exact Hmono.
Defined.

(* ===================================================================== *)
(** ** Further properties: the constraint checker *)

Lemma existsb_permutation {A} (f : A -> bool) (l l' : list A) :
  Permutation l l' -> existsb f l = existsb f l'.
Proof.
  induction 1 as [|a l l' _ IH|a b l|l1 l2 l3 _ IH1 _ IH2]; cbn.
  - reflexivity.
  - now rewrite IH.
  - destruct (f a), (f b); reflexivity.
  - congruence.
Qed.

Lemma existsb_false_iff {A} (f : A -> bool) (l : list A) :
  existsb f l = false <-> Forall (fun a => f a = false) l.
Proof.
  induction l as [|a l IH]; cbn.
  - split; [constructor | reflexivity].
  - rewrite orb_false_iff, IH. split.
    + intros [Ha Hl]. now constructor.
    + intro H. inversion H; subst. split; assumption.
Qed.

Lemma check_hard_constraints_value (G : Shapely) (c : ConstraintChecker G)
      (p : Geom G) (others : list (Geom G)) :
  never_raises G ->
  check_hard_constraints c p others
  = Ok (value false (contains G (cc_room_poly c) p) &&
        negb (existsb (fun o => Qltb 0.01 (overlap G p o)) others)).
Proof.
  intro total. unfold check_hard_constraints, check_boundary, check_containment.
  destruct (contains_returns total (cc_room_poly c) p) as (inside & ->).
  cbn [result_bind value]. destruct inside; cbn [negb andb]; [|reflexivity].
  rewrite (check_overlap_total total). cbn [result_bind].
  destruct (existsb _ others); reflexivity.
Qed.

(** X12.  check_hard_constraints answers True exactly when the footprint
    is contained in the room and overlaps no other footprint by more than
    0.01, and the answer does not depend on the order in which the other
    footprints are listed (when the shapely queries return). *)
Theorem check_hard_constraints_meaning :
  forall (G : Shapely) (c : ConstraintChecker G)
         (p : Geom G) (others : list (Geom G)),
    never_raises G ->
    (exists b, check_hard_constraints c p others = Ok b) /\
    (check_hard_constraints c p others = Ok true <->
       contains G (cc_room_poly c) p = Ok true /\
       Forall (fun o => overlap G p o <= 0.01) others) /\
    (forall others',
       Permutation others others' ->
       check_hard_constraints c p others'
       = check_hard_constraints c p others).
Proof.
  intros G c p others total.
  split; [|split].
  - rewrite (check_hard_constraints_value c p others total). eexists.
    reflexivity.
  - rewrite (check_hard_constraints_value c p others total).
    destruct (contains_returns total (cc_room_poly c) p) as (inside & Hin).
    rewrite Hin. cbn [value].
    assert (Hsmall : existsb (fun o => Qltb 0.01 (overlap G p o)) others = false
                     <-> Forall (fun o => overlap G p o <= 0.01) others).
    { rewrite existsb_false_iff. split; intro H;
        (eapply Forall_impl; [|exact H]); cbn; intros o Ho;
        now apply Qltb_ge. }
    split.
    + intro H. injection H as H. apply andb_true_iff in H.
      destruct H as [-> H]. split; [reflexivity|].
      apply Hsmall. now apply negb_true_iff.
    + intros [H1 H2]. injection H1 as ->. apply Hsmall in H2.
      now rewrite H2.
  - intros others' Hperm.
    rewrite !(check_hard_constraints_value c p _ total).
    now rewrite (existsb_permutation _ Hperm).
Qed.

Lemma check_hard_constraints_meaning_witness :
  check_hard_constraints
    (opt_constraints (Demo.optimizer Demo.square_room Demo.two_chairs 4 1))
    (create_furniture_polygon BoxShapely 1 1 1 1 0)
    [create_furniture_polygon BoxShapely 3 3 1 1 0;
     create_furniture_polygon BoxShapely 3 1 1 1 0]
  = check_hard_constraints
      (opt_constraints (Demo.optimizer Demo.square_room Demo.two_chairs 4 1))
      (create_furniture_polygon BoxShapely 1 1 1 1 0)
      [create_furniture_polygon BoxShapely 3 1 1 1 0;
       create_furniture_polygon BoxShapely 3 3 1 1 0].
Proof.
  destruct (@check_hard_constraints_meaning BoxShapely
              (opt_constraints
                 (Demo.optimizer Demo.square_room Demo.two_chairs 4 1))
              (create_furniture_polygon BoxShapely 1 1 1 1 0)
              [create_furniture_polygon BoxShapely 3 1 1 1 0;
               create_furniture_polygon BoxShapely 3 3 1 1 0]
              box_never_raises) as (_ & _ & Hperm).
  apply Hperm. apply perm_swap.
Defined.

(* ===================================================================== *)
(** ** Further properties: the search loop and its best pair *)

Lemma fold_py_max_upper (rest : list Q) :
  forall x,
    x <= fold_left py_max rest x /\
    Forall (fun y => y <= fold_left py_max rest x) rest.
Proof.
  induction rest as [|y rest IH]; intro x; cbn [fold_left].
  - split; [lra | constructor].
  - destruct (IH (py_max x y)) as [Hge Hall].
    assert (Hx : x <= py_max x y /\ y <= py_max x y).
    { destruct (py_max_spec x y) as [[H ->]|[H ->]]; lra. }
    split; [lra|]. constructor; [lra | exact Hall].
Qed.

Lemma max_list_upper (l : list Q) (m : Q) :
  max_list l = Ok m -> Forall (fun x => x <= m) l.
Proof.
  destruct l as [|x rest]; [discriminate|]. cbn. intro H. injection H as <-.
  destruct (fold_py_max_upper rest x) as [Hx Hall]. now constructor.
Qed.

Lemma list_index_spec (l : list Q) (v : Q) :
  forall i, list_index l v = Ok i ->
            exists x, nth_error l i = Some x /\ x == v.
Proof.
  induction l as [|x l IH]; intros i H; cbn [list_index] in H; [discriminate|].
  destruct (Qeq_bool x v) eqn:E.
  - injection H as <-. exists x. split; [reflexivity|].
    now apply Qeq_bool_iff.
  - destruct (list_index l v) as [j|e] eqn:Hj; [|discriminate].
    cbn in H. injection H as <-. apply (IH j eq_refl).
Qed.

Lemma Forall2_nth_error_l {A B} (R : A -> B -> Prop) (l1 : list A)
      (l2 : list B) :
  Forall2 R l1 l2 ->
  forall i b, nth_error l2 i = Some b ->
              exists a, nth_error l1 i = Some a /\ R a b.
Proof.
  induction 1 as [|a b l1 l2 Hab _ IH]; intros [|i] b' Hb; try discriminate.
  - injection Hb as <-. exists a. split; [reflexivity | exact Hab].
  - apply (IH i b' Hb).
Qed.

Lemma Forall2_In_l {A B} (R : A -> B -> Prop) (l1 : list A) (l2 : list B) :
  Forall2 R l1 l2 ->
  forall a, In a l1 -> exists b, In b l2 /\ R a b.
Proof.
  induction 1 as [|a b l1 l2 Hab _ IH]; intros a' Hin; [contradiction|].
  destruct Hin as [<-|Hin].
  - exists b. split; [now left | exact Hab].
  - destruct (IH a' Hin) as (b' & Hb' & HR). exists b'. split; [now right|].
    exact HR.
Qed.

Lemma lift_inv {A} (r : Result A) (a : A) g g' :
  random.lift r g = Ok (a, g') -> r = Ok a /\ g' = g.
Proof.
  unfold random.lift. destruct r; [|discriminate].
  intro H. injection H as -> ->. split; reflexivity.
Qed.

Lemma fitness_le_refl (a : Fitness) : fitness_le a a.
Proof. destruct a; cbn; [exact I | lra]. Qed.

Lemma fitness_le_trans (a b c : Fitness) :
  fitness_le a b -> fitness_le b c -> fitness_le a c.
Proof.
  destruct a, b, c; cbn; try tauto; intros; lra.
Qed.

Section BestPair.

Variable G : Shapely.
Variable Params : Type.
Variable forward : Params -> bool -> list Q -> Result Q.
Variable self : GeneticOptimizer G Params.

(** What one generation does to the best pair. *)
Lemma generation_best (st st' : SearchState) g g' :
  generation forward self st g = Ok (st', g') ->
  fitness_le (best_fitness st) (best_fitness st') /\
  (forall ind s, In ind (population st) ->
                 final_score forward self ind = Ok s ->
                 fitness_le (Fin s) (best_fitness st')) /\
  ((best_solution st' = best_solution st /\
    best_fitness st' = best_fitness st /\
    best_fitness st <> NegInf) \/
   (exists sol v s,
      In sol (population st) /\
      best_solution st' = Some sol /\ best_fitness st' = Fin v /\
      final_score forward self sol = Ok s /\ s == v)).
Proof.
  unfold generation. intro H.
  apply m_bind_inv in H. destruct H as (scores & g1 & Heval & H).
  apply m_bind_inv in H. destruct H as (m & g2 & Hmax & H).
  apply m_bind_inv in H. destruct H as (best & g3 & Hbest & H).
  apply m_bind_inv in H. destruct H as (new & g4 & Hnext & H).
  injection H as <- <-. cbn [best_fitness best_solution].
  (* the evaluation and its maximum *)
  apply lift_inv in Heval. destruct Heval as [Hloop ->].
  apply evaluation_loop in Hloop. destruct Hloop as (new' & Hsc & HF).
  cbn [app] in Hsc. subst new'.
  apply lift_inv in Hmax. destruct Hmax as [Hm ->].
  pose proof (max_list_upper scores Hm) as Hupper.
  rewrite Forall_forall in Hupper.
  assert (Hall : forall ind s, In ind (population st) ->
                               final_score forward self ind = Ok s -> s <= m).
  { intros ind s Hin Hs.
    destruct (Forall2_In_l HF ind Hin) as (s' & Hs' & Hscore).
    rewrite Hs in Hscore. injection Hscore as <-. now apply Hupper. }
  destruct (exceeds m (best_fitness st)) eqn:Hex.
  - (* a new best pair *)
    apply m_bind_inv in Hbest. destruct Hbest as (i & g5 & Hi & Hbest).
    apply m_bind_inv in Hbest. destruct Hbest as (sol & g6 & Hsol & Hbest).
    injection Hbest as <- <-. cbn [fst snd].
    apply lift_inv in Hi. destruct Hi as [Hix ->].
    apply lift_inv in Hsol. destruct Hsol as [Hsol ->].
    unfold index in Hsol.
    destruct (nth_error (population st) i) as [sol'|] eqn:Hnth; [|discriminate].
    injection Hsol as ->.
    destruct (list_index_spec scores m Hix) as (x & Hx & Hxm).
    destruct (Forall2_nth_error_l HF i Hx) as (sol'' & Hsol'' & Hscore).
    assert (sol'' = sol) by congruence. subst sol''.
    split; [|split].
    + destruct (best_fitness st) as [|b]; cbn in *; [exact I|].
      apply Qltb_lt in Hex. lra.
    + intros ind s Hin Hs. cbn. now apply (Hall ind s).
    + right. exists sol, m, x. repeat split; try assumption.
      eapply nth_error_In. exact Hnth.
  - (* the best pair stays *)
    injection Hbest as <- <-. cbn [fst snd].
    destruct (best_fitness st) as [|b] eqn:Hb; cbn in Hex; [discriminate|].
    apply Qltb_ge in Hex.
    split; [|split].
    + cbn. lra.
    + intros ind s Hin Hs. cbn. pose proof (Hall ind s Hin Hs). lra.
    + left. repeat split. discriminate.
Qed.

Hypothesis two_items : (2 <= length (furniture_items self))%nat.

Lemma generation_well_formed (st st' : SearchState) g g' :
  well_formed self st ->
  generation forward self st g = Ok (st', g') ->
  well_formed self st'.
Proof.
  intros [Hsize Hall] Hgen.
  destruct (generation_replaces forward self st g Hgen) as (g1 & Hnext).
  destruct (next_population_returns self (population st) g1 Hsize two_items)
    as (new & g2 & Hnext' & Hnew & Hoff).
  rewrite Hnext in Hnext'. injection Hnext' as Heq _.
  unfold well_formed. rewrite Heq.
  split; [exact Hnew|].
  rewrite Forall_forall in Hoff |- *. intros c Hc.
  eapply offspring_length; [exact Hall | apply Hoff; exact Hc].
Qed.

Lemma generation_consistent (st st' : SearchState) g g' :
  well_formed self st ->
  best_consistent forward self st ->
  generation forward self st g = Ok (st', g') ->
  best_consistent forward self st' /\ best_solution st' <> None.
Proof.
  intros [_ Hall] Hbest Hgen.
  destruct (generation_best st g Hgen) as (_ & _ & [Hsame|Hnew]).
  - destruct Hsame as (Hs & Hf & Hnot).
    unfold best_consistent in *. rewrite Hs, Hf.
    destruct (best_solution st), (best_fitness st);
      try contradiction; try congruence.
    split; [exact Hbest | discriminate].
  - destruct Hnew as (sol & v & s & Hin & Hs & Hf & Hscore & Hsv).
    unfold best_consistent. rewrite Hs, Hf. split; [|discriminate].
    split; [|exists s; split; assumption].
    rewrite Forall_forall in Hall. now apply Hall.
Qed.

Lemma run_generations_consistent (gens : nat) :
  forall st st' g g',
    well_formed self st ->
    best_consistent forward self st ->
    run_generations forward self gens st g = Ok (st', g') ->
    best_consistent forward self st' /\
    ((1 <= gens)%nat -> best_solution st' <> None).
Proof.
  induction gens as [|gens IH]; intros st st' g g' Hwf Hbest H;
    cbn [run_generations] in H.
  - injection H as <- <-. split; [exact Hbest | lia].
  - apply m_bind_inv in H. destruct H as (st1 & g1 & Hgen & Hrun).
    pose proof (@generation_well_formed st st1 g g1 Hwf Hgen) as Hwf1.
    destruct (@generation_consistent st st1 g g1 Hwf Hbest Hgen)
      as [Hbest1 Hsome1].
    destruct (IH st1 st' g1 g' Hwf1 Hbest1 Hrun) as [Hbest' Hsome'].
    split; [exact Hbest'|]. intros _.
    destruct gens as [|gens].
    + cbn in Hrun. injection Hrun as <- <-. exact Hsome1.
    + apply Hsome'. lia.
Qed.

Lemma search_best (st : SearchState) g g' :
  (1 <= generations self)%nat ->
  search forward self g = Ok (st, g') ->
  exists sol v s,
    best_solution st = Some sol /\ best_fitness st = Fin v /\
    length sol = length (furniture_items self) /\
    final_score forward self sol = Ok s /\ s == v.
Proof.
  intros Hgens H. unfold search in H.
  apply m_bind_inv in H. destruct H as (pop & g1 & Hinit & Hrun).
  destruct (initial_population_returns self g)
    as (pop' & g1' & Hinit' & Hsize & Hok).
  rewrite Hinit in Hinit'. injection Hinit' as <- <-.
  destruct (@run_generations_consistent (generations self)
              {| population := pop; best_solution := None;
                 best_fitness := NegInf |} st g1 g')
    as [Hbest Hsome]; [| | exact Hrun |].
  - split; cbn [population]; [exact Hsize|].
    rewrite Forall_forall in Hok |- *. intros c Hc. apply (Hok c Hc).
  - exact I.
  - specialize (Hsome Hgens). unfold best_consistent in Hbest.
    destruct (best_solution st) as [sol|]; [|congruence].
    destruct (best_fitness st) as [|v]; [contradiction|].
    destruct Hbest as (Hlen & s & Hs & Hsv).
    exists sol, v, s. repeat split; assumption.
Qed.

End BestPair.

(** X13.  With generations = 0 optimize evaluates nothing: it returns
    (None, float('-inf')), whatever the room, the furniture and the
    geometry library. *)
Theorem optimize_zero_generations :
  forall (G : Shapely) (Params : Type)
         (forward : Params -> bool -> list Q -> Result Q)
         (self : GeneticOptimizer G Params) g,
    generations self = 0%nat ->
    exists g', optimize forward self g = Ok ((None, NegInf), g').
Proof.
  intros G Params forward self g Hgens.
  destruct (initial_population_returns self g) as (pop & g' & Hinit & _).
  assert (Hsearch : search forward self g
                    = Ok ({| population := pop; best_solution := None;
                             best_fitness := NegInf |}, g')).
  { unfold search. rewrite (m_bind_ok _ _ _ Hinit), Hgens. reflexivity. }
  exists g'. unfold optimize. rewrite (m_bind_ok _ _ _ Hsearch). reflexivity.
Qed.

Lemma optimize_zero_generations_witness :
  exists g',
    optimize Demo.net_forward
      (Demo.optimizer Demo.square_room Demo.bedroom 4 0) Demo.tape7
    = Ok ((None, NegInf), g').
Proof.
  apply (@optimize_zero_generations BoxShapely Demo.Net Demo.net_forward
           (Demo.optimizer Demo.square_room Demo.bedroom 4 0) Demo.tape7).
  reflexivity.
Defined.

(** X14.  With an empty population (population_size = 0) and at least one
    generation, optimize raises ValueError: max() of the empty list of
    fitness scores. *)
Theorem optimize_empty_population :
  forall (G : Shapely) (Params : Type)
         (forward : Params -> bool -> list Q -> Result Q)
         (self : GeneticOptimizer G Params) g,
    pop_size self = 0%nat ->
    (1 <= generations self)%nat ->
    optimize forward self g = Raise ValueError.
Proof.
  intros G Params forward self g Hpop Hgens.
  unfold optimize, search, initial_population, range.
  rewrite Hpop. cbn [Nat.sub seq rand_for_each].
  destruct (generations self) as [|gens]; [lia|].
  reflexivity.
Qed.

Lemma optimize_empty_population_witness :
  optimize Demo.net_forward
    (Demo.optimizer Demo.square_room Demo.bedroom 0 3) Demo.tape7
  = Raise ValueError.
Proof.
  apply (@optimize_empty_population BoxShapely Demo.Net Demo.net_forward
           (Demo.optimizer Demo.square_room Demo.bedroom 0 3) Demo.tape7).
  - reflexivity.
  - cbn. lia.
Defined.

(** X15.  One generation never lowers the best fitness; afterwards the
    best fitness is at least the score of every candidate of the population
    that was evaluated; and the best pair is either the old one or a member
    of that population together with its own score. *)
Theorem generation_tracks_best :
  forall (G : Shapely) (Params : Type)
         (forward : Params -> bool -> list Q -> Result Q)
         (self : GeneticOptimizer G Params) (st st' : SearchState) g g',
    generation forward self st g = Ok (st', g') ->
    fitness_le (best_fitness st) (best_fitness st') /\
    (forall ind s, In ind (population st) ->
                   final_score forward self ind = Ok s ->
                   fitness_le (Fin s) (best_fitness st')) /\
    ((best_solution st' = best_solution st /\
      best_fitness st' = best_fitness st /\
      best_fitness st <> NegInf) \/
     (exists sol v s,
        In sol (population st) /\
        best_solution st' = Some sol /\ best_fitness st' = Fin v /\
        final_score forward self sol = Ok s /\ s == v)).
Proof.
  intros G Params forward self st st' g g' H.
  exact (@generation_best G Params forward self st st' g g' H).
Qed.

Lemma generation_tracks_best_witness :
  exists st' g',
    generation Demo.net_forward
      (Demo.optimizer Demo.square_room Demo.two_chairs 2 1)
      {| population := [Demo.grazing_layout; [(1, 1, 0%Z); (3, 3, 0%Z)]];
         best_solution := None; best_fitness := NegInf |}
      Demo.tape7 = Ok (st', g') /\
    fitness_le (Fin 0) (best_fitness st').
Proof.
  destruct (generation Demo.net_forward
              (Demo.optimizer Demo.square_room Demo.two_chairs 2 1)
              {| population := [Demo.grazing_layout; [(1, 1, 0%Z); (3, 3, 0%Z)]];
                 best_solution := None; best_fitness := NegInf |}
              Demo.tape7) as [[st' g']|e] eqn:Hgen.
  - exists st', g'. split; [reflexivity|].
    destruct (@generation_tracks_best BoxShapely Demo.Net Demo.net_forward
                (Demo.optimizer Demo.square_room Demo.two_chairs 2 1)
                _ st' Demo.tape7 g' Hgen) as (_ & Hall & _).
    apply (Hall [(1, 1, 0%Z); (3, 3, 0%Z)]).
    + right. now left.
    + vm_compute. reflexivity.
  - exfalso. vm_compute in Hgen. discriminate.
Defined.

(** X16.  When a search over at least two furniture items and at least one
    generation returns, its best pair is a layout with one placement per
    furniture item together with the score that layout gets from the
    evaluation. *)
Theorem search_returns_scored_layout :
  forall (G : Shapely) (Params : Type)
         (forward : Params -> bool -> list Q -> Result Q)
         (self : GeneticOptimizer G Params) (st : SearchState) g g',
    (2 <= length (furniture_items self))%nat ->
    (1 <= generations self)%nat ->
    search forward self g = Ok (st, g') ->
    exists sol v s,
      best_solution st = Some sol /\ best_fitness st = Fin v /\
      length sol = length (furniture_items self) /\
      final_score forward self sol = Ok s /\ s == v.
Proof.
  intros G Params forward self st g g' Hn Hgens H.
  exact (@search_best G Params forward self Hn st g g' Hgens H).
Qed.

Lemma search_returns_scored_layout_witness :
  exists st g' sol,
    search Demo.net_forward
      (Demo.optimizer Demo.square_room Demo.two_chairs 2 1) Demo.tape7
    = Ok (st, g') /\
    best_solution st = Some sol /\ length sol = 2%nat.
Proof.
  destruct (search Demo.net_forward
              (Demo.optimizer Demo.square_room Demo.two_chairs 2 1)
              Demo.tape7) as [[st g']|e] eqn:Hrun.
  - destruct (@search_returns_scored_layout BoxShapely Demo.Net
                Demo.net_forward
                (Demo.optimizer Demo.square_room Demo.two_chairs 2 1)
                st Demo.tape7 g') as (sol & v & s & Hs & _ & Hlen & _).
    + cbn. lia.
    + cbn. lia.
    + exact Hrun.
    + exists st, g', sol. repeat split; assumption.
  - exfalso. vm_compute in Hrun. discriminate.
Defined.

(* ===================================================================== *)
(** ** Further properties: the request handler *)

Lemma round_half_even_near (q : Q) :
  q - (1 # 2) <= inject_Z (round_half_even q) <= q + (1 # 2).
Proof.
  unfold round_half_even.
  pose proof (Qfloor_le q) as Hlo. pose proof (Qlt_floor q) as Hhi.
  rewrite inject_Z_plus in Hhi. change (inject_Z 1) with 1 in Hhi.
  destruct (Qltb (q - inject_Z (Qfloor q)) (1 # 2)) eqn:E1.
  - apply Qltb_lt in E1. lra.
  - apply Qltb_ge in E1.
    destruct (Qltb (1 # 2) (q - inject_Z (Qfloor q))) eqn:E2.
    + rewrite inject_Z_plus. change (inject_Z 1) with 1. lra.
    + apply Qltb_ge in E2. destruct (Z.even (Qfloor q)).
      * lra.
      * rewrite inject_Z_plus. change (inject_Z 1) with 1. lra.
Qed.

Lemma round_half_even_between (q : Q) (lo hi : Z) :
  inject_Z lo <= q <= inject_Z hi ->
  (lo <= round_half_even q <= hi)%Z.
Proof.
  intros [Hlo Hhi].
  pose proof (Qfloor_le q) as Hfl. pose proof (Qlt_floor q) as Hfh.
  assert (Hf1 : (lo <= Qfloor q)%Z).
  { rewrite <- (Qfloor_Z lo). now apply Qfloor_resp_le. }
  assert (Hf2 : (Qfloor q <= hi)%Z).
  { rewrite <- (Qfloor_Z hi). now apply Qfloor_resp_le. }
  unfold round_half_even.
  assert (Hup : 0 < q - inject_Z (Qfloor q) -> (Qfloor q + 1 <= hi)%Z).
  { intro Hd. destruct (Z.eq_dec (Qfloor q) hi) as [E|E]; [|lia].
    rewrite E in Hd. lra. }
  destruct (Qltb (q - inject_Z (Qfloor q)) (1 # 2)) eqn:E1; [lia|].
  apply Qltb_ge in E1.
  assert (Hd : 0 < q - inject_Z (Qfloor q)) by lra.
  specialize (Hup Hd).
  destruct (Qltb (1 # 2) (q - inject_Z (Qfloor q))); [lia|].
  destruct (Z.even (Qfloor q)); lia.
Qed.

Lemma scale_pos (ndigits : nat) : 0 < inject_Z (10 ^ Z.of_nat ndigits).
Proof.
  change 0 with (inject_Z 0). rewrite <- Zlt_Qlt.
  apply Z.pow_pos_nonneg; lia.
Qed.

Lemma py_round_near (x : Q) (ndigits : nat) :
  x - (1 # 2) / inject_Z (10 ^ Z.of_nat ndigits)
  <= py_round x ndigits
  <= x + (1 # 2) / inject_Z (10 ^ Z.of_nat ndigits).
Proof.
  unfold py_round. pose proof (scale_pos ndigits) as Hs.
  set (scale := inject_Z (10 ^ Z.of_nat ndigits)) in *.
  destruct (round_half_even_near (x * scale)) as [Hlo Hhi].
  set (r := inject_Z (round_half_even (x * scale))) in *.
  assert (Hx : x == x * scale / scale) by (field; lra).
  split.
  - apply Qle_shift_div_l; [exact Hs|].
    assert (E : (x - (1 # 2) / scale) * scale == x * scale - (1 # 2))
      by (field; lra).
    rewrite E. exact Hlo.
  - apply Qle_shift_div_r; [exact Hs|].
    assert (E : (x + (1 # 2) / scale) * scale == x * scale + (1 # 2))
      by (field; lra).
    rewrite E. exact Hhi.
Qed.

Lemma py_round_percentage (x : Q) :
  0 <= x <= 100 -> 0 <= py_round x 1 <= 100.
Proof.
  intros [H0 H1]. unfold py_round.
  change (inject_Z (10 ^ Z.of_nat 1)) with 10.
  destruct (@round_half_even_between (x * 10) 0 1000) as [Hlo Hhi].
  - change (inject_Z 0) with 0. change (inject_Z 1000) with 1000. lra.
  - assert (0 <= inject_Z (round_half_even (x * 10)))
      by (change 0 with (inject_Z 0); now rewrite <- Zle_Qle).
    assert (inject_Z (round_half_even (x * 10)) <= 1000)
      by (change 1000 with (inject_Z 1000); now rewrite <- Zle_Qle).
    split.
    + apply Qle_shift_div_l; lra.
    + apply Qle_shift_div_r; lra.
Qed.

Lemma m_bind_then_raises {A B} (c : random.M A) (k : A -> random.M B) g :
  (forall a g1, c g = Ok (a, g1) -> exists e, k a g1 = Raise e) ->
  exists e, random.m_bind c k g = Raise e.
Proof.
  intro H. unfold random.m_bind. destruct (c g) as [[a g1]|e].
  - now apply H.
  - exists e. reflexivity.
Qed.

Section FewItems.

Variable G : Shapely.
Variable Params : Type.
Variable forward : Params -> bool -> list Q -> Result Q.
Variable self : GeneticOptimizer G Params.

Hypothesis few_items : (length (furniture_items self) <= 1)%nat.

Lemma crossover_few_items (parent1 parent2 : Layout) g :
  crossover self parent1 parent2 g = Raise ValueError.
Proof.
  unfold crossover. apply m_bind_raise. apply randint_empty. lia.
Qed.

Hypothesis some_population : (1 <= pop_size self)%nat.

Lemma next_population_few_items (population : list Layout) g :
  length population = pop_size self ->
  next_population self population g = Raise ValueError.
Proof.
  intro Hlen. unfold next_population. apply m_bind_raise.
  destruct (pop_size self) as [|fuel] eqn:Hpop; [lia|].
  cbn [fill_population length]. rewrite Hpop.
  cbn [Nat.ltb Nat.leb].
  destruct (@randint_in_range 0 (Z.of_nat (S fuel) - 1) g)
    as (i1 & Hi1 & Hd1); [lia|].
  rewrite (m_bind_ok _ _ _ Hd1).
  destruct (@index_lt _ population (Z.to_nat i1)) as (p1 & Hp1 & _); [lia|].
  rewrite (m_bind_ok _ _ _ (lift_ok _ Hp1)).
  destruct (@randint_in_range 0 (Z.of_nat (S fuel) - 1)
              (snd (random.next g))) as (i2 & Hi2 & Hd2); [lia|].
  rewrite (m_bind_ok _ _ _ Hd2).
  destruct (@index_lt _ population (Z.to_nat i2)) as (p2 & Hp2 & _); [lia|].
  rewrite (m_bind_ok _ _ _ (lift_ok _ Hp2)).
  apply m_bind_raise. apply crossover_few_items.
Qed.

Lemma generation_few_items (st : SearchState) g :
  length (population st) = pop_size self ->
  exists e, generation forward self st g = Raise e.
Proof.
  intro Hlen. unfold generation.
  apply m_bind_then_raises. intros scores g1 _.
  apply m_bind_then_raises. intros m g2 _.
  apply m_bind_then_raises. intros best g3 _.
  exists ValueError. apply m_bind_raise.
  now apply next_population_few_items.
Qed.

Lemma optimize_few_items g :
  (1 <= generations self)%nat ->
  exists e, optimize forward self g = Raise e.
Proof.
  intro Hgens. unfold optimize.
  assert (Hsearch : exists e, search forward self g = Raise e).
  { unfold search.
    destruct (initial_population_returns self g)
      as (pop & g1 & Hinit & Hsize & _).
    rewrite (m_bind_ok _ _ _ Hinit).
    destruct (generations self) as [|gens]; [lia|].
    cbn [run_generations].
    destruct (@generation_few_items
                {| population := pop; best_solution := None;
                   best_fitness := NegInf |} g1 Hsize) as (e & He).
    exists e. now apply m_bind_raise. }
  destruct Hsearch as (e & He). exists e. now apply m_bind_raise.
Qed.

End FewItems.

Section Handler.

Variable G : Shapely.
Variable Params : Type.
Variable fresh_params : Params.
Variable forward : Params -> bool -> list Q -> Result Q.

(** The record the handler builds for one placement. *)
Let placed (dp : FurnitureData * Placement) : PlacedItem :=
  {| out_id := fd_id (fst dp);
     out_x := py_round (fst (fst (snd dp))) 2;
     out_y := py_round (snd (fst (snd dp))) 2;
     out_rotation := snd (snd dp) |}.

Lemma format_layout_value (furniture_data : list FurnitureData)
      (best_layout : Layout) :
  (length best_layout <= length furniture_data)%nat ->
  format_layout furniture_data best_layout
  = Ok (map placed (combine furniture_data best_layout)).
Proof.
  intro Hlen. unfold format_layout, enumerate.
  match goal with
  | |- context [for_each ?b _ _] => set (body := b)
  end.
  assert (Hloop : forall (lay : Layout) (rest pre : list FurnitureData)
                         (acc : list PlacedItem) (k : nat),
             furniture_data = pre ++ rest -> length pre = k ->
             (length lay <= length rest)%nat ->
             for_each body acc (combine (seq k (length lay)) lay)
             = Ok (acc ++ map placed (combine rest lay))).
  { induction lay as [|[[x y] rot] lay IH]; intros rest pre acc k Hfd Hpre Hle.
    - cbn. destruct rest; now rewrite app_nil_r.
    - destruct rest as [|d rest]; [cbn in Hle; lia|].
      cbn [length seq combine for_each map].
      assert (Hix : index furniture_data k = Ok d).
      { unfold index. subst furniture_data k.
        rewrite nth_error_app2 by lia. rewrite Nat.sub_diag. reflexivity. }
      unfold body at 1. rewrite Hix. cbn [result_bind].
      rewrite (IH rest (pre ++ [d])).
      + rewrite <- app_assoc. reflexivity.
      + rewrite <- app_assoc. exact Hfd.
      + rewrite length_app. cbn. lia.
      + cbn in Hle. lia. }
  apply (Hloop best_layout furniture_data [] [] 0%nat);
    [reflexivity | reflexivity | exact Hlen].
Qed.

Lemma furniture_data_ids (items : list FurnitureItemModel) (layout : Layout) :
  length layout = length items ->
  map out_id (map placed (combine (furniture_data_of items) layout))
  = map fi_id items.
Proof.
  revert layout. induction items as [|item items IH]; intros [|p layout] H;
    try discriminate; [reflexivity|].
  cbn. f_equal. apply IH. cbn in H. lia.
Qed.

Lemma furniture_data_length (items : list FurnitureItemModel) :
  length (map fd_item (furniture_data_of items)) = length items.
Proof. unfold furniture_data_of. now rewrite !length_map. Qed.

Variable request : OptimizationRequest.
Variable a : Artifact Params.

Let optimizer : GeneticOptimizer G Params :=
  init G fresh_params (Polygon G (req_room_polygon request))
       (map fd_item (furniture_data_of (req_furniture_items request)))
       100 150 a.

Lemma optimizer_fields :
  length (furniture_items optimizer) = length (req_furniture_items request) /\
  pop_size optimizer = 100%nat /\ generations optimizer = 150%nat.
Proof.
  unfold optimizer.
  destruct (init_fields G fresh_params (Polygon G (req_room_polygon request))
              (map fd_item (furniture_data_of (req_furniture_items request)))
              100 150 a) as (-> & -> & ->).
  rewrite furniture_data_length. repeat split.
Qed.

(** What the handler answers when the optimizer returns a scored layout
    with one placement per item. *)
Lemma handler_formats (best_layout : Layout) (v : Q) g g' :
  optimize forward optimizer g = Ok ((Some best_layout, Fin v), g') ->
  length best_layout = length (req_furniture_items request) ->
  optimize_interior G fresh_params forward request a g
  = Http200
      {| resp_fitness := Fin v;
         resp_score_percentage :=
           py_round (calculate_normalized_score (evaluator optimizer) v) 1;
         resp_layout :=
           map placed
               (combine (furniture_data_of (req_furniture_items request))
                        best_layout) |}.
Proof.
  intros Hopt Hlen. unfold optimize_interior. fold optimizer.
  rewrite Hopt. rewrite format_layout_value.
  - reflexivity.
  - unfold furniture_data_of. rewrite length_map. lia.
Qed.

(** The optimizer's answer behind a 200 response. *)
Lemma handler_200 (resp : OptimizationResponse) g :
  optimize_interior G fresh_params forward request a g = Http200 resp ->
  exists best_layout v g',
    optimize forward optimizer g = Ok ((Some best_layout, Fin v), g') /\
    length best_layout = length (req_furniture_items request).
Proof.
  intro H.
  destruct optimizer_fields as (Hn & Hpop & Hgens).
  destruct (optimize forward optimizer g) as [[[best fit] g']|e] eqn:Hopt.
  2:{ unfold optimize_interior in H. fold optimizer in H.
      rewrite Hopt in H. discriminate. }
  assert (Htwo : (2 <= length (furniture_items optimizer))%nat).
  { destruct (le_lt_dec 2 (length (furniture_items optimizer)))
      as [Hge|Hlt]; [exact Hge|].
    exfalso.
    destruct (@optimize_few_items G Params forward optimizer) with (g := g)
      as (e & He); [lia | lia | lia | congruence]. }
  unfold optimize in Hopt.
  apply m_bind_inv in Hopt. destruct Hopt as (st & g1 & Hsearch & Hret).
  injection Hret as <- <- <-.
  destruct (@search_best G Params forward optimizer Htwo st g g1)
    as (sol & v & s & Hsol & Hfit & Hlen & _); [lia | exact Hsearch |].
  exists sol, v, g1. rewrite Hsol, Hfit. split; [reflexivity|]. lia.
Qed.

(** The handler answers when the optimizer's calls return and there are
    at least two items. *)
Lemma handler_answers g :
  never_raises G ->
  (forall p t fs, succeeds (forward p t fs)) ->
  (2 <= length (req_furniture_items request))%nat ->
  exists resp,
    optimize_interior G fresh_params forward request a g = Http200 resp.
Proof.
  intros total Hfwd Hn.
  destruct optimizer_fields as (Hitems & Hpop & Hgens).
  destruct (@search_returns G Params forward optimizer total Hfwd
              (init_same_items _ _ _ _ _ _ _)) with (g := g)
    as (st & g' & Hsearch & _); [lia | lia |].
  destruct (@search_best G Params forward optimizer) with (3 := Hsearch)
    as (sol & v & s & Hsol & Hfit & Hlen & _); [lia | lia |].
  assert (Hopt : optimize forward optimizer g = Ok ((Some sol, Fin v), g')).
  { unfold optimize. rewrite (m_bind_ok _ _ _ Hsearch).
    unfold random.m_ret. now rewrite Hsol, Hfit. }
  eexists. apply (@handler_formats sol v g g' Hopt). lia.
Qed.

End Handler.

Section FewItemsDetail.

Variable G : Shapely.
Variable Params : Type.
Variable forward : Params -> bool -> list Q -> Result Q.
Variable self : GeneticOptimizer G Params.

Hypothesis same_items :
  fe_furniture_items (evaluator self) = furniture_items self.

(** Without furniture the geometric score is 0 and, with a model, the
    average of no positions divides by zero. *)
Lemma final_score_without_items (model : InteriorFitnessModel Params) :
  furniture_items self = [] ->
  ml_model self = Some model ->
  final_score forward self [] = Raise ZeroDivisionError.
Proof.
  intros Hitems Hmodel.
  unfold final_score, calculate_fitness, boundary_pass, enumerate.
  rewrite same_items, Hitems. cbn.
  rewrite Hmodel. unfold _get_ml_score. rewrite Hmodel. reflexivity.
Qed.

Lemma generation_without_items (model : InteriorFitnessModel Params)
      (st : SearchState) (rest : list Layout) g :
  furniture_items self = [] ->
  ml_model self = Some model ->
  population st = [] :: rest ->
  generation forward self st g = Raise ZeroDivisionError.
Proof.
  intros Hitems Hmodel Hpop. unfold generation. apply m_bind_raise.
  rewrite Hpop. cbn [for_each].
  rewrite (final_score_without_items Hitems Hmodel). reflexivity.
Qed.

Lemma search_without_items (model : InteriorFitnessModel Params) g :
  furniture_items self = [] ->
  ml_model self = Some model ->
  (1 <= pop_size self)%nat ->
  (1 <= generations self)%nat ->
  search forward self g = Raise ZeroDivisionError.
Proof.
  intros Hitems Hmodel Hpop Hgens. unfold search.
  destruct (initial_population_returns self g)
    as (pop & g1 & Hinit & Hsize & Hok).
  rewrite (m_bind_ok _ _ _ Hinit).
  destruct (generations self) as [|gens]; [lia|].
  cbn [run_generations]. apply m_bind_raise.
  destruct pop as [|c rest]; [cbn in Hsize; lia|].
  apply (@generation_without_items model _ rest); try assumption.
  cbn [population]. f_equal.
  apply Forall_inv in Hok. destruct Hok as [Hlen _].
  rewrite Hitems in Hlen. now destruct c.
Qed.

Hypothesis total : never_raises G.
Hypothesis forward_returns : forall p t fs, succeeds (forward p t fs).

Lemma final_score_returns_nonempty (ind : Layout) :
  length ind = length (furniture_items self) ->
  ml_model self = None \/ ind <> [] ->
  succeeds (final_score forward self ind).
Proof.
  intros Hlen Hcase. unfold final_score.
  destruct (@calculate_fitness_refines G (evaluator self) total ind)
    as (geo & -> & _); [now rewrite same_items|].
  cbn [result_bind].
  destruct (ml_model self) as [model|] eqn:Hm; [|eexists; reflexivity].
  destruct Hcase as [Hnone|Hne]; [discriminate|].
  rewrite (@get_ml_score_with_model G Params forward self ind model _ Hm
             (@ml_features_value G Params self ind Hne)).
  destruct (forward_returns (params model) (training model)
              (value [] (ml_features self ind))) as (score & Hs).
  rewrite (@ml_features_value G Params self ind Hne) in Hs. cbn [value] in Hs.
  rewrite Hs. eexists. reflexivity.
Qed.

Lemma scores_return (pop : list Layout) :
  Forall (fun ind => succeeds (final_score forward self ind)) pop ->
  forall acc,
  exists scores,
    for_each
      (fun scores ind =>
         (s <- final_score forward self ind ;; ret (scores ++ [s]))%result)
      acc pop = Ok scores /\
    length scores = (length acc + length pop)%nat.
Proof.
  induction 1 as [|ind pop Hind Hpop IH]; intro acc; cbn [for_each].
  - exists acc. split; [reflexivity | cbn; lia].
  - destruct Hind as (s & ->). cbn [result_bind].
    destruct (IH (acc ++ [s])) as (scores & -> & Hlen).
    exists scores. split; [reflexivity|].
    rewrite Hlen, length_app. cbn. lia.
Qed.

Hypothesis few_items : (length (furniture_items self) <= 1)%nat.
Hypothesis some_population : (1 <= pop_size self)%nat.

(** When the evaluation returns, the first exception of a generation is the
    ValueError of crossover's empty cut range. *)
Lemma generation_cut_range_empty (st : SearchState) g :
  length (population st) = pop_size self ->
  Forall (fun ind => succeeds (final_score forward self ind))
         (population st) ->
  generation forward self st g = Raise ValueError.
Proof.
  intros Hsize Hall. unfold generation.
  destruct (scores_return Hall []) as (scores & Heval & Hlen).
  rewrite (m_bind_ok _ _ _ (lift_ok _ Heval)).
  destruct (max_list scores) as [m|e] eqn:Hmax.
  2:{ destruct scores; [cbn in Hlen; lia | discriminate]. }
  rewrite (m_bind_ok _ _ _ (lift_ok _ eq_refl)).
  assert (Hbest : exists best,
             (if exceeds m (best_fitness st)
              then
                (i <- random.lift (list_index scores m) ;;
                 sol <- random.lift (index (population st) i) ;;
                 ret (Some sol, Fin m))%rand
              else (ret (best_solution st, best_fitness st))%rand) g
             = Ok (best, g)).
  { destruct (exceeds m (best_fitness st)); [|eexists; reflexivity].
    destruct (@list_index_in scores m (@max_list_in scores m Hmax))
      as (i & Hi & Hlt).
    rewrite (m_bind_ok _ _ _ (lift_ok _ Hi)).
    destruct (@index_lt _ (population st) i) as (sol & Hsol & _);
      [cbn in Hlen; lia|].
    rewrite (m_bind_ok _ _ _ (lift_ok _ Hsol)).
    eexists. reflexivity. }
  destruct Hbest as (best & Hbest).
  rewrite (m_bind_ok _ _ _ Hbest).
  apply m_bind_raise.
  now apply next_population_few_items.
Qed.

Lemma search_cut_range_empty g :
  ml_model self = None \/ furniture_items self <> [] ->
  (1 <= generations self)%nat ->
  search forward self g = Raise ValueError.
Proof.
  intros Hcase Hgens. unfold search.
  destruct (initial_population_returns self g)
    as (pop & g1 & Hinit & Hsize & Hok).
  rewrite (m_bind_ok _ _ _ Hinit).
  destruct (generations self) as [|gens]; [lia|].
  cbn [run_generations]. apply m_bind_raise.
  apply generation_cut_range_empty; cbn [population]; [exact Hsize|].
  rewrite Forall_forall in Hok |- *. intros c Hc.
  destruct (Hok c Hc) as [Hlen _].
  apply final_score_returns_nonempty; [exact Hlen|].
  destruct Hcase as [Hnone|Hne]; [now left | right].
  intros ->. cbn in Hlen. destruct (furniture_items self); [congruence|discriminate].
Qed.

End FewItemsDetail.

Section HandlerFailure.

Variable G : Shapely.
Variable Params : Type.
Variable fresh_params : Params.
Variable forward : Params -> bool -> list Q -> Result Q.
Variable request : OptimizationRequest.
Variable a : Artifact Params.

(** An exception of the search is what the handler reports. *)
Lemma handler_reports (e : Exn) g :
  search forward
    (init G fresh_params (Polygon G (req_room_polygon request))
       (map fd_item (furniture_data_of (req_furniture_items request)))
       100 150 a) g = Raise e ->
  optimize_interior G fresh_params forward request a g
  = Http500 (CoreError e).
Proof.
  intro H. unfold optimize_interior, optimize.
  rewrite (m_bind_raise _ _ _ H). reflexivity.
Qed.

Lemma artifact_model :
  a <> NoFile Params ->
  exists model,
    ml_model
      (init G fresh_params (Polygon G (req_room_polygon request))
         (map fd_item (furniture_data_of (req_furniture_items request)))
         100 150 a) = Some model.
Proof.
  intro Ha. destruct a as [| |p]; [congruence | |].
  - eexists. apply init_unloadable.
  - eexists. apply init_state_dict.
Qed.

End HandlerFailure.

(** X17.  A request with fewer than two furniture items is never answered
    with a layout: the handler raises HTTPException(500).  For a room of at
    least three points (so that shapely builds the polygon): with no item
    and a model file (loaded or not), the exception is the ZeroDivisionError
    of _get_ml_score, raised while the first candidate is scored; in the
    other cases, when the shapely queries and the model return, it is the
    ValueError of crossover's randint(1, len(furniture_items) - 1). *)
Theorem optimize_interior_too_few_items :
  forall (G : Shapely) (Params : Type) (fresh_params : Params)
         (forward : Params -> bool -> list Q -> Result Q)
         (request : OptimizationRequest) (a : Artifact Params) g,
    (length (req_furniture_items request) <= 1)%nat ->
    exists detail,
      optimize_interior G fresh_params forward request a g = Http500 detail /\
      ((3 <= length (req_room_polygon request))%nat ->
       req_furniture_items request = [] -> a <> NoFile Params ->
       detail = CoreError ZeroDivisionError) /\
      ((3 <= length (req_room_polygon request))%nat ->
       never_raises G ->
       (forall p t fs, succeeds (forward p t fs)) ->
       req_furniture_items request <> [] \/ a = NoFile Params ->
       detail = CoreError ValueError).
Proof.
  intros G Params fresh_params forward request a g Hfew.
  destruct (@optimizer_fields G Params fresh_params request a)
    as (Hn & Hpop & Hgens).
  set (optimizer :=
         init G fresh_params (Polygon G (req_room_polygon request))
           (map fd_item (furniture_data_of (req_furniture_items request)))
           100 150 a) in *.
  assert (Hsame : fe_furniture_items (evaluator optimizer)
                  = furniture_items optimizer) by apply init_same_items.
  assert (Hitems : furniture_items optimizer = [] <->
                   req_furniture_items request = []).
  { split; intro H.
    - rewrite H in Hn. destruct (req_furniture_items request);
        [reflexivity | discriminate].
    - rewrite H in Hn. destruct (furniture_items optimizer);
        [reflexivity | discriminate]. }
  destruct (@optimize_few_items G Params forward optimizer) with (g := g)
    as (e & He); try lia.
  exists (CoreError e). split; [|split].
  - unfold optimize_interior. fold optimizer. now rewrite He.
  - intros _ Hnone Ha.
    destruct (@artifact_model G Params fresh_params request a Ha)
      as (model & Hmodel). fold optimizer in Hmodel.
    assert (Hs : search forward optimizer g = Raise ZeroDivisionError).
    { apply (@search_without_items G Params forward optimizer Hsame model);
        try lia; [now apply Hitems | exact Hmodel]. }
    unfold optimize in He. rewrite (m_bind_raise _ _ _ Hs) in He.
    congruence.
  - intros _ total Hfwd Hcase.
    assert (Hs : search forward optimizer g = Raise ValueError).
    { apply (@search_cut_range_empty G Params forward optimizer Hsame
               total Hfwd); try lia.
      destruct Hcase as [Hne|Ha].
      - right. intro H. apply Hne. now apply Hitems.
      - left. subst a. apply init_no_file. }
    unfold optimize in He. rewrite (m_bind_raise _ _ _ Hs) in He.
    congruence.
Qed.

Lemma optimize_interior_too_few_items_witness :
  exists detail,
    optimize_interior BoxShapely Demo.blank_net Demo.net_forward
      Requests.bed_only (NoFile Demo.Net) Demo.tape7
    = Http500 detail /\
    detail = CoreError ValueError.
Proof.
  destruct (@optimize_interior_too_few_items BoxShapely Demo.Net
              Demo.blank_net Demo.net_forward Requests.bed_only
              (NoFile Demo.Net) Demo.tape7)
    as (detail & Hrun & _ & Hcut).
  - cbn. lia.
  - exists detail. split; [exact Hrun|].
    apply Hcut.
    + cbn. lia.
    + exact box_never_raises.
    + intros p t fs. eexists. reflexivity.
    + right. reflexivity.
Defined.

(** X18.  A 200 response carries one record per requested furniture item,
    with the ids in the order of the request; its score_percentage lies in
    [0, 100]; its fitness is the optimizer's finite best fitness; and each
    record is a placement of the optimizer's best layout with the same
    rotation and x and y rounded to two decimals, so at most 0.005 away. *)
Theorem optimize_interior_response :
  forall (G : Shapely) (Params : Type) (fresh_params : Params)
         (forward : Params -> bool -> list Q -> Result Q)
         (request : OptimizationRequest) (a : Artifact Params) g
         (resp : OptimizationResponse),
    optimize_interior G fresh_params forward request a g = Http200 resp ->
    map out_id (resp_layout resp) = map fi_id (req_furniture_items request) /\
    0 <= resp_score_percentage resp <= 100 /\
    exists best_layout v g',
      optimize forward
        (init G fresh_params (Polygon G (req_room_polygon request))
           (map fd_item (furniture_data_of (req_furniture_items request)))
           100 150 a) g
      = Ok ((Some best_layout, Fin v), g') /\
      resp_fitness resp = Fin v /\
      Forall2
        (fun (p : Placement) (r : PlacedItem) =>
           out_rotation r = snd p /\
           fst (fst p) - (1 # 200) <= out_x r <= fst (fst p) + (1 # 200) /\
           snd (fst p) - (1 # 200) <= out_y r <= snd (fst p) + (1 # 200))
        best_layout (resp_layout resp).
Proof.
  intros G Params fresh_params forward request a g resp H.
  destruct (@handler_200 G Params fresh_params forward request a resp g H)
    as (best & v & g' & Hopt & Hlen).
  rewrite (@handler_formats G Params fresh_params forward request a
             best v g g' Hopt Hlen) in H.
  injection H as <-. cbn [resp_layout resp_score_percentage resp_fitness].
  split; [now apply furniture_data_ids|].
  split; [apply py_round_percentage, normalized_range|].
  exists best, v, g'. split; [exact Hopt|]. split; [reflexivity|].
  clear Hopt. revert best Hlen.
  induction (req_furniture_items request) as [|item items IH];
    intros [|[[x y] rot] best] Hlen; try discriminate; cbn; constructor.
  - cbn. split; [reflexivity|].
    pose proof (py_round_near x 2) as Hx. pose proof (py_round_near y 2) as Hy.
    change ((1 # 2) / inject_Z (10 ^ Z.of_nat 2)) with ((1 # 2) / 100)
      in Hx, Hy.
    assert (E : (1 # 2) / 100 == 1 # 200) by reflexivity.
    rewrite E in Hx, Hy. split; assumption.
  - apply IH. cbn in Hlen. lia.
Qed.

Lemma optimize_interior_response_witness :
  exists resp,
    optimize_interior BoxShapely Demo.blank_net Demo.net_forward
      Requests.bedroom (NoFile Demo.Net) Demo.tape7
    = Http200 resp /\
    map out_id (resp_layout resp) = Requests.bedroom_ids /\
    0 <= resp_score_percentage resp <= 100.
Proof.
  destruct (@handler_answers BoxShapely Demo.Net Demo.blank_net
              Demo.net_forward Requests.bedroom (NoFile Demo.Net) Demo.tape7
              box_never_raises) as (resp & H).
  - intros p t fs. eexists. reflexivity.
  - cbn. lia.
  - exists resp. split; [exact H|].
    destruct (@optimize_interior_response BoxShapely Demo.Net Demo.blank_net
                Demo.net_forward Requests.bedroom (NoFile Demo.Net)
                Demo.tape7 resp H) as (Hids & Hscore & _).
    split; [exact Hids | exact Hscore].
Defined.

(** X19.  A request with at least two furniture items and a room of at
    least three points (so that shapely builds the polygon) is answered with
    a 200 response when the shapely queries and the model return. *)
Theorem optimize_interior_answers :
  forall (G : Shapely) (Params : Type) (fresh_params : Params)
         (forward : Params -> bool -> list Q -> Result Q)
         (request : OptimizationRequest) (a : Artifact Params) g,
    never_raises G ->
    (forall p t fs, succeeds (forward p t fs)) ->
    (3 <= length (req_room_polygon request))%nat ->
    (2 <= length (req_furniture_items request))%nat ->
    exists resp,
      optimize_interior G fresh_params forward request a g = Http200 resp.
Proof.
  intros G Params fresh_params forward request a g total Hfwd _ Hn.
  now apply handler_answers.
Qed.

Lemma optimize_interior_answers_witness :
  exists resp,
    optimize_interior BoxShapely Demo.blank_net Demo.net_forward
      Requests.bedroom (NoFile Demo.Net) Demo.tape7
    = Http200 resp.
Proof.
  apply (@optimize_interior_answers BoxShapely Demo.Net Demo.blank_net
           Demo.net_forward Requests.bedroom (NoFile Demo.Net) Demo.tape7
           box_never_raises).
  - intros p t fs. eexists. reflexivity.
  - cbn. lia.
  - cbn. lia.
Defined.
